(** * KMZ flood polygons: loaders and the depth-extrusion renderer

    A shallow embedding of three scripts of the repository

      - [read_kmz_geopandas.py]   (KMZ to GeoJSON converter),
      - [read_kml_with_pyogrio.py] (KMZ reader on pyogrio),
      - [plot_kmz_flood.py]       (3D extrusion plot),

    and the properties their specification states about them.  The fourth
    script, [preview_globe_pydeck.py], only hands a GeoJSON file to pydeck.

    Conventions of the embedding.

    - A Python function that may raise returns a [result]; a function that
      prints returns the printed lines next to its value.
    - Python floats are values of a type [num] with the operations of the
      class [PyFloat].  Two instances are given: IEEE-754 binary64 (the
      kernel's primitive floats, which is what CPython and NumPy compute
      with) and exact rational arithmetic ([Q], no rounding, no NaN, no
      infinity), which serves for concrete runs with readable numbers.
      Definitions are written once, over the class.
    - A column of a frame is an array with its NumPy dtype: float64, a
      signed integer type, or object (text, as pandas holds the string
      fields GDAL reads: [str] values, [None] where the field is null).
    - Calls into GDAL/GeoPandas, Shapely/GEOS, pyproj, NumPy's random
      generator and Matplotlib's colour tables are parameters, collected in
      the records [Drivers], [GeometryLib] and [PlotLib]. *)

From Stdlib Require Import QArith ZArith List String Ascii Bool Lia PeanoNat.
From Stdlib Require Import Floats Uint63 Lqa Qminmax Qabs Qpower.
Import ListNotations.

Set Implicit Arguments.

(** ** Exceptions and results *)

(** The exception classes the scripts raise or let through. *)
Inductive exn : Type :=
| FileNotFoundError (msg : string)
| BadZipFile (msg : string)
| ValueError (msg : string)
| TypeError (msg : string)
| AttributeError (msg : string)
| KeyError (key : string)
| IndexError
| DriverError (msg : string).


Inductive result (A : Type) : Type :=
| Ok (a : A)
| Raise (e : exn).

Arguments Ok {A} a.
Arguments Raise {A} e.

Definition bind {A B : Type} (r : result A) (k : A -> result B) : result B :=
  match r with
  | Ok a => k a
  | Raise e => Raise e
  end.

Definition is_ok {A : Type} (r : result A) : bool :=
  match r with Ok _ => true | Raise _ => false end.

Declare Scope py_scope.
Delimit Scope py_scope with py.

Notation "x <- r ;; k" := (bind r (fun x => k))
  (at level 61, r at next level, right associativity) : py_scope.

(** ** Floating-point numbers *)


(** What the scripts use of Python's [float] (and of NumPy's [float64]):
    decimal literals, the four operations, the comparisons, the tests for
    NaN and for finiteness, and the conversion of an integer. *)
Class PyFloat (num : Type) : Type := {
  lit : Q -> num;
  fadd : num -> num -> num;
  fsub : num -> num -> num;
  fmul : num -> num -> num;
  fdiv : num -> num -> num;
  fltb : num -> num -> bool;
  fleb : num -> num -> bool;
  feqb : num -> num -> bool;
  isnan : num -> bool;
  isfinite : num -> bool;
  of_int : Z -> num
}.


Infix "+" := fadd : py_scope.
Infix "-" := fsub : py_scope.
Infix "*" := fmul : py_scope.
Infix "/" := fdiv : py_scope.
Infix "<?" := fltb (at level 70) : py_scope.
Infix "<=?" := fleb (at level 70) : py_scope.
Infix "=?" := feqb (at level 70) : py_scope.

(** Python's [a > b] is [b < a]. *)
Definition fgtb {num : Type} `{PyFloat num} (a b : num) : bool := fltb b a.
Infix ">?" := fgtb (at level 70) : py_scope.

(** Exact arithmetic: every operation without rounding. *)
Definition Qltb (x y : Q) : bool := negb (Qle_bool y x).


#[export] Instance ExactFloat : PyFloat Q := {
  lit := fun q => q;
  fadd := Qplus;
  fsub := Qminus;
  fmul := Qmult;
  fdiv := Qdiv;
  fltb := Qltb;
  fleb := Qle_bool;
  feqb := Qeq_bool;
  isnan := fun _ => false;
  isfinite := fun _ => true;
  of_int := inject_Z
}.

(** Binary64: a decimal literal [n/d] is the correctly rounded quotient of
    the two (exactly representable) integers, which is the float CPython's
    parser produces for the literals of the scripts. *)
Definition float_of_Z (z : Z) : float :=
  match z with
  | Z0 => PrimFloat.zero
  | Zpos _ => PrimFloat.of_uint63 (Uint63.of_Z z)
  | Zneg p => PrimFloat.opp (PrimFloat.of_uint63 (Uint63.of_Z (Zpos p)))
  end.

Definition float_of_Q (q : Q) : float :=
  PrimFloat.div (float_of_Z (Qnum q)) (float_of_Z (Zpos (Qden q))).

(** The float64 nearest to an int64 (or an int32): [of_uint63] rounds to
    nearest; the magnitude 2^63 of the least int64 is a power of two. *)
Definition float_of_int (z : Z) : float :=
  if (Z.abs z <? 2 ^ 63)%Z then float_of_Z z
  else if (z <? 0)%Z then (-0x1p+63)%float else 0x1p+63%float.

#[export] Instance Binary64 : PyFloat float := {
  lit := float_of_Q;
  fadd := PrimFloat.add;
  fsub := PrimFloat.sub;
  fmul := PrimFloat.mul;
  fdiv := PrimFloat.div;
  fltb := PrimFloat.ltb;
  fleb := PrimFloat.leb;
  feqb := PrimFloat.eqb;
  isnan := PrimFloat.is_nan;
  isfinite := PrimFloat.is_finite;
  of_int := float_of_int
}.


(** What the proofs about the control flow of the renderer need from the
    arithmetic, whichever it is: [a == b] excludes [a < b], and the product
    [1 * 0.5] is the literal [0.5]. *)
Class LawfulFloat (num : Type) `{PyFloat num} : Prop := {
  feqb_not_fltb : forall x y : num, feqb x y = true -> fltb x y = false;
  one_times_half : fmul (lit 1) (lit 0.5) = lit 0.5
}.

Arguments LawfulFloat num {_}.

(** [abs(x)] on a float, as [_set_axes_equal] uses it. *)
Class PyAbs (num : Type) : Type := {
  fabs : num -> num
}.

#[export] Instance ExactAbs : PyAbs Q := { fabs := Qabs }.

#[export] Instance Binary64Abs : PyAbs float := { fabs := PrimFloat.abs }.

(** A NaN is neither below nor above any number. *)
Class NanUnordered (num : Type) `{PyFloat num} : Prop := {
  nan_not_below : forall x y : num, isnan x = true -> fltb x y = false;
  nan_not_above : forall x y : num, isnan y = true -> fltb x y = false
}.

Arguments NanUnordered num {_}.

(** ** File names and paths *)

Open Scope string_scope.

(** [str.lower()] on the ASCII letters (file names are taken to be ASCII). *)
Definition lower_ascii (c : ascii) : ascii :=
  let n := nat_of_ascii c in
  if (65 <=? n)%nat && (n <=? 90)%nat then ascii_of_nat (n + 32) else c.

Fixpoint lower (s : string) : string :=
  match s with
  | EmptyString => EmptyString
  | String c t => String (lower_ascii c) (lower t)
  end.

(** [s.endswith(suffix)] *)
Definition endswith (s suffix : string) : bool :=
  let n := String.length s in
  let k := String.length suffix in
  (k <=? n)%nat && String.eqb (substring (n - k) k s) suffix.

Definition startswith (s pre : string) : bool := prefix pre s.

(** The test both search loops apply to a name: [f.lower().endswith(".kml")]. *)
Definition is_kml_name (f : string) : bool := endswith (lower f) ".kml".

(** [os.path.join(a, b)] of [posixpath]. *)
Definition path_join (a b : string) : string :=
  if startswith b "/" then b
  else if String.eqb a "" || endswith a "/" then a ++ b
  else a ++ "/" ++ b.

(** A directory after [ZipFile.extractall]: its entries in the order in which
    the operating system lists them. *)
#[warnings="-register-all"]
Inductive entry : Type :=
| File (name : string)
| Dir (name : string) (children : list entry).

Definition entry_name (e : entry) : string :=
  match e with File n => n | Dir n _ => n end.

(** [os.listdir(td)]: the names of all entries, directories included. *)
Definition os_listdir (es : list entry) : list string := map entry_name es.

Definition dirnames (es : list entry) : list string :=
  flat_map (fun e => match e with Dir n _ => [n] | File _ => [] end) es.

Definition filenames (es : list entry) : list string :=
  flat_map (fun e => match e with File n => [n] | Dir _ _ => [] end) es.

(** [os.walk(top)], top-down: the triple of a directory first, then the walks
    of its sub-directories in listing order. *)
Fixpoint walk_entry (parent : string) (e : entry)
  : list (string * list string * list string) :=
  match e with
  | File _ => []
  | Dir name children =>
      let here := path_join parent name in
      (here, dirnames children, filenames children)
        :: flat_map (walk_entry here) children
  end.

Definition os_walk (top : string) (es : list entry)
  : list (string * list string * list string) :=
  (top, dirnames es, filenames es) :: flat_map (walk_entry top) es.

(** The inner loop [for f in files: if f.lower().endswith(".kml"): return
    os.path.join(root, f)]; [None] when the loop falls through. *)
Fixpoint first_kml (root : string) (files : list string) : option string :=
  match files with
  | [] => None
  | f :: rest =>
      if is_kml_name f then Some (path_join root f) else first_kml root rest
  end.

(** The outer loop over the triples of [os.walk]. *)
Fixpoint search_walk (w : list (string * list string * list string))
  : option string :=
  match w with
  | [] => None
  | (root, _, files) :: rest =>
      match first_kml root files with
      | Some p => Some p
      | None => search_walk rest
      end
  end.


(** What lies at the path of the KMZ: nothing, a file that is not a zip
    archive, or an archive, given by the entries [extractall] puts into the
    target directory. *)
Inductive kmz_file : Type :=
| NoFile
| NotAZipFile
| Archive (extracted : list entry).

(** [os.path.exists(kmz_path)] *)
Definition path_exists (file : kmz_file) : bool :=
  match file with NoFile => false | _ => true end.

(** [zipfile.ZipFile(kmz_path)] followed by [extractall(td)]: the entries
    now in [td], or the exception of the constructor. *)
Definition extractall (file : kmz_file) : result (list entry) :=
  match file with
  | NoFile => Raise (FileNotFoundError "No such file or directory")
  | NotAZipFile => Raise (BadZipFile "File is not a zip file")
  | Archive extracted => Ok extracted
  end.

(** ** Geometries and data frames *)

Section Data.

Variable num : Type.

(** A coordinate tuple: [c[0]], [c[1]] and, in KML with altitudes, [c[2]]. *)
Record coord : Type := mkCoord { cx : num; cy : num; cz : option num }.

Definition ring : Type := list coord.

(** A Shapely polygon: [poly.exterior.coords] and the holes. *)
Record Polygon : Type := mkPolygon {
  exterior : ring;
  interiors : list ring
}.

Inductive Geometry : Type :=
| GPoint (c : coord)
| GLineString (cs : list coord)
| GPolygon (p : Polygon)
| GMultiPolygon (geoms : list Polygon).

Definition geom_type (g : Geometry) : string :=
  match g with
  | GPoint _ => "Point"
  | GLineString _ => "LineString"
  | GPolygon _ => "Polygon"
  | GMultiPolygon _ => "MultiPolygon"
  end.

(** The values of a column, [gdf[col].values], by dtype: float64 (NaN where
    a value is missing), a signed integer type of [bits] bits (int32 and
    int64 are what GDAL's integer fields become), object (the [str] values
    of a text field, [None] where the field is null), or geometries. *)
Inductive array : Type :=
| Float64 (v : list num)
| Integer (bits : Z) (v : list Z)
| Object (v : list (option string))
| Geometries (v : list (option Geometry)).

Definition size (a : array) : nat :=
  match a with
  | Float64 v => List.length v
  | Integer _ v => List.length v
  | Object v => List.length v
  | Geometries v => List.length v
  end.

(** A GeoDataFrame, column by column: the attribute columns by name, the
    active geometry column, which [gpd.read_file] names "geometry" ([None]
    is a null geometry), and the CRS as an EPSG code ([None] when the frame
    carries none). *)
Record GeoDataFrame : Type := mkGDF {
  columns : list (string * array);
  geometry : list (option Geometry);
  crs : option Z
}.

(** [len(gdf)] *)
Definition len (gdf : GeoDataFrame) : nat := List.length (geometry gdf).

(** Boolean-mask indexing of one column. *)
Fixpoint keep (A : Type) (mask : list bool) (xs : list A) : list A :=
  match mask, xs with
  | b :: m, x :: t => if b then x :: keep m t else keep m t
  | _, _ => []
  end.

Definition keep_array (mask : list bool) (a : array) : array :=
  match a with
  | Float64 v => Float64 (keep mask v)
  | Integer bits v => Integer bits (keep mask v)
  | Object v => Object (keep mask v)
  | Geometries v => Geometries (keep mask v)
  end.

(** [gdf[mask]] *)
Definition select (gdf : GeoDataFrame) (mask : list bool) : GeoDataFrame :=
  {| columns := map (fun c => (fst c, keep_array mask (snd c))) (columns gdf);
     geometry := keep mask (geometry gdf);
     crs := crs gdf |}.

(** [gdf.geometry.notnull()] *)
Definition notnull (gdf : GeoDataFrame) : list bool :=
  map (fun g => match g with Some _ => true | None => false end) (geometry gdf).

Definition in_strings (s : string) (l : list string) : bool :=
  existsb (String.eqb s) l.

(** [gdf.geometry.geom_type.isin(names)] (a null geometry has no type). *)
Definition geom_type_isin (gdf : GeoDataFrame) (names : list string) : list bool :=
  map (fun g => match g with
                | Some g => in_strings (geom_type g) names
                | None => false
                end) (geometry gdf).

(** [gdf.columns]: the attribute columns and the geometry column. *)
Definition column_names (gdf : GeoDataFrame) : list string :=
  map fst (columns gdf) ++ ["geometry"].

(** [col in gdf.columns] *)
Definition has_column (gdf : GeoDataFrame) (col : string) : bool :=
  in_strings col (column_names gdf).

Fixpoint column_values (cols : list (string * array)) (col : string)
  : option array :=
  match cols with
  | [] => None
  | (n, v) :: rest => if String.eqb col n then Some v else column_values rest col
  end.

(** The readers of GeoPandas and pyogrio: a path and an optional driver name
    give a frame or raise. *)
Record Drivers : Type := mkDrivers {
  gpd_read_file : string -> option string -> result GeoDataFrame;
  pyogrio_read_dataframe : string -> option string -> result GeoDataFrame
}.

(** Shapely/GEOS and pyproj. *)
Record GeometryLib : Type := mkGeometryLib {
  to_crs : Z -> Z -> Geometry -> Geometry;
  buffer : Geometry -> num -> Geometry;
  is_valid : Geometry -> bool;
  centroid : Polygon -> num * num
}.

(** Matplotlib's colour table and NumPy's generator: [Blues x] is the RGBA
    tuple of [plt.cm.Blues(x)]; [next_uniform low high s] is one draw of
    [np.random.uniform(low, high)] from generator state [s]. *)
Record PlotLib (rng : Type) : Type := mkPlotLib {
  Blues : num -> num * num * num * num;
  next_uniform : num -> num -> rng -> num * rng
}.

End Data.

Arguments GPoint {num} c.
Arguments GLineString {num} cs.
Arguments GPolygon {num} p.
Arguments GMultiPolygon {num} geoms.
Arguments Float64 {num} v.
Arguments Integer {num} bits v.
Arguments Object {num} v.
Arguments Geometries {num} v.

(** The EPSG code of the default geographic datum (WGS 84 longitude/latitude). *)
Definition EPSG_4326 : Z := 4326.

(** One call of a reader, as an observer of the run sees it: which driver was
    asked for. *)
Definition attempt : Type := option string.

Section FrameUpdates.

Variable num : Type.

(** [gdf.set_crs(epsg=code, inplace=True)] on a frame without CRS. *)
Definition set_crs (gdf : GeoDataFrame num) (code : Z) : GeoDataFrame num :=
  {| columns := columns gdf; geometry := geometry gdf; crs := Some code |}.

(** [gdf["geometry"] = column] *)
Definition set_geometry (gdf : GeoDataFrame num)
  (column : list (option (Geometry num))) : GeoDataFrame num :=
  {| columns := columns gdf; geometry := column; crs := crs gdf |}.

(** [gdf.to_crs(epsg=code)] for a frame whose CRS is [src]: every geometry is
    transformed and the frame is labelled with the target CRS. *)
Definition gdf_to_crs (geo : GeometryLib num) (gdf : GeoDataFrame num)
  (src code : Z) : GeoDataFrame num :=
  {| columns := columns gdf;
     geometry := map (option_map (to_crs geo src code)) (geometry gdf);
     crs := Some code |}.

(** [gdf.geometry.is_valid] (a null geometry is not valid). *)
Definition is_valid_mask (geo : GeometryLib num) (gdf : GeoDataFrame num)
  : list bool :=
  map (fun g => match g with Some g => is_valid geo g | None => false end)
      (geometry gdf).

End FrameUpdates.

(** [pathlib.Path] as the plot script uses it: the constructor, [suffix],
    [with_suffix] (which raises [ValueError] on a path without a name),
    [parent] and [absolute]. *)
Record PathLib (P : Type) : Type := mkPathLib {
  Path : string -> P;
  path_suffix : P -> string;
  with_suffix : P -> string -> result P;
  path_parent : P -> P;
  absolute : P -> P
}.

(** ** read_kmz_geopandas.py *)

Module read_kmz_geopandas.
Section Script.

Context {num : Type} `{PyFloat num}.
Variable drv : Drivers num.
Variable geo : GeometryLib num.

(** [extract_kml_from_kmz] (lines 12-22).  [file] is what lies at
    [kmz_path]; the loops run over [os.walk(tmpdir)]. *)
Definition extract_kml_from_kmz (kmz_path : string) (file : kmz_file)
  (tmpdir : string) : result string :=
  if negb (path_exists file)
  then Raise (FileNotFoundError ("Not found: " ++ kmz_path))
  else
    match extractall file with
    | Raise e => Raise e
    | Ok extracted =>
        match search_walk (os_walk tmpdir extracted) with
        | Some p => Ok p
        | None => Raise (FileNotFoundError "No .kml inside KMZ")
        end
    end.

(** The repair step (lines 36-38): [buffer(0)] on every geometry, then
    [gdf[gdf.geometry.is_valid]]. *)
Definition repair (gdf : GeoDataFrame num) : GeoDataFrame num :=
  let gdf := set_geometry gdf
               (map (option_map (fun g => buffer geo g (lit 0))) (geometry gdf)) in
  select gdf (is_valid_mask geo gdf).

(** [read_kml_to_gdf] (lines 24-39): the reader calls made, in order, and
    the frame or the exception that escapes. *)
Definition read_kml_to_gdf (kml_path : string)
  : list attempt * result (GeoDataFrame num) :=
  let (attempts, read) :=
    match gpd_read_file drv kml_path (Some "LIBKML") with
    | Ok gdf => ([Some "LIBKML"], Ok gdf)
    | Raise _ =>
        ([Some "LIBKML"; Some "KML"], gpd_read_file drv kml_path (Some "KML"))
    end in
  (attempts,
   bind read (fun gdf =>
   let gdf := select gdf (notnull gdf) in
   let gdf := select gdf (geom_type_isin gdf ["Polygon"; "MultiPolygon"]) in
   let gdf := match crs gdf with
              | None => set_crs gdf EPSG_4326
              | Some src => gdf_to_crs geo gdf src EPSG_4326
              end in
   let gdf := repair gdf in
   Ok gdf)).

End Script.

Section GeoJSON.

Context {num : Type} `{PyFloat num}.
Variable drv : Drivers num.
Variable geo : GeometryLib num.

(** [gdf.to_file(out_path, driver=...)] of GeoPandas. *)
Variable to_file : GeoDataFrame num -> string -> string -> result unit.

Definition KMZ_PATH : string := "S1A_20251014_0551.kmz".
Definition OUT_GEOJSON : string := "S1A_20251014_0551.geojson".

(** The line [Wrote GeoJSON: {out_path} ({len(gdf)} features)]. *)
Inductive wrote : Type :=
| WroteGeoJSON (out_path : string) (features : nat).

(** [export_geojson] (lines 41-44): what it printed and whether it
    returned. *)
Definition export_geojson (gdf : GeoDataFrame num) (out_path : string)
  : list wrote * result unit :=
  match to_file gdf out_path "GeoJSON" with
  | Ok _ => ([WroteGeoJSON out_path (len gdf)], Ok tt)
  | Raise e => ([], Raise e)
  end.

(** What a run of the converter did: the reader calls, the frames handed to
    [to_file] with their target paths, and the lines printed. *)
Record Conversion : Type := mkConversion {
  reader_calls : list attempt;
  exported : list (GeoDataFrame num * string);
  wrote_lines : list wrote
}.

(** [main] (lines 46-50).  [archive] is what lies at [KMZ_PATH], [td] the
    name of the temporary directory. *)
Definition main (archive : kmz_file) (td : string)
  : Conversion * result unit :=
  match extract_kml_from_kmz KMZ_PATH archive td with
  | Raise e => (mkConversion [] [] [], Raise e)
  | Ok kml_path =>
      let (attempts, read) := read_kml_to_gdf drv geo kml_path in
      match read with
      | Raise e => (mkConversion attempts [] [], Raise e)
      | Ok gdf =>
          let (lines, done) := export_geojson gdf OUT_GEOJSON in
          (mkConversion attempts [(gdf, OUT_GEOJSON)] lines, done)
      end
  end.

End GeoJSON.
End read_kmz_geopandas.

(** ** read_kml_with_pyogrio.py *)

Module read_kml_with_pyogrio.
Section Script.

Context {num : Type}.
Variable drv : Drivers num.

(** [extract_kml] (lines 11-18), over [os.walk(td)]. *)
Definition extract_kml (file : kmz_file) (td : string) : result string :=
  match extractall file with
  | Raise e => Raise e
  | Ok extracted =>
      match search_walk (os_walk td extracted) with
      | Some p => Ok p
      | None => Raise (FileNotFoundError "No .kml inside KMZ")
      end
  end.

(** The [try]/[except] of [main] (lines 26-29): the reader calls made and
    what [df] is bound to, or the exception that escapes. *)
Definition main_read_dataframe (kml : string)
  : list attempt * result (GeoDataFrame num) :=
  match pyogrio_read_dataframe drv kml (Some "LIBKML") with
  | Ok df => ([Some "LIBKML"], Ok df)
  | Raise _ =>
      ([Some "LIBKML"; Some "KML"], pyogrio_read_dataframe drv kml (Some "KML"))
  end.

End Script.
End read_kml_with_pyogrio.

(** ** plot_kmz_flood.py *)

(** What the figure is made of. *)
Section Artists.

Variable num : Type.

Inductive color : Type :=
| RGBA (r g b a : num)
| RGB (r g b : num)
| Hex (code : string).

(** [Poly3DCollection(verts, facecolor=, alpha=, linewidths=)], with the
    edge colour of [set_edgecolor] when it is called. *)
Record Poly3DCollection : Type := mkPoly3D {
  verts : list (list (num * num * num));
  facecolor : color;
  alpha : num;
  linewidths : num;
  edgecolor : option color
}.

(** The label [ax.text(x, y, z, f'{depth:.1f}m', ...)]. *)
Record Text3D : Type := mkText3D {
  text_x : num; text_y : num; text_z : num; text_depth : num
}.

(** The axes while the loop runs: the collections and labels added so far
    and the coordinates collected for the limits. *)
Record Axes : Type := mkAxes {
  ax_collections : list Poly3DCollection;
  ax_texts : list Text3D;
  ax_xs : list num;
  ax_ys : list num
}.

(** The figure before [_set_axes_equal]: collections, labels and the limits
    [(xlim, ylim, zlim)] when the script sets them. *)
Record Figure : Type := mkFigure {
  collections : list Poly3DCollection;
  texts : list Text3D;
  limits : option ((num * num) * (num * num) * (num * num))
}.

(** A line written by [print]. *)
Inductive printed : Type :=
| WarnEmptyFrame
| UsingDepthColumn (col : string)
| NoDepthColumnRandom
| DepthRange (min_depth max_depth : num).

End Artists.

Arguments Hex {num} code.
Arguments WarnEmptyFrame {num}.
Arguments UsingDepthColumn {num} col.
Arguments NoDepthColumnRandom {num}.

Module plot_kmz_flood.
Section Script.

Context {num : Type} `{PyFloat num}.
Variable drv : Drivers num.
Variable geo : GeometryLib num.
Variable rng : Type.
Variable plt : PlotLib num rng.

Local Open Scope list_scope.
Local Open Scope py_scope.

(** [extract_kml] (lines 24-30).  [file] is what lies at [kmz_path]; the
    loop runs over [os.listdir(td)]. *)
Definition extract_kml (file : kmz_file) (td : string) : result string :=
  match extractall file with
  | Raise e => Raise e
  | Ok extracted =>
      match first_kml td (os_listdir extracted) with
      | Some p => Ok p
      | None => Raise (FileNotFoundError "No .kml inside KMZ")
      end
  end.

(** [read_polygons] (lines 33-42): the reader calls made, in order, and the
    frame or the exception that escapes. *)
Definition read_polygons (kml_path : string)
  : list attempt * result (GeoDataFrame num) :=
  let (attempts, read) :=
    match gpd_read_file drv kml_path (Some "LIBKML") with
    | Ok gdf => ([Some "LIBKML"], Ok gdf)
    | Raise _ => ([Some "LIBKML"; None], gpd_read_file drv kml_path None)
    end in
  (attempts,
   bind read (fun gdf =>
   let gdf := select gdf (notnull gdf) in
   let gdf := select gdf (geom_type_isin gdf ["Polygon"; "MultiPolygon"]) in
   let gdf := match crs gdf with
              | None => set_crs gdf EPSG_4326
              | Some _ => gdf
              end in
   Ok gdf)).

(** *** NumPy and builtin reductions *)

(** One step of [np.min] / [np.max] on float64: a NaN wins. *)
Definition np_minimum (x y : num) : num :=
  if isnan x then x else if isnan y then y else if y <? x then y else x.

Definition np_maximum (x y : num) : num :=
  if isnan x then x else if isnan y then y else if x <? y then y else x.

Definition zero_size (reduction : string) : exn :=
  ValueError ("zero-size array to reduction operation " ++ reduction
              ++ " which has no identity")%string.

Definition np_min (a : list num) : result num :=
  match a with
  | [] => Raise (zero_size "minimum")
  | x :: rest => Ok (fold_left np_minimum rest x)
  end.

Definition np_max (a : list num) : result num :=
  match a with
  | [] => Raise (zero_size "maximum")
  | x :: rest => Ok (fold_left np_maximum rest x)
  end.

(** [np.min] / [np.max] on an integer array. *)
Definition int_min (a : list Z) : result Z :=
  match a with
  | [] => Raise (zero_size "minimum")
  | x :: rest => Ok (fold_left Z.min rest x)
  end.

Definition int_max (a : list Z) : result Z :=
  match a with
  | [] => Raise (zero_size "maximum")
  | x :: rest => Ok (fold_left Z.max rest x)
  end.

(** The builtins [max] and [min]: the running value is replaced by an item
    that compares greater (smaller). *)
Definition py_max2 (a b : num) : num := if b >? a then b else a.
Definition py_min2 (a b : num) : num := if b <? a then b else a.

Definition py_max (x : num) (rest : list num) : num := fold_left py_max2 rest x.
Definition py_min (x : num) (rest : list num) : num := fold_left py_min2 rest x.

(** *** Arrays of Python objects

    The elements of an object array, as far as the comparisons and the
    arithmetic of lines 113-120 tell them apart: a [str], [None], or an
    object of another class (a Shapely geometry), which has no order. *)
Inductive pyobject : Type :=
| PyStr (s : string)
| PyNone
| PyOther (class : string).

Definition type_name (o : pyobject) : string :=
  match o with
  | PyStr _ => "str"
  | PyNone => "NoneType"
  | PyOther class => class
  end.

Definition not_supported (op : string) (a b : pyobject) : exn :=
  TypeError ("'" ++ op ++ "' not supported between instances of '"
             ++ type_name a ++ "' and '" ++ type_name b ++ "'")%string.

(** [a <= b], [a >= b] and [a > b] on objects: strings compare by code
    points, anything else raises [TypeError]. *)
Definition object_le (a b : pyobject) : result bool :=
  match a, b with
  | PyStr s, PyStr t => Ok (String.leb s t)
  | _, _ => Raise (not_supported "<=" a b)
  end.

Definition object_ge (a b : pyobject) : result bool :=
  match a, b with
  | PyStr s, PyStr t => Ok (String.leb t s)
  | _, _ => Raise (not_supported ">=" a b)
  end.

Definition object_gt (a b : pyobject) : result bool :=
  match a, b with
  | PyStr s, PyStr t => Ok (String.ltb t s)
  | _, _ => Raise (not_supported ">" a b)
  end.

(** [np.min] / [np.max] on an object array: NumPy keeps the running value
    [a] when [a <= x] ([a >= x]) and takes [x] otherwise; an array of one
    element is never compared. *)
Fixpoint object_reduce (cmp : pyobject -> pyobject -> result bool)
  (a : pyobject) (rest : list pyobject) : result pyobject :=
  match rest with
  | [] => Ok a
  | x :: rest' =>
      keep_a <- cmp a x ;;
      object_reduce cmp (if keep_a then a else x) rest'
  end.

(** Lines 113-120 on a non-numeric array: they always end in an exception.
    [np.min] of an empty array raises; so does a comparison that involves
    [None] or a geometry; distinct strings reach [depths - min_depth],
    equal strings reach the format [{min_depth:.2f}]. *)
Definition object_depths (a : list pyobject) : exn :=
  match a with
  | [] => zero_size "minimum"
  | x :: rest =>
      match object_reduce object_le x rest with
      | Raise e => e
      | Ok min_depth =>
          match object_reduce object_ge x rest with
          | Raise e => e
          | Ok max_depth =>
              match object_gt max_depth min_depth with
              | Raise e => e
              | Ok true =>
                  TypeError ("unsupported operand type(s) for -: '"
                             ++ type_name x ++ "' and '"
                             ++ type_name min_depth ++ "'")%string
              | Ok false =>
                  ValueError ("Unknown format code 'f' for object of type '"
                              ++ type_name min_depth ++ "'")%string
              end
          end
      end
  end.

Definition str_or_none (o : option string) : pyobject :=
  match o with Some s => PyStr s | None => PyNone end.

Definition geometry_object (g : option (Geometry num)) : pyobject :=
  match g with Some g => PyOther (geom_type g) | None => PyNone end.

(** *** Depth values (lines 97-110) *)

Definition fallback_columns : list string :=
  ["depth"; "DEPTH"; "water_depth"; "Depth"; "flood_depth"].

(** [np.random.uniform(low, high, n)]: [n] successive draws. *)
Fixpoint random_uniform (low high : num) (n : nat) (s : rng) : list num :=
  match n with
  | O => []
  | S k => let (x, s') := next_uniform plt low high s in
           x :: random_uniform low high k s'
  end.

(** [gdf[col].values] *)
Definition values (gdf : GeoDataFrame num) (col : string) : result (array num) :=
  match column_values (columns gdf) col with
  | Some v => Ok v
  | None =>
      if String.eqb col "geometry" then Ok (Geometries (geometry gdf))
      else Raise (KeyError col)
  end.

(** The truth value of the argument [depth_column] ([None] and the empty
    string are false). *)
Definition truthy (depth_column : option string) : bool :=
  match depth_column with
  | Some c => negb (String.eqb c "")
  | None => false
  end.

(** The [for col in [...]] loop with its [else] clause. *)
Fixpoint try_columns (gdf : GeoDataFrame num) (cols : list string) (s : rng)
  : list (printed num) * result (array num) :=
  match cols with
  | [] => ([NoDepthColumnRandom],
           Ok (Float64 (random_uniform (lit 0.5) (lit 3.0) (len gdf) s)))
  | col :: rest =>
      if has_column gdf col
      then ([UsingDepthColumn col], values gdf col)
      else try_columns gdf rest s
  end.

Definition resolve_depths (gdf : GeoDataFrame num)
  (depth_column : option string) (s : rng)
  : list (printed num) * result (array num) :=
  match depth_column with
  | Some c =>
      if truthy depth_column && has_column gdf c
      then ([], values gdf c)
      else try_columns gdf fallback_columns s
  | None => try_columns gdf fallback_columns s
  end.

(** *** Normalisation (lines 112-118)

    The second component lists the operands of every division the branch
    performs, in order. *)
Definition normalize (depths : list num) (min_depth max_depth : num)
  : list num * list (num * num) :=
  if max_depth >? min_depth
  then (map (fun d => (d - min_depth) / (max_depth - min_depth)) depths,
        map (fun d => (d - min_depth, max_depth - min_depth)) depths)
  else (map (fun _ => lit 1 * lit 0.5) depths, []).

(** Integer arithmetic of [bits] bits wraps around. *)
Definition wrap (bits : Z) (z : Z) : Z :=
  ((z + 2 ^ (bits - 1)) mod 2 ^ bits - 2 ^ (bits - 1))%Z.

(** The same lines on an integer array: the subtractions are integer
    subtractions, the division converts both operands to float64. *)
Definition normalize_int (bits : Z) (depths : list Z) (min_depth max_depth : Z)
  : list num * list (num * num) :=
  if (min_depth <? max_depth)%Z
  then (map (fun d => of_int (wrap bits (d - min_depth))
                      / of_int (wrap bits (max_depth - min_depth))) depths,
        map (fun d => (of_int (wrap bits (d - min_depth)),
                       of_int (wrap bits (max_depth - min_depth)))) depths)
  else (map (fun _ => of_int 1 * lit 0.5) depths, []).

(** What lines 113-120 leave for the rest of the call. *)
Record Depths : Type := mkDepths {
  min_depth : num;
  max_depth : num;
  depths : list num;
  normalized_depths : list num
}.

(** Lines 113-120 by dtype.  From here on a depth is used in float64
    arithmetic only ([depth * 0.05], [max_depth * 0.06], the formats), so
    an integer depth is kept as the float it converts to. *)
Definition depth_statistics (a : array num) : result Depths :=
  match a with
  | Float64 v =>
      mn <- np_min v ;;
      mx <- np_max v ;;
      Ok (mkDepths mn mx v (fst (normalize v mn mx)))
  | Integer bits v =>
      mn <- int_min v ;;
      mx <- int_max v ;;
      Ok (mkDepths (of_int mn) (of_int mx) (map of_int v)
                   (fst (normalize_int bits v mn mx)))
  | Object v => Raise (object_depths (map str_or_none v))
  | Geometries v => Raise (object_depths (map geometry_object v))
  end.

(** *** Colours of a feature (lines 140-143) *)

Definition colormap_position (norm_depth : num) : num :=
  lit 0.4 + norm_depth * lit 0.6.

(** [c * 1.2 if c * 1.2 <= 1 else 1] *)
Definition brighten (c : num) : num :=
  if c * lit 1.2 <=? lit 1 then c * lit 1.2 else lit 1.

Definition water_rgba_of (water_color : num * num * num * num) : color num :=
  let '(r, g, b, _) := water_color in RGBA r g b (lit 0.7).

Definition side_rgba_of (water_color : num * num * num * num) : color num :=
  let '(r, g, b, _) := water_color in
  RGBA (r * lit 0.7) (g * lit 0.7) (b * lit 0.7) (lit 0.6).

Definition edge_color_of (water_color : num * num * num * num) : color num :=
  let '(r, g, b, _) := water_color in RGB (brighten r) (brighten g) (brighten b).

(** *** The mesh of one polygon (lines 145-195) *)

Definition base_z : num := lit 0.0.

Definition origin : coord num := mkCoord (lit 0) (lit 0) None.

(** The quad of the loop body at index [i]: [coords[i]] and [coords[i + 1]]
    at the base and at the top. *)
Definition side_quad (coords : ring num) (actual_extrude_h : num) (i : nat)
  : list (num * num * num) :=
  let c0 := nth i coords origin in
  let c1 := nth (i + 1) coords origin in
  let x0 := cx c0 in let y0 := cy c0 in
  let x1 := cx c1 in let y1 := cy c1 in
  [ (x0, y0, base_z);
    (x1, y1, base_z);
    (x1, y1, base_z + actual_extrude_h);
    (x0, y0, base_z + actual_extrude_h) ].

(** The constructor [Poly3DCollection(verts, ...)]: Matplotlib stacks the
    faces into one array of points and unpacks its three coordinate rows,
    which fails on a face without points. *)
Definition new_Poly3DCollection (verts : list (list (num * num * num)))
  (facecolor : color num) (alpha linewidths : num)
  : result (Poly3DCollection num) :=
  if existsb (fun face => match face with [] => true | _ => false end) verts
  then Raise (ValueError "not enough values to unpack (expected 3, got 0)")
  else Ok (mkPoly3D verts facecolor alpha linewidths None).

(** [collection.set_edgecolor(c)] *)
Definition set_edgecolor (c : Poly3DCollection num) (edge : color num)
  : Poly3DCollection num :=
  mkPoly3D (verts c) (facecolor c) (alpha c) (linewidths c) (Some edge).

(** The three collections added for one polygon, in the order of the calls
    to [ax.add_collection3d]. *)
Definition extrusion (poly : Polygon num) (depth : num)
  (water_rgba side_rgba edge_color : color num)
  : result (list (Poly3DCollection num)) :=
  let coords := exterior poly in
  let x := map (@cx num) coords in
  let y := map (@cy num) coords in
  let actual_extrude_h := depth * lit 0.05 in
  let top := map (fun xy => (fst xy, snd xy, base_z + actual_extrude_h))
                 (combine x y) in
  let bottom := map (fun xy => (fst xy, snd xy, base_z)) (combine x y) in
  poly_top <- new_Poly3DCollection [top] water_rgba (lit 0.7) (lit 0.8) ;;
  let poly_top := set_edgecolor poly_top edge_color in
  poly_bottom <- new_Poly3DCollection [bottom] (Hex "#1a1a1a") (lit 0.3) (lit 0) ;;
  let n := List.length coords in
  let side_quads := map (side_quad coords actual_extrude_h) (seq 0 (n - 1)) in
  poly_sides <- new_Poly3DCollection side_quads side_rgba (lit 0.6) (lit 0.3) ;;
  let poly_sides := set_edgecolor poly_sides edge_color in
  Ok [poly_top; poly_bottom; poly_sides].

(** The body of [for poly in polys]. *)
Definition plot_poly (depth : num) (water_rgba side_rgba edge_color : color num)
  (show_depth_labels : bool) (ax : Axes num) (poly : Polygon num)
  : result (Axes num) :=
  let coords := exterior poly in
  let x := map (@cx num) coords in
  let y := map (@cy num) coords in
  let actual_extrude_h := depth * lit 0.05 in
  added <- extrusion poly depth water_rgba side_rgba edge_color ;;
  let label :=
    if show_depth_labels
    then let c := centroid geo poly in
         [mkText3D (fst c) (snd c) (base_z + actual_extrude_h + lit 0.02) depth]
    else [] in
  Ok {| ax_collections := ax_collections ax ++ added;
        ax_texts := ax_texts ax ++ label;
        ax_xs := ax_xs ax ++ x;
        ax_ys := ax_ys ax ++ y |}.

(** The loop [for poly in polys]. *)
Fixpoint plot_polys (depth : num) (water_rgba side_rgba edge_color : color num)
  (show_depth_labels : bool) (polys : list (Polygon num)) (ax : Axes num)
  : result (Axes num) :=
  match polys with
  | [] => Ok ax
  | poly :: rest =>
      ax' <- plot_poly depth water_rgba side_rgba edge_color show_depth_labels
               ax poly ;;
      plot_polys depth water_rgba side_rgba edge_color show_depth_labels rest ax'
  end.

(** [[geom] if geom.geom_type == "Polygon" else list(geom.geoms)] *)
Definition polys_of (geom : option (Geometry num)) : result (list (Polygon num)) :=
  match geom with
  | None => Raise (AttributeError "'NoneType' object has no attribute 'geom_type'")
  | Some (GPolygon p) => Ok [p]
  | Some (GMultiPolygon ps) => Ok ps
  | Some (GPoint _) => Raise (AttributeError "'Point' object has no attribute 'geoms'")
  | Some (GLineString _) =>
      Raise (AttributeError "'LineString' object has no attribute 'geoms'")
  end.

(** [a[idx]] *)
Definition index (a : list num) (idx : nat) : result num :=
  match nth_error a idx with
  | Some v => Ok v
  | None => Raise IndexError
  end.

(** The loop [for idx, geom in enumerate(gdf.geometry)], from index [idx]. *)
Fixpoint plot_features (idx : nat) (geoms : list (option (Geometry num)))
  (depths normalized_depths : list num) (show_depth_labels : bool)
  (ax : Axes num) : result (Axes num) :=
  match geoms with
  | [] => Ok ax
  | geom :: rest =>
      polys <- polys_of geom ;;
      depth <- index depths idx ;;
      norm_depth <- index normalized_depths idx ;;
      let water_color := Blues plt (colormap_position norm_depth) in
      let water_rgba := water_rgba_of water_color in
      let side_rgba := side_rgba_of water_color in
      let edge_color := edge_color_of water_color in
      ax' <- plot_polys depth water_rgba side_rgba edge_color
               show_depth_labels polys ax ;;
      plot_features (S idx) rest depths normalized_depths show_depth_labels ax'
  end.

(** *** Axis limits (lines 215-219) *)

(** [ax.set_xlim(low, high)] and its siblings refuse a limit that is NaN or
    infinite. *)
Definition set_lim (low high : num) : result (num * num) :=
  if isfinite low && isfinite high then Ok (low, high)
  else Raise (ValueError "Axis limits cannot be NaN or Inf").

Definition axis_limits (xs ys : list num) (max_depth : num)
  : result (option ((num * num) * (num * num) * (num * num))) :=
  match xs, ys with
  | x0 :: xr, y0 :: yr =>
      let margin :=
        if (1 <? List.length xs)%nat && (1 <? List.length ys)%nat
        then lit 0.01 * py_max2 (py_max x0 xr - py_min x0 xr)
                                (py_max y0 yr - py_min y0 yr)
        else lit 0.001 in
      xlim <- set_lim (py_min x0 xr - margin) (py_max x0 xr + margin) ;;
      ylim <- set_lim (py_min y0 yr - margin) (py_max y0 yr + margin) ;;
      zlim <- set_lim (lit (-0.02)) (max_depth * lit 0.06) ;;
      Ok (Some (xlim, ylim, zlim))
  | _, _ => Ok None
  end.

(** *** The renderer, up to the call of [_set_axes_equal] (lines 81-219)

    [gdf] may be [None].  The result is what was printed and the figure, or
    the exception that ends the call. *)
Definition plot_extruded_3d (gdf : option (GeoDataFrame num))
  (show_depth_labels : bool) (depth_column : option string) (s : rng)
  : list (printed num) * result (Figure num) :=
  let warning :=
    match gdf with
    | None => [WarnEmptyFrame]
    | Some g => if (len g =? 0)%nat then [WarnEmptyFrame] else []
    end in
  match gdf with
  | None =>
      (warning, Raise (AttributeError "'NoneType' object has no attribute 'columns'"))
  | Some gdf =>
      let (msgs, resolved) := resolve_depths gdf depth_column s in
      match resolved with
      | Raise e => (warning ++ msgs, Raise e)
      | Ok a =>
          match depth_statistics a with
          | Raise e => (warning ++ msgs, Raise e)
          | Ok d =>
              (warning ++ msgs ++ [DepthRange (min_depth d) (max_depth d)],
               ax <- plot_features 0 (geometry gdf) (depths d)
                       (normalized_depths d) show_depth_labels
                       (mkAxes [] [] [] []) ;;
               lims <- axis_limits (ax_xs ax) (ax_ys ax) (max_depth d) ;;
               Ok (mkFigure (ax_collections ax) (ax_texts ax) lims))
          end
      end
  end.

End Script.

(** *** The rest of the script: [_set_axes_equal], saving and display,
    [main] *)

Section Finish.

Context {num : Type} `{PyFloat num} `{PyAbs num}.
Variable drv : Drivers num.
Variable geo : GeometryLib num.
Variable rng : Type.
Variable plt : PlotLib num rng.
Variable P : Type.
Variable pathlib : PathLib P.

Local Open Scope list_scope.
Local Open Scope py_scope.

(** [np.mean(limits)] of a pair. *)
Definition np_mean2 (limits : num * num) : num :=
  (fst limits + snd limits) / lit 2.

(** [_set_axes_equal] (lines 45-65), from the limits the three getters
    return to the limits the three setters accept. *)
Definition _set_axes_equal
  (limits : (num * num) * (num * num) * (num * num))
  : result ((num * num) * (num * num) * (num * num)) :=
  let '(x_limits, y_limits, z_limits) := limits in
  let x_range := fabs (snd x_limits - fst x_limits) in
  let x_middle := np_mean2 x_limits in
  let y_range := fabs (snd y_limits - fst y_limits) in
  let y_middle := np_mean2 y_limits in
  let z_range := fabs (snd z_limits - fst z_limits) in
  let z_middle := np_mean2 z_limits in
  let plot_radius := lit 0.5 * py_max x_range [y_range; z_range] in
  xlim <- set_lim (x_middle - plot_radius) (x_middle + plot_radius) ;;
  ylim <- set_lim (y_middle - plot_radius) (y_middle + plot_radius) ;;
  zlim <- set_lim (z_middle - plot_radius) (z_middle + plot_radius) ;;
  Ok (xlim, ylim, zlim).

(** The lines printed while saving and displaying. *)
Inductive output_line : Type :=
| CreatingAnimation
| SavingGIF (outpath : P)
| SavingMP4 (outpath : P)
| AnimationSaved
| DisplayingAnimated
| SavingFigure (outpath : P)
| SavedFigure (outpath : P)
| DisplayingInteractive
| SkippingDisplay.

(** What the last part of the renderer does, in order. *)
Inductive event : Type :=
| Print (line : output_line)
| Mkdir (dir : P)
| AnimationSave (outpath : P) (writer : string) (fps dpi : nat)
| Savefig (outpath : P) (dpi : nat)
| PltShow
| PltClose.

(** Lines 225-273: the events, and [Ok] unless [with_suffix] raises. *)
Definition save_and_show (outpath : option string) (show animate : bool)
  : list event * result unit :=
  let display_animated :=
    if show then [Print DisplayingAnimated; PltShow]
    else [Print SkippingDisplay; PltClose] in
  let display_static :=
    if show then [Print DisplayingInteractive; PltShow]
    else [Print SkippingDisplay; PltClose] in
  if animate then
    match outpath with
    | Some o =>
        if truthy outpath then
          let outpath := Path pathlib o in
          let ext := lower (path_suffix pathlib outpath) in
          if String.eqb ext ".gif" then
            ([Print CreatingAnimation; Mkdir (path_parent pathlib outpath);
              Print (SavingGIF (absolute pathlib outpath));
              AnimationSave outpath "pillow" 20 100; Print AnimationSaved]
             ++ display_animated, Ok tt)
          else
            match (if negb (String.eqb ext ".mp4")
                   then with_suffix pathlib outpath ".mp4"
                   else Ok outpath) with
            | Raise e =>
                ([Print CreatingAnimation; Mkdir (path_parent pathlib outpath)],
                 Raise e)
            | Ok outpath' =>
                ([Print CreatingAnimation; Mkdir (path_parent pathlib outpath);
                  Print (SavingMP4 (absolute pathlib outpath'));
                  AnimationSave outpath' "ffmpeg" 20 100; Print AnimationSaved]
                 ++ display_animated, Ok tt)
            end
        else (Print CreatingAnimation :: display_animated, Ok tt)
    | None => (Print CreatingAnimation :: display_animated, Ok tt)
    end
  else
    match outpath with
    | Some o =>
        if truthy outpath then
          let outpath := Path pathlib o in
          ([Mkdir (path_parent pathlib outpath);
            Print (SavingFigure (absolute pathlib outpath));
            Savefig outpath 200;
            Print (SavedFigure (absolute pathlib outpath))]
           ++ display_static, Ok tt)
        else (display_static, Ok tt)
    | None => (display_static, Ok tt)
    end.

(** What a call of the renderer did: the lines printed while the figure was
    built, the events of saving and display, and - when the call got as far
    as saving - the figure with the limits [_set_axes_equal] gave it (left
    open when the script set no limits and the axes kept Matplotlib's own).
    The three getters are taken to return the limits the setters of lines
    217-219 received; Matplotlib itself widens an interval whose two ends
    are equal. *)
Record Rendering : Type := mkRendering {
  rendered_lines : list (printed num);
  rendered_events : list event;
  rendered_figure :
    option (Figure num * option ((num * num) * (num * num) * (num * num)))
}.

(** The whole of [plot_extruded_3d] (lines 68-273), with the arguments in
    the order of the source. *)
Definition plot_extruded_3d_whole (gdf : option (GeoDataFrame num))
  (outpath : option string) (show animate show_depth_labels : bool)
  (depth_column : option string) (s : rng)
  : Rendering * result unit :=
  let (lines, built) :=
    plot_extruded_3d geo plt gdf show_depth_labels depth_column s in
  match built with
  | Raise e => (mkRendering lines [] None, Raise e)
  | Ok fig =>
      match match limits fig with
            | Some set => equal <- _set_axes_equal set ;; Ok (Some equal)
            | None => Ok None
            end with
      | Raise e => (mkRendering lines [] None, Raise e)
      | Ok equal =>
          let (events, done) := save_and_show outpath show animate in
          (mkRendering lines events (Some (fig, equal)), done)
      end
  end.

(** The arguments [argparse] hands to [main]. *)
Record Args : Type := mkArgs {
  kmz : string;
  output : option string;
  no_show : bool;
  animate : bool
}.

Inductive main_line : Type :=
| ArgumentsParsed (args : Args)
| LoadedPolygons (n : nat).

(** What a run of the script did. *)
Record Run : Type := mkRun {
  main_lines : list main_line;
  reader_calls : list attempt;
  rendering : option Rendering
}.

(** [main] (lines 276-298).  [file] is what lies at [args.kmz], [td] the
    name of the temporary directory. *)
Definition main (args : Args) (file : kmz_file) (td : string) (s : rng)
  : Run * result unit :=
  if negb (path_exists file)
  then (mkRun [ArgumentsParsed args] [] None,
        Raise (FileNotFoundError ("KMZ not found: " ++ kmz args)%string))
  else
    match extract_kml file td with
    | Raise e => (mkRun [ArgumentsParsed args] [] None, Raise e)
    | Ok kml =>
        let (attempts, read) := read_polygons drv kml in
        match read with
        | Raise e => (mkRun [ArgumentsParsed args] attempts None, Raise e)
        | Ok gdf =>
            let (r, done) :=
              plot_extruded_3d_whole (Some gdf) (output args)
                (negb (no_show args)) (animate args) false None s in
            (mkRun [ArgumentsParsed args; LoadedPolygons (len gdf)]
                   attempts (Some r), done)
        end
    end.

End Finish.
End plot_kmz_flood.
(** * Vocabulary of the statements

    Notions the properties below are stated with.  None of them is part of
    the scripts. *)

Import plot_kmz_flood.
Open Scope list_scope.

(** ** A sign of invalidity that can be computed

    Two edges of a ring cross properly when the end points of each lie
    strictly on opposite sides of the other.  A polygon whose exterior ring
    has two such edges is self-intersecting, hence invalid.  Coordinates are
    exact rationals here. *)

Definition cross_product (o a b : coord Q) : Q :=
  (cx a - cx o) * (cy b - cy o) - (cy a - cy o) * (cx b - cx o).

Definition opposite_sides (p q a b : coord Q) : bool :=
  (Qltb 0 (cross_product p q a) && Qltb (cross_product p q b) 0)
  || (Qltb (cross_product p q a) 0 && Qltb 0 (cross_product p q b)).

Definition edges_cross (e f : coord Q * coord Q) : bool :=
  opposite_sides (fst e) (snd e) (fst f) (snd f)
  && opposite_sides (fst f) (snd f) (fst e) (snd e).

Fixpoint any_crossing (es : list (coord Q * coord Q)) : bool :=
  match es with
  | [] => false
  | e :: rest => existsb (edges_cross e) rest || any_crossing rest
  end.

Definition self_intersecting (p : Polygon Q) : bool :=
  any_crossing (combine (exterior p) (tl (exterior p))).

(** The files of a walk, each with the directory it is listed in, in the
    order in which the two nested loops visit them. *)
Definition walk_files (w : list (string * list string * list string))
  : list (string * string) :=
  flat_map (fun t => map (fun f => (fst (fst t), f)) (snd t)) w.

(** Every file below an entry, at any depth. *)
Fixpoint all_files (e : entry) : list string :=
  match e with
  | File n => [n]
  | Dir _ children => flat_map all_files children
  end.

(** An entry with its content removed. *)
Definition emptied (e : entry) : entry :=
  match e with
  | File n => File n
  | Dir n _ => Dir n []
  end.

Section Vocabulary.

Context {num : Type} {F : PyFloat num}.
Variable drv : Drivers num.
Variable geo : GeometryLib num.
Variable rng : Type.
Variable plt : PlotLib num rng.

Local Open Scope py_scope.

(** The names under which a frame holds a column, and the array a name
    stands for: an attribute column, or the geometry column. *)
Definition names_of (gdf : GeoDataFrame num) : list string :=
  "geometry" :: map fst (columns gdf).

Definition named (gdf : GeoDataFrame num) (c : string) : bool :=
  existsb (String.eqb c) (names_of gdf).

Definition column (gdf : GeoDataFrame num) (c : string) : option (array num) :=
  match find (fun p => String.eqb c (fst p)) (columns gdf) with
  | Some p => Some (snd p)
  | None => if String.eqb c "geometry" then Some (Geometries (geometry gdf))
            else None
  end.

(** The caller named no usable column: no name, the empty string, or a name
    that is not a column. *)
Definition no_caller_column (gdf : GeoDataFrame num)
  (depth_column : option string) : Prop :=
  forall c, depth_column = Some c -> c = "" \/ named gdf c = false.

(** A frame without rows: the columns of [schema], with their names and
    dtypes, all empty. *)
Definition empty_like (a : array num) : array num :=
  match a with
  | Float64 _ => Float64 []
  | Integer bits _ => Integer bits []
  | Object _ => Object []
  | Geometries _ => Geometries []
  end.

Definition empty_frame (schema : list (string * array num)) (crs0 : option Z)
  : GeoDataFrame num :=
  mkGDF (map (fun c => (fst c, empty_like (snd c))) schema) [] crs0.

(** What one loader does with its two readers: [primary] is the outcome of
    the LIBKML call, [secondary] that of the fallback call with driver
    [fallback], [run] the loader's reader calls and result. *)
Definition falls_back (A : Type) (primary secondary : result (GeoDataFrame num))
  (fallback : attempt) (run : list attempt * result A) : Prop :=
  match primary with
  | Ok _ => fst run = [Some "LIBKML"] /\ is_ok (snd run) = true
  | Raise _ =>
      fst run = [Some "LIBKML"; fallback]
      /\ is_ok (snd run) = is_ok secondary
      /\ forall e, secondary = Raise e -> snd run = Raise e
  end.

(** A record the type filter keeps: a non-null Polygon or MultiPolygon. *)
Definition polygonal (g : option (Geometry num)) : bool :=
  match g with
  | Some (GPolygon _) | Some (GMultiPolygon _) => true
  | _ => false
  end.

Definition not_null (g : option (Geometry num)) : bool :=
  match g with Some _ => true | None => false end.

(** A record the validity filter keeps. *)
Definition valid_record (g : option (Geometry num)) : bool :=
  match g with Some g => is_valid geo g | None => false end.

(** The frame the [try]/[except] of a loader binds to [gdf]. *)
Definition converter_parse (path : string) : result (GeoDataFrame num) :=
  match gpd_read_file drv path (Some "LIBKML") with
  | Ok g => Ok g
  | Raise _ => gpd_read_file drv path (Some "KML")
  end.

Definition plot_parse (path : string) : result (GeoDataFrame num) :=
  match gpd_read_file drv path (Some "LIBKML") with
  | Ok g => Ok g
  | Raise _ => gpd_read_file drv path None
  end.

(** The geometry the converter ends with for the input geometry [g] of a
    frame whose CRS is [src]. *)
Definition repaired (src : option Z) (g : Geometry num) : Geometry num :=
  buffer geo (match src with
              | None => g
              | Some c => to_crs geo c EPSG_4326 g
              end) (lit 0).

(** The mesh of one ring in the words of the specification: the ring lifted
    to the extrusion height, the ring at the base elevation, and one wall
    for each pair of consecutive vertices. *)
Definition lift (z : num) (c : coord num) : num * num * num := (cx c, cy c, z).

Definition wall (height : num) (c0 c1 : coord num) : list (num * num * num) :=
  [lift base_z c0; lift base_z c1; lift height c1; lift height c0].

Definition ring_mesh (coords : ring num) (depth : num)
  : list (list (list (num * num * num))) :=
  let height := base_z + depth * lit 0.05 in
  [ [map (lift height) coords];
    [map (lift base_z) coords];
    map (fun e => wall height (fst e) (snd e)) (combine coords (tl coords)) ].

(** The number of faces of a figure, over all its collections. *)
Definition mesh_count (fig : Figure num) : nat :=
  list_sum (map (fun c => List.length (verts c)) (collections fig)).


(** An array the arithmetic of the renderer can work with. *)
Definition numeric (a : array num) : bool :=
  match a with
  | Float64 _ | Integer _ _ => true
  | Object _ | Geometries _ => false
  end.

(** Every column has one value per record. *)
Definition well_formed (gdf : GeoDataFrame num) : Prop :=
  Forall (fun c => size (snd c) = len gdf) (columns gdf).

(** The polygons of a feature, and the polygons of a frame in the order in
    which the two loops reach them, each with the depth of its feature. *)
Definition parts (g : option (Geometry num)) : list (Polygon num) :=
  match g with
  | Some (GPolygon p) => [p]
  | Some (GMultiPolygon ps) => ps
  | _ => []
  end.

Definition features (geoms : list (option (Geometry num))) (ds : list num)
  : list (Polygon num * num) :=
  flat_map (fun gd => map (fun p => (p, snd gd)) (parts (fst gd)))
           (combine geoms ds).

(** The rings the renderer draws for a frame. *)
Definition rings (gdf : GeoDataFrame num) : list (ring num) :=
  map (@exterior num) (flat_map parts (geometry gdf)).

(** The coordinates the loop collects for the limits. *)
Definition collected_xs (gdf : GeoDataFrame num) : list num :=
  flat_map (map (@cx num)) (rings gdf).

Definition collected_ys (gdf : GeoDataFrame num) : list num :=
  flat_map (map (@cy num)) (rings gdf).

(** The label of a polygon drawn with the depth of its feature: at the
    centroid, 0.02 above the top face. *)
Definition depth_label (pd : Polygon num * num) : Text3D num :=
  let c := centroid geo (fst pd) in
  mkText3D (fst c) (snd c) (base_z + snd pd * lit 0.05 + lit 0.02) (snd pd).

(** A polygon, a geometry and a frame with every interior ring removed. *)
Definition fill_polygon (p : Polygon num) : Polygon num :=
  mkPolygon (exterior p) [].

Definition fill_geometry (g : option (Geometry num)) : option (Geometry num) :=
  match g with
  | Some (GPolygon p) => Some (GPolygon (fill_polygon p))
  | Some (GMultiPolygon ps) => Some (GMultiPolygon (map fill_polygon ps))
  | other => other
  end.

Definition without_holes (gdf : GeoDataFrame num) : GeoDataFrame num :=
  mkGDF (columns gdf) (map fill_geometry (geometry gdf)) (crs gdf).

(** What C10 is about: the faces and the axis limits of a figure. *)
Definition mesh_and_limits (r : result (Figure num))
  : result (list (Poly3DCollection num)
            * option ((num * num) * (num * num) * (num * num))) :=
  match r with
  | Ok fig => Ok (collections fig, limits fig)
  | Raise e => Raise e
  end.

(** Two states of the axes that differ at most in the labels. *)
Definition same_drawing (ax ax' : Axes num) : Prop :=
  ax_collections ax = ax_collections ax'
  /\ ax_xs ax = ax_xs ax' /\ ax_ys ax = ax_ys ax'.

End Vocabulary.

Arguments empty_frame num schema%_list_scope crs0 : clear implicits.

(** ** Concrete inputs *)

(** A reader that returns the same frame for every path and driver. *)
Definition constant_drivers (num : Type) (gdf : GeoDataFrame num) : Drivers num :=
  mkDrivers (fun _ _ => Ok gdf) (fun _ _ => Ok gdf).

(** Concrete geometries over exact coordinates: a bow-tie, whose first and
    third edges cross at (1/2, 1/2), and the unit square. *)
Definition pt (x y : Q) : coord Q := mkCoord x y None.

Definition bowtie : Polygon Q :=
  mkPolygon [pt 0 0; pt 1 1; pt 1 0; pt 0 1; pt 0 0] [].

Definition unit_square : Polygon Q :=
  mkPolygon [pt 0 0; pt 1 0; pt 1 1; pt 0 1; pt 0 0] [].

Definition frame_with_bowtie : GeoDataFrame Q :=
  mkGDF [] [Some (GPolygon bowtie); None; Some (GPolygon unit_square);
            Some (GPoint (pt 2 2))] None.

(** A stand-in for the geometry library in concrete runs: validity is the
    absence of crossing edges, and neither [buffer] nor [to_crs] moves a
    vertex. *)
Definition crossing_free (g : Geometry Q) : bool :=
  match g with
  | GPolygon p => negb (self_intersecting p)
  | GMultiPolygon ps => forallb (fun p => negb (self_intersecting p)) ps
  | _ => true
  end.

Definition plain_geometry_lib : GeometryLib Q :=
  mkGeometryLib (fun _ _ g => g) (fun g _ => g) crossing_free
                (fun _ => (0, 0)%Q).

(** A stand-in for Matplotlib and NumPy in concrete runs: a grey ramp for
    the colour table, and a sampler whose draws step through the interval. *)
Definition toy_plot_lib : PlotLib Q nat :=
  mkPlotLib (fun x => (x, x, x, 1%Q))
            (fun low high s =>
               ((low + (high - low) * (inject_Z (Z.of_nat s) / 4))%Q, S s)).

Definition three_squares : GeoDataFrame Q :=
  mkGDF [] [Some (GPolygon unit_square); Some (GPolygon unit_square);
            Some (GPolygon unit_square)] (Some EPSG_4326).

(** Three depths in binary64: 0.5, the next float above it
    (0.5000000000000001) and 3.0. *)
Definition close_depths : list float :=
  [0.5%float; PrimFloat.next_up 0.5%float; 3%float].

(** Two features with a depth column: the unit square, and a MultiPolygon
    of the unit square and the bow-tie. *)
Definition two_features_with_depth : GeoDataFrame Q :=
  mkGDF [("name", Object [Some "north"; None]);
         ("DEPTH", Float64 [1.5; 0.25]%Q)]
        [Some (GPolygon unit_square);
         Some (GMultiPolygon [unit_square; bowtie])]
        (Some EPSG_4326).

(** The same two features as a KML file usually gives them: the depth is a
    text attribute. *)
Definition two_features_with_text_depth : GeoDataFrame Q :=
  mkGDF [("depth", Object [Some "1.5"; Some "0.25"])]
        [Some (GPolygon unit_square);
         Some (GMultiPolygon [unit_square; bowtie])]
        (Some EPSG_4326).

(** A polygon without coordinates ([POLYGON EMPTY]). *)
Definition empty_polygon : Polygon Q := mkPolygon [] [].

(** A frame in a projected CRS, and a stand-in for pyproj that halves every
    coordinate on the way to another CRS. *)
Definition halve (c : coord Q) : coord Q :=
  mkCoord (cx c / 2)%Q (cy c / 2)%Q (cz c).

Definition halve_polygon (p : Polygon Q) : Polygon Q :=
  mkPolygon (map halve (exterior p)) (map (map halve) (interiors p)).

Definition halve_geometry (g : Geometry Q) : Geometry Q :=
  match g with
  | GPoint c => GPoint (halve c)
  | GLineString cs => GLineString (map halve cs)
  | GPolygon p => GPolygon (halve_polygon p)
  | GMultiPolygon ps => GMultiPolygon (map halve_polygon ps)
  end.

Definition halving_geometry_lib : GeometryLib Q :=
  mkGeometryLib (fun src dst g => if (src =? dst)%Z then g else halve_geometry g)
                (fun g _ => g) crossing_free (fun _ => (0, 0)%Q).

Definition projected_frame : GeoDataFrame Q :=
  mkGDF [] [Some (GPolygon bowtie); None; Some (GPolygon unit_square);
            Some (GPoint (pt 2 2))] (Some 3857%Z).

(** A stand-in for [pathlib] in concrete runs: a path is kept as the text
    before the last dot of its last component and the suffix from that dot
    on; [with_suffix] refuses a path without a name. *)
Fixpoint split_last (c : ascii) (s : string) : option (string * string) :=
  match s with
  | EmptyString => None
  | String a r =>
      match split_last c r with
      | Some (before, from) => Some (String a before, from)
      | None => if Ascii.eqb a c then Some (EmptyString, s) else None
      end
  end.

Definition parent_of (s : string) : string :=
  match split_last "/" s with
  | Some (before, _) => before
  | None => "."
  end.

Definition name_of (s : string) : string :=
  match split_last "/" s with
  | Some (_, String _ name) => name
  | _ => s
  end.

Definition stem_and_suffix (s : string) : string * string :=
  match name_of s with
  | String a r =>
      match split_last "." r with
      | Some (_, suffix) =>
          (substring 0 (String.length s - String.length suffix) s, suffix)
      | None => (s, "")
      end
  | EmptyString => (s, "")
  end.

Definition toy_pathlib : PathLib (string * string) :=
  mkPathLib stem_and_suffix snd
    (fun p suffix =>
       if String.eqb (name_of (fst p ++ snd p)%string) ""
          || String.eqb (name_of (fst p ++ snd p)%string) "."
       then Raise (ValueError "path has an empty name")
       else Ok (fst p, suffix))
    (fun p => (parent_of (fst p ++ snd p)%string, ""))
    (fun p => p).

(** ** Events of saving and display *)

(** The events that write a file, and those that end the figure's life on
    screen. *)
Definition is_write (P : Type) (e : event P) : bool :=
  match e with
  | AnimationSave _ _ _ _ | Savefig _ _ => true
  | _ => false
  end.

Definition is_display (P : Type) (e : event P) : bool :=
  match e with
  | PltShow _ | PltClose _ => true
  | _ => false
  end.

(** ** Binary64 rounding

    What the proofs about binary64 use: the rational value of a float, the
    position of a real number between two consecutive integers as the
    shifts of [SpecFloat] track it, rounding to the nearest integer with
    ties to even, and the rounding of a non-negative real to the format. *)

Section Binary64Rounding.

Local Open Scope Q_scope.


Definition bpow (e : Z) : Q := Qpower 2 e.

Definition F2Q (m e : Z) : Q := inject_Z m * bpow e.

Definition SF2Q (f : spec_float) : Q :=
  match f with
  | S754_finite s m e => F2Q (cond_Zopp s (Zpos m)) e
  | _ => 0
  end.

Definition located (x : Q) (mrs : shr_record) : Prop :=
  (0 <= shr_m mrs)%Z
  /\ match shr_r mrs, shr_s mrs with
     | false, false => x == inject_Z (shr_m mrs)
     | false, true => inject_Z (shr_m mrs) < x /\ x < inject_Z (shr_m mrs) + (1 # 2)
     | true, false => x == inject_Z (shr_m mrs) + (1 # 2)
     | true, true => inject_Z (shr_m mrs) + (1 # 2) < x /\ x < inject_Z (shr_m mrs) + 1
     end.

Definition is_rne (x : Q) (z : Z) : Prop :=
  inject_Z z - (1 # 2) <= x /\ x <= inject_Z z + (1 # 2)
  /\ (x == inject_Z z - (1 # 2) -> Z.even z = true)
  /\ (x == inject_Z z + (1 # 2) -> Z.even z = true).

Definition mag_is (x : Q) (k : Z) : Prop := bpow (k - 1) <= x /\ x < bpow k.

Definition fexp64 (e : Z) : Z := SpecFloat.fexp prec emax e.

Definition pack (m e : Z) : spec_float :=
  match m with
  | Z0 => S754_zero false
  | Zpos p =>
      if (m =? 2 ^ 53)%Z
      then if (e + 1 <=? 971)%Z
           then S754_finite false (2 ^ 52)%positive (e + 1)
           else S754_infinity false
      else if (e <=? 971)%Z then S754_finite false p e else S754_infinity false
  | Zneg _ => S754_nan
  end.

Definition rounds (x : Q) (r : spec_float) : Prop :=
  (x == 0 /\ exists s, r = S754_zero s)
  \/ (0 < x
      /\ exists k m,
           mag_is x k /\ is_rne (x * bpow (- fexp64 k)) m
           /\ r = pack m (fexp64 k)).

(** The floats that stand for a real number. *)
Definition finite_SF (f : spec_float) : bool :=
  match f with
  | S754_zero _ | S754_finite _ _ _ => true
  | _ => false
  end.

Definition nonneg_SF (f : spec_float) : Prop :=
  match f with
  | S754_zero _ | S754_finite false _ _ | S754_infinity false => True
  | _ => False
  end.

Definition positive_SF (f : spec_float) : Prop :=
  match f with
  | S754_finite false _ _ | S754_infinity false => True
  | _ => False
  end.

Definition valid64 (f : spec_float) : Prop := valid_binary f = true.

(** The order of the floats that are no NaN, with the infinities beyond
    every number of the format. *)
Definition SFkey (f : spec_float) : Q :=
  match f with
  | S754_infinity false => bpow 1024
  | S754_infinity true => - bpow 1024
  | _ => SF2Q f
  end.

(** The rational number a binary64 float stands for (0 for the infinities
    and NaN). *)
Definition val (x : float) : Q := SF2Q (Prim2SF x).

End Binary64Rounding.
(** * Properties *)

(** ** The model on small inputs *)

Example kml_names :
  map is_kml_name ["doc.kml"; "Doc.KML"; ".kml"; "doc.kmz"; "kml"; "doc.kml.bak"]
    = [true; true; true; false; false; false].
Proof. reflexivity. Qed.

Example joined_paths :
  (path_join "/tmp/td" "doc.kml", path_join "/tmp/td/" "doc.kml",
   path_join "" "doc.kml", path_join "/tmp/td" "/abs.kml")
    = ("/tmp/td/doc.kml", "/tmp/td/doc.kml", "doc.kml", "/abs.kml").
Proof. reflexivity. Qed.

(** Files of the root come before those of its folders, as in [os.walk]. *)
Example walk_order :
  os_walk "/t" [Dir "a" [File "x.kml"; Dir "b" [File "y.kml"]]; File "z.KML"]
    = [("/t", ["a"], ["z.KML"]);
       ("/t/a", ["b"], ["x.kml"]);
       ("/t/a/b", [], ["y.kml"])].
Proof. reflexivity. Qed.

Example walk_search_prefers_the_root :
  read_kmz_geopandas.extract_kml_from_kmz "flood.kmz"
    (Archive [Dir "a" [File "x.kml"]; File "z.KML"]) "/t" = Ok "/t/z.KML".
Proof. reflexivity. Qed.

Example missing_archive :
  read_kmz_geopandas.extract_kml_from_kmz "flood.kmz" NoFile "/t"
    = Raise (FileNotFoundError "Not found: flood.kmz").
Proof. reflexivity. Qed.

Example not_a_zip_file :
  (read_kmz_geopandas.extract_kml_from_kmz "flood.kmz" NotAZipFile "/t",
   read_kml_with_pyogrio.extract_kml NotAZipFile "/t",
   extract_kml NotAZipFile "/t")
    = (Raise (BadZipFile "File is not a zip file"),
       Raise (BadZipFile "File is not a zip file"),
       Raise (BadZipFile "File is not a zip file")).
Proof. reflexivity. Qed.

(** The literals of the scripts in binary64 are the floats CPython reads. *)
Example binary64_literals :
  (lit 0.05, lit 0.4, lit 0.6, lit 1.2, lit (-0.02), lit 3.0)
    = (0x1.999999999999ap-5, 0x1.999999999999ap-2, 0x1.3333333333333p-1,
       0x1.3333333333333p+0, -0x1.47ae147ae147bp-6, 3)%float.
Proof. vm_compute. reflexivity. Qed.

Example depth_column_named_by_caller :
  resolve_depths toy_plot_lib
    (mkGDF [("depth", Float64 [1; 2]); ("level", Float64 [7; 8])]
           [Some (GPolygon unit_square); Some (GPolygon unit_square)] None)
    (Some "level") 0%nat
  = ([], Ok (Float64 [7; 8]))%Q.
Proof. reflexivity. Qed.

Example depth_column_from_fallback_list :
  resolve_depths toy_plot_lib
    (mkGDF [("flood_depth", Float64 [5; 6]); ("DEPTH", Integer 64 [1; 2]%Z)]
           [Some (GPolygon unit_square); Some (GPolygon unit_square)] None)
    (Some "") 0%nat
  = ([UsingDepthColumn "DEPTH"], Ok (Integer 64 [1; 2]%Z))%Q.
Proof. reflexivity. Qed.

Example depth_synthesised :
  fst (resolve_depths toy_plot_lib three_squares None 0%nat)
    = [NoDepthColumnRandom]
  /\ exists depths,
       snd (resolve_depths toy_plot_lib three_squares None 0%nat)
         = Ok (Float64 depths)
       /\ Forall2 Qeq depths [0.5; 1.125; 1.75]%Q.
Proof.
  split; [reflexivity | ]. eexists. split; [reflexivity | ].
  repeat constructor; reflexivity.
Qed.

(** A text column named like a depth column is picked, and the arithmetic on
    its strings ends the call. *)
Example text_depth_column_is_picked :
  resolve_depths toy_plot_lib two_features_with_text_depth None 0%nat
    = ([UsingDepthColumn "depth"], Ok (Object [Some "1.5"; Some "0.25"]))
  /\ snd (plot_extruded_3d plain_geometry_lib toy_plot_lib
            (Some two_features_with_text_depth) false None 0%nat)
     = Raise (TypeError "unsupported operand type(s) for -: 'str' and 'str'").
Proof. split; reflexivity. Qed.

(** The four walls of a square given by five coordinates. *)
Example walls_of_the_unit_square :
  match extrusion unit_square 2%Q (Hex "w") (Hex "s") (Hex "e") with
  | Ok added => map (fun c => List.length (verts c)) added
  | Raise _ => []
  end = [1; 1; 4]%nat.
Proof. reflexivity. Qed.

Example renderer_on_none :
  plot_extruded_3d plain_geometry_lib toy_plot_lib None false None 0%nat
    = ([WarnEmptyFrame],
       Raise (AttributeError "'NoneType' object has no attribute 'columns'")).
Proof. reflexivity. Qed.

Example renderer_on_a_point :
  exists log e,
    plot_extruded_3d plain_geometry_lib toy_plot_lib
      (Some (mkGDF [] [Some (GPoint (pt 0 0))] None)) false None 0%nat
      = (log, Raise (AttributeError e)).
Proof. eexists _, _. reflexivity. Qed.

(** A polygon without coordinates ends the call in the constructor of its
    top face. *)
Example renderer_on_an_empty_polygon :
  snd (plot_extruded_3d plain_geometry_lib toy_plot_lib
         (Some (mkGDF [] [Some (GPolygon empty_polygon)] None)) false None 0%nat)
    = Raise (ValueError "not enough values to unpack (expected 3, got 0)").
Proof. reflexivity. Qed.

(** In binary64 a NaN among the depths ends the call at [ax.set_zlim]. *)
Example renderer_on_a_nan_depth :
  snd (plot_extruded_3d
         (mkGeometryLib (fun _ _ g => g) (fun g _ => g) (fun _ => true)
                        (fun _ => (0, 0)%float))
         (mkPlotLib (fun x => (x, x, x, 1%float))
                    (fun low high (s : nat) => (low, S s)))
         (Some (mkGDF [("depth", Float64 [1; PrimFloat.nan; 3]%float)]
                  (map (fun p => Some (GPolygon p))
                       [mkPolygon [mkCoord 0 0 None; mkCoord 1 0 None;
                                   mkCoord 1 1 None; mkCoord 0 0 None]%float [];
                        mkPolygon [mkCoord 0 0 None; mkCoord 1 0 None;
                                   mkCoord 1 1 None; mkCoord 0 0 None]%float [];
                        mkPolygon [mkCoord 0 0 None; mkCoord 1 0 None;
                                   mkCoord 1 1 None; mkCoord 0 0 None]%float []])
                  None))
         false None 0%nat)
    = Raise (ValueError "Axis limits cannot be NaN or Inf").
Proof. vm_compute. reflexivity. Qed.

(** ** The two arithmetics are lawful *)

#[export] Instance ExactFloat_lawful : LawfulFloat Q.
Proof.
  split.
  - intros x y Heq. cbn in *. unfold Qltb.
    apply Qeq_bool_iff in Heq.
    assert (Hle : Qle_bool y x = true).
    { apply Qle_bool_iff. rewrite Heq. apply Qle_refl. }
    now rewrite Hle.
  - reflexivity.
Qed.

#[export] Instance Binary64_lawful : LawfulFloat float.
Proof.
  split.
  - intros x y. cbn. rewrite FloatAxioms.eqb_spec, FloatAxioms.ltb_spec.
    unfold SFeqb, SFltb.
    destruct (SFcompare (Prim2SF x) (Prim2SF y)) as [[ | | ] | ];
      intros Heq; first [ discriminate Heq | reflexivity ].
  - vm_compute. reflexivity.
Qed.

(** ** Normalisation of equal depths (C5) *)

Section Normalisation.

Context {num : Type} {F : PyFloat num} {L : LawfulFloat num}.

Lemma normalize_else_branch (depths : list num) (min_depth max_depth : num) :
  fgtb max_depth min_depth = false ->
  normalize depths min_depth max_depth = (map (fun _ => lit 0.5) depths, []).
Proof.
  intros Hgt. unfold normalize. rewrite Hgt.
  f_equal. apply map_ext. intros _. apply one_times_half.
Qed.

End Normalisation.



(** ** Depth resolution (C7) *)

Section DepthResolution.

Context {num : Type} {F : PyFloat num}.
Variable geo : GeometryLib num.
Variable rng : Type.
Variable plt : PlotLib num rng.

Lemma in_strings_true (s : string) (l : list string) :
  in_strings s l = true <-> In s l.
Proof.
  unfold in_strings. rewrite existsb_exists. split.
  - intros [x [Hin Heq]]. apply String.eqb_eq in Heq. now subst.
  - intros Hin. exists s. split; [assumption | apply String.eqb_refl].
Qed.

(** The test [col in gdf.columns] holds for the names of the frame. *)
Lemma has_column_named (gdf : GeoDataFrame num) (c : string) :
  has_column gdf c = named gdf c.
Proof.
  unfold has_column, named, column_names, names_of.
  apply eq_true_iff_eq. rewrite in_strings_true.
  change (existsb (String.eqb c) ("geometry" :: map fst (columns gdf)))
    with (in_strings c ("geometry" :: map fst (columns gdf))).
  rewrite in_strings_true, in_app_iff. cbn [In]. tauto.
Qed.

Lemma column_values_find (cols : list (string * array num)) (c : string) :
  column_values cols c
    = option_map snd (find (fun p => String.eqb c (fst p)) cols).
Proof.
  induction cols as [ | [n v] rest IH]; cbn; [reflexivity | ].
  destruct (String.eqb c n); [reflexivity | exact IH].
Qed.

(** [gdf[col].values] is the array the name stands for. *)
Lemma values_column (gdf : GeoDataFrame num) (c : string) :
  values gdf c = match column gdf c with
                 | Some a => Ok a
                 | None => Raise (KeyError c)
                 end.
Proof.
  unfold values, column. rewrite column_values_find.
  destruct (find _ (columns gdf)) as [p | ]; cbn [option_map]; [reflexivity | ].
  destruct (String.eqb c "geometry"); reflexivity.
Qed.

Lemma named_column (gdf : GeoDataFrame num) (c : string) :
  named gdf c = true -> exists a, column gdf c = Some a.
Proof.
  unfold named, names_of, column. cbn [existsb].
  destruct (String.eqb c "geometry") eqn:Hgeom; cbn [orb].
  - intros _. destruct (find _ (columns gdf)); now eexists.
  - intros Hin. apply existsb_exists in Hin. destruct Hin as [n [Hn Heq]].
    apply in_map_iff in Hn. destruct Hn as [p [<- Hp]].
    destruct (find (fun p0 => String.eqb c (fst p0)) (columns gdf)) as [q | ] eqn:Hfind.
    + now eexists.
    + apply (find_none _ _ Hfind) in Hp. cbn in Hp. congruence.
Qed.

Lemma values_named (gdf : GeoDataFrame num) (c : string) :
  named gdf c = true ->
  exists a, column gdf c = Some a /\ values gdf c = Ok a.
Proof.
  intros Hc. destruct (named_column gdf c Hc) as [a Ha].
  exists a. split; [exact Ha | ]. now rewrite values_column, Ha.
Qed.

(** The [for]/[else] loop picks the first candidate that is a column. *)
Lemma try_columns_find (gdf : GeoDataFrame num) (cols : list string) (s : rng) :
  try_columns plt gdf cols s =
    match find (named gdf) cols with
    | Some col => ([UsingDepthColumn col], values gdf col)
    | None => ([NoDepthColumnRandom],
               Ok (Float64 (random_uniform plt (lit 0.5) (lit 3.0) (len gdf) s)))
    end.
Proof.
  induction cols as [ | col rest IH]; cbn [try_columns find].
  - reflexivity.
  - rewrite has_column_named.
    destruct (named gdf col); [reflexivity | exact IH].
Qed.

Lemma random_uniform_length (low high : num) (n : nat) (s : rng) :
  List.length (random_uniform plt low high n s) = n.
Proof.
  revert s. induction n as [ | k IH]; intros s; cbn.
  - reflexivity.
  - destruct (next_uniform plt low high s) as [x s']. cbn. now rewrite IH.
Qed.

Lemma random_uniform_Forall (P : num -> Prop) (low high : num) :
  (forall s, P (fst (next_uniform plt low high s))) ->
  forall n s, Forall P (random_uniform plt low high n s).
Proof.
  intros Hdraw. induction n as [ | k IH]; intros s; cbn.
  - constructor.
  - specialize (Hdraw s). destruct (next_uniform plt low high s) as [x s'].
    constructor; [exact Hdraw | apply IH].
Qed.

Lemma resolve_caller (gdf : GeoDataFrame num) (c : string) (s : rng) :
  c <> "" -> named gdf c = true ->
  resolve_depths plt gdf (Some c) s = ([], values gdf c).
Proof.
  intros Hne Hc. unfold resolve_depths, truthy.
  apply String.eqb_neq in Hne. now rewrite Hne, has_column_named, Hc.
Qed.

Lemma resolve_fallback (gdf : GeoDataFrame num) (depth_column : option string)
  (s : rng) :
  no_caller_column gdf depth_column ->
  resolve_depths plt gdf depth_column s
    = try_columns plt gdf fallback_columns s.
Proof.
  intros Hno. unfold resolve_depths, truthy.
  destruct depth_column as [c | ]; [ | reflexivity].
  destruct (Hno c eq_refl) as [Hempty | Hmissing].
  - subst c. reflexivity.
  - rewrite has_column_named, Hmissing. now rewrite andb_false_r.
Qed.

Lemma no_caller_column_dec (gdf : GeoDataFrame num)
  (depth_column : option string) :
  no_caller_column gdf depth_column \/
  exists c, depth_column = Some c /\ c <> "" /\ named gdf c = true.
Proof.
  destruct depth_column as [c | ].
  - destruct (String.eqb c "") eqn:He.
    + left. intros c' Hc'. injection Hc' as <-. left. now apply String.eqb_eq.
    + destruct (named gdf c) eqn:Hc.
      * right. exists c. repeat split; [now apply String.eqb_neq | exact Hc].
      * left. intros c' Hc'. injection Hc' as <-. now right.
  - left. intros c Hc. discriminate Hc.
Qed.

(** What [resolve_depths] printed is part of what the renderer prints, and
    the renderer prints nothing else about the depth source. *)
Lemma printed_by_renderer (gdf : GeoDataFrame num) (show_depth_labels : bool)
  (depth_column : option string) (s : rng) :
  In NoDepthColumnRandom
     (fst (plot_extruded_3d geo plt (Some gdf) show_depth_labels depth_column s))
  <-> In NoDepthColumnRandom (fst (resolve_depths plt gdf depth_column s)).
Proof.
  unfold plot_extruded_3d.
  destruct (resolve_depths plt gdf depth_column s) as [msgs resolved].
  cbn [fst].
  assert (Hwarn : forall l : list (printed num),
            In NoDepthColumnRandom
               ((if (len gdf =? 0)%nat then [WarnEmptyFrame] else []) ++ l)
            <-> In NoDepthColumnRandom l).
  { intros l. destruct (len gdf =? 0)%nat; cbn; [ | reflexivity].
    split; [intros [Hw | Hl]; [discriminate Hw | exact Hl] | now right]. }
  destruct resolved as [a | e]; cbn [fst].
  - destruct (depth_statistics a) as [d | e1]; cbn [fst]; rewrite Hwarn;
      try reflexivity.
    rewrite in_app_iff. cbn. split.
    + intros [Hm | [Hd | []]]; [exact Hm | discriminate Hd].
    + now left.
  - apply Hwarn.
Qed.

(** Whatever the source, the depth array has one entry per record. *)
Lemma resolve_depths_size (gdf : GeoDataFrame num)
  (depth_column : option string) (s : rng) :
  well_formed gdf ->
  exists msgs a,
    resolve_depths plt gdf depth_column s = (msgs, Ok a)
    /\ size a = len gdf.
Proof.
  intros Hwf.
  assert (Hval : forall c, named gdf c = true ->
            exists a, values gdf c = Ok a /\ size a = len gdf).
  { intros c Hc. destruct (values_named gdf c Hc) as [a [Hcol Hval]].
    exists a. split; [exact Hval | ].
    unfold column in Hcol.
    destruct (find (fun p => String.eqb c (fst p)) (columns gdf)) as [p | ] eqn:Hfind.
    - injection Hcol as <-. apply find_some in Hfind.
      unfold well_formed in Hwf. rewrite Forall_forall in Hwf.
      now apply Hwf.
    - destruct (String.eqb c "geometry"); [ | discriminate Hcol].
      injection Hcol as <-. reflexivity. }
  destruct (no_caller_column_dec gdf depth_column) as [Hno | [c [-> [Hne Hc]]]].
  - rewrite (resolve_fallback s Hno), try_columns_find.
    destruct (find (named gdf) fallback_columns) as [col | ] eqn:Hfind.
    + apply find_some in Hfind. destruct Hfind as [_ Hc].
      destruct (Hval col Hc) as [a [Ha Hsize]]. rewrite Ha.
      now exists [UsingDepthColumn col], a.
    + eexists _, _. split; [reflexivity | ]. cbn [size].
      apply random_uniform_length.
  - rewrite resolve_caller by assumption.
    destruct (Hval c Hc) as [a [Ha Hsize]]. rewrite Ha. now exists [], a.
Qed.

End DepthResolution.

(** C7.  The depth values of a call are resolved by the first rule that
    applies: (1) the column the caller named (a non-empty name that is a
    column of the frame, whatever its dtype), read without any message; (2)
    otherwise the first name of the fixed list depth, DEPTH, water_depth,
    Depth, flood_depth that is a column, announced by a message naming it;
    (3) otherwise [len gdf] successive draws of the uniform sampler with the
    bounds 0.5 and 3.0 (all within the bounds when the sampler's draws are),
    announced by the message that random depths are used.  The renderer
    prints that message exactly on path (3), so synthetic depths can be told
    from real ones. *)
Theorem C7_depth_resolution_is_ordered_first_match :
  forall (num : Type) (F : PyFloat num) (geo : GeometryLib num) (rng : Type)
         (plt : PlotLib num rng) (gdf : GeoDataFrame num)
         (show_depth_labels : bool) (depth_column : option string) (s : rng),
    fallback_columns = ["depth"; "DEPTH"; "water_depth"; "Depth"; "flood_depth"]
    /\ (forall c, depth_column = Some c -> c <> "" -> named gdf c = true ->
        exists a, column gdf c = Some a /\
                  resolve_depths plt gdf depth_column s = ([], Ok a))
    /\ (no_caller_column gdf depth_column ->
        forall col, find (named gdf) fallback_columns = Some col ->
        exists a, column gdf col = Some a /\
                  resolve_depths plt gdf depth_column s
                    = ([UsingDepthColumn col], Ok a))
    /\ (no_caller_column gdf depth_column ->
        find (named gdf) fallback_columns = None ->
        resolve_depths plt gdf depth_column s
          = ([NoDepthColumnRandom],
             Ok (Float64 (random_uniform plt (lit 0.5) (lit 3.0) (len gdf) s)))
        /\ List.length (random_uniform plt (lit 0.5) (lit 3.0) (len gdf) s)
           = len gdf
        /\ ((forall s', let x := fst (next_uniform plt (lit 0.5) (lit 3.0) s') in
                        fleb (lit 0.5) x = true /\ fleb x (lit 3.0) = true) ->
            Forall (fun x => fleb (lit 0.5) x = true /\ fleb x (lit 3.0) = true)
                   (random_uniform plt (lit 0.5) (lit 3.0) (len gdf) s)))
    /\ (In NoDepthColumnRandom
           (fst (plot_extruded_3d geo plt (Some gdf) show_depth_labels
                   depth_column s))
        <-> no_caller_column gdf depth_column /\
            find (named gdf) fallback_columns = None).
Proof.
  intros num F geo rng plt gdf show_depth_labels depth_column s.
  split; [reflexivity | ].
  split.
  { intros c -> Hne Hc. destruct (values_named gdf c Hc) as [a [Ha Hval]].
    exists a. split; [exact Ha | ]. rewrite resolve_caller by assumption.
    now rewrite Hval. }
  split.
  { intros Hno col Hfind. rewrite (resolve_fallback plt s Hno), try_columns_find.
    rewrite Hfind. apply find_some in Hfind. destruct Hfind as [_ Hc].
    destruct (values_named gdf col Hc) as [a [Ha Hval]].
    exists a. split; [exact Ha | now rewrite Hval]. }
  split.
  { intros Hno Hfind. rewrite (resolve_fallback plt s Hno), try_columns_find.
    rewrite Hfind. split; [reflexivity | ]. split.
    - apply random_uniform_length.
    - intros Hdraw. now apply random_uniform_Forall. }
  rewrite printed_by_renderer.
  destruct (no_caller_column_dec gdf depth_column) as [Hno | [c [-> [Hne Hc]]]].
  - rewrite (resolve_fallback plt s Hno), try_columns_find.
    destruct (find (named gdf) fallback_columns) as [col | ] eqn:Hfind;
      cbn [fst].
    + split.
      * intros [Hm | []]. discriminate Hm.
      * intros [_ Hnone]. discriminate Hnone.
    + split; [intros _; now split | intros _; now left].
  - rewrite resolve_caller by assumption. cbn [fst]. split.
    + intros [].
    + intros [Hno _]. destruct (Hno c eq_refl) as [He | Hm]; [contradiction | ].
      rewrite Hm in Hc. discriminate Hc.
Qed.

(** ** An empty frame (C4) *)

Section EmptyFrame.

Context {num : Type} {F : PyFloat num}.
Variable geo : GeometryLib num.
Variable rng : Type.
Variable plt : PlotLib num rng.

(** Lines 113-120 on an array without entries: [np.min] raises, whatever
    the dtype. *)
Lemma depth_statistics_of_nothing (a : array num) :
  size a = 0%nat -> depth_statistics a = Raise (zero_size "minimum").
Proof.
  destruct a as [v | bits v | v | v]; cbn [size]; intros Hsize;
    apply length_zero_iff_nil in Hsize; subst v; reflexivity.
Qed.

Lemma renderer_raises_without_records (gdf : GeoDataFrame num)
  (show_depth_labels : bool) (depth_column : option string) (s : rng) :
  well_formed gdf -> len gdf = 0%nat ->
  exists msgs,
    plot_extruded_3d geo plt (Some gdf) show_depth_labels depth_column s
    = (WarnEmptyFrame :: msgs, Raise (zero_size "minimum")).
Proof.
  intros Hwf Hlen.
  destruct (resolve_depths_size plt depth_column s Hwf)
    as [msgs [a [Hres Hsize]]].
  exists msgs. unfold plot_extruded_3d. rewrite Hres.
  rewrite depth_statistics_of_nothing by congruence.
  now rewrite Hlen.
Qed.

Lemma empty_frame_well_formed (schema : list (string * array num))
  (crs0 : option Z) :
  well_formed (empty_frame num schema crs0).
Proof.
  unfold well_formed, empty_frame. cbn [columns len geometry List.length].
  apply Forall_map. apply Forall_forall. intros [n a] _. now destruct a.
Qed.

Lemma renderer_raises_on_empty_frame (schema : list (string * array num))
  (crs0 : option Z) (show_depth_labels : bool) (depth_column : option string)
  (s : rng) :
  exists msgs,
    plot_extruded_3d geo plt (Some (empty_frame num schema crs0))
      show_depth_labels depth_column s
    = (WarnEmptyFrame :: msgs, Raise (zero_size "minimum")).
Proof.
  apply renderer_raises_without_records.
  - apply empty_frame_well_formed.
  - reflexivity.
Qed.

End EmptyFrame.

(** C4 (what the code does).  On a frame without rows the renderer prints
    the warning about the empty frame and then raises [ValueError]: whatever
    the depth source and its dtype, the depth array is empty and [np.min] of
    an empty array has no value.  No figure, empty or not, is produced. *)
Theorem C4_empty_frame_warns_then_raises :
  forall (num : Type) (F : PyFloat num) (geo : GeometryLib num) (rng : Type)
         (plt : PlotLib num rng) (schema : list (string * array num))
         (crs0 : option Z)
         (show_depth_labels : bool) (depth_column : option string) (s : rng),
  exists msgs,
    plot_extruded_3d geo plt (Some (empty_frame num schema crs0))
      show_depth_labels depth_column s
    = (WarnEmptyFrame :: msgs, Raise (zero_size "minimum")).
Proof.
  intros num F geo rng plt schema crs0 show_depth_labels depth_column s.
  apply renderer_raises_on_empty_frame.
Qed.

(** ** The driver fallback (C8) *)

Section DriverFallback.

Context {num : Type} {F : PyFloat num}.
Variable drv : Drivers num.
Variable geo : GeometryLib num.

Lemma read_kml_to_gdf_falls_back (path : string) :
  falls_back (gpd_read_file drv path (Some "LIBKML"))
             (gpd_read_file drv path (Some "KML")) (Some "KML")
             (read_kmz_geopandas.read_kml_to_gdf drv geo path).
Proof.
  unfold falls_back, read_kmz_geopandas.read_kml_to_gdf.
  destruct (gpd_read_file drv path (Some "LIBKML")) as [g | e1]; cbn.
  - now split.
  - destruct (gpd_read_file drv path (Some "KML")) as [g | e2]; cbn.
    + repeat split. intros e He. discriminate He.
    + repeat split. intros e He. exact He.
Qed.

Lemma read_polygons_falls_back (path : string) :
  falls_back (gpd_read_file drv path (Some "LIBKML"))
             (gpd_read_file drv path None) None
             (read_polygons drv path).
Proof.
  unfold falls_back, read_polygons.
  destruct (gpd_read_file drv path (Some "LIBKML")) as [g | e1]; cbn.
  - now split.
  - destruct (gpd_read_file drv path None) as [g | e2]; cbn.
    + repeat split. intros e He. discriminate He.
    + repeat split. intros e He. exact He.
Qed.

End DriverFallback.

(** C8.  Each of the three loaders calls the LIBKML reader first.  When that
    call returns, it is the only reader call and the loader does not raise.
    When it raises (any exception), exactly one more call follows, with the
    secondary driver (KML in the converter and the pyogrio script, GDAL's own
    choice in the plot script); the loader then succeeds exactly when that
    call does, and an exception of the second call is the exception the
    loader raises. *)
Theorem C8_primary_driver_then_one_fallback :
  forall (num : Type) (F : PyFloat num) (drv : Drivers num)
         (geo : GeometryLib num) (path : string),
    (match gpd_read_file drv path (Some "LIBKML") with
     | Ok _ =>
         fst (read_kmz_geopandas.read_kml_to_gdf drv geo path) = [Some "LIBKML"]
         /\ is_ok (snd (read_kmz_geopandas.read_kml_to_gdf drv geo path)) = true
         /\ fst (read_polygons drv path) = [Some "LIBKML"]
         /\ is_ok (snd (read_polygons drv path)) = true
     | Raise _ =>
         fst (read_kmz_geopandas.read_kml_to_gdf drv geo path)
           = [Some "LIBKML"; Some "KML"]
         /\ (forall e, gpd_read_file drv path (Some "KML") = Raise e ->
               snd (read_kmz_geopandas.read_kml_to_gdf drv geo path) = Raise e)
         /\ is_ok (snd (read_kmz_geopandas.read_kml_to_gdf drv geo path))
            = is_ok (gpd_read_file drv path (Some "KML"))
         /\ fst (read_polygons drv path) = [Some "LIBKML"; None]
         /\ (forall e, gpd_read_file drv path None = Raise e ->
               snd (read_polygons drv path) = Raise e)
         /\ is_ok (snd (read_polygons drv path))
            = is_ok (gpd_read_file drv path None)
     end)
    /\
    (match pyogrio_read_dataframe drv path (Some "LIBKML") with
     | Ok df =>
         read_kml_with_pyogrio.main_read_dataframe drv path
           = ([Some "LIBKML"], Ok df)
     | Raise _ =>
         read_kml_with_pyogrio.main_read_dataframe drv path
           = ([Some "LIBKML"; Some "KML"],
              pyogrio_read_dataframe drv path (Some "KML"))
     end).
Proof.
  intros num F drv geo path.
  pose proof (read_kml_to_gdf_falls_back drv geo path) as Hconv.
  pose proof (read_polygons_falls_back drv path) as Hplot.
  unfold falls_back in Hconv, Hplot.
  split.
  - destruct (gpd_read_file drv path (Some "LIBKML")) as [g | e1].
    + destruct Hconv as [Hc1 Hc2]. destruct Hplot as [Hp1 Hp2].
      repeat split; assumption.
    + destruct Hconv as [Hc1 [Hc2 Hc3]]. destruct Hplot as [Hp1 [Hp2 Hp3]].
      repeat split; assumption.
  - unfold read_kml_with_pyogrio.main_read_dataframe.
    destruct (pyogrio_read_dataframe drv path (Some "LIBKML")); reflexivity.
Qed.

(** ** What the loaders keep (C2, C3) *)

Section Loaders.

Context {num : Type} {F : PyFloat num}.
Variable drv : Drivers num.
Variable geo : GeometryLib num.

Lemma keep_map_filter (A : Type) (f : A -> bool) (xs : list A) :
  keep (map f xs) xs = filter f xs.
Proof.
  induction xs as [ | x t IH]; cbn; [reflexivity | ].
  destruct (f x); now rewrite IH.
Qed.

Lemma filter_implied (A : Type) (p q : A -> bool) (xs : list A) :
  (forall x, p x = true -> q x = true) ->
  filter p (filter q xs) = filter p xs.
Proof.
  intros Himp. induction xs as [ | x t IH]; cbn; [reflexivity | ].
  destruct (q x) eqn:Hq; cbn.
  - now rewrite IH.
  - destruct (p x) eqn:Hp; [ | exact IH].
    apply Himp in Hp. rewrite Hp in Hq. discriminate Hq.
Qed.

Lemma filter_all (A : Type) (p : A -> bool) (xs : list A) :
  Forall (fun x => p x = true) xs -> filter p xs = xs.
Proof.
  induction 1 as [ | x t Hx _ IH]; cbn; [reflexivity | ].
  now rewrite Hx, IH.
Qed.

Lemma select_crs (gdf : GeoDataFrame num) (mask : list bool) :
  crs (select gdf mask) = crs gdf.
Proof. reflexivity. Qed.

Lemma polygonal_type (g : option (Geometry num)) :
  match g with
  | Some g => in_strings (geom_type g) ["Polygon"; "MultiPolygon"]
  | None => false
  end = polygonal g.
Proof. destruct g as [[ | | | ] | ]; reflexivity. Qed.

(** The two filters of both loaders leave the polygonal records, in order. *)
Lemma type_filter_geometry (gdf : GeoDataFrame num) :
  let gdf1 := select gdf (notnull gdf) in
  geometry (select gdf1 (geom_type_isin gdf1 ["Polygon"; "MultiPolygon"]))
    = filter polygonal (geometry gdf).
Proof.
  cbn. unfold notnull, geom_type_isin. cbn [geometry select].
  rewrite (keep_map_filter (@not_null num)).
  rewrite (map_ext _ (@polygonal num)) by apply polygonal_type.
  rewrite keep_map_filter. apply filter_implied.
  intros [g | ]; [reflexivity | discriminate].
Qed.

Lemma repair_geometry (gdf : GeoDataFrame num) :
  geometry (read_kmz_geopandas.repair geo gdf)
    = filter (valid_record geo)
        (map (option_map (fun g => buffer geo g (lit 0))) (geometry gdf)).
Proof.
  unfold read_kmz_geopandas.repair, is_valid_mask. cbn [geometry select set_geometry].
  apply (keep_map_filter (valid_record geo)).
Qed.

Lemma read_polygons_result (path : string) (gdf0 : GeoDataFrame num) :
  plot_parse drv path = Ok gdf0 ->
  exists out,
    snd (read_polygons drv path) = Ok out
    /\ geometry out = filter polygonal (geometry gdf0)
    /\ crs out = match crs gdf0 with None => Some EPSG_4326 | Some c => Some c end.
Proof.
  unfold plot_parse, read_polygons. intros Hparse.
  assert (Hread : (let (_, read) :=
            match gpd_read_file drv path (Some "LIBKML") with
            | Ok gdf => ([Some "LIBKML"], Ok gdf)
            | Raise _ => ([Some "LIBKML"; None], gpd_read_file drv path None)
            end in read) = Ok gdf0).
  { destruct (gpd_read_file drv path (Some "LIBKML")); exact Hparse. }
  destruct (match gpd_read_file drv path (Some "LIBKML") with
            | Ok gdf => ([Some "LIBKML"], Ok gdf)
            | Raise _ => ([Some "LIBKML"; None], gpd_read_file drv path None)
            end) as [attempts read].
  subst read. cbn [snd bind]. eexists. split; [reflexivity | ].
  pose proof (type_filter_geometry gdf0) as Hgeom. cbn zeta in Hgeom.
  rewrite !select_crs.
  destruct (crs gdf0) as [c | ] eqn:Hcrs.
  - split; [exact Hgeom | now rewrite !select_crs].
  - split; [exact Hgeom | reflexivity].
Qed.

Lemma read_kml_to_gdf_result (path : string) (gdf0 : GeoDataFrame num) :
  converter_parse drv path = Ok gdf0 ->
  exists out,
    snd (read_kmz_geopandas.read_kml_to_gdf drv geo path) = Ok out
    /\ geometry out
       = filter (valid_record geo)
           (map (option_map (repaired geo (crs gdf0)))
                (filter polygonal (geometry gdf0)))
    /\ crs out = Some EPSG_4326.
Proof.
  unfold converter_parse, read_kmz_geopandas.read_kml_to_gdf. intros Hparse.
  assert (Hread : (let (_, read) :=
            match gpd_read_file drv path (Some "LIBKML") with
            | Ok gdf => ([Some "LIBKML"], Ok gdf)
            | Raise _ =>
                ([Some "LIBKML"; Some "KML"], gpd_read_file drv path (Some "KML"))
            end in read) = Ok gdf0).
  { destruct (gpd_read_file drv path (Some "LIBKML")); exact Hparse. }
  destruct (match gpd_read_file drv path (Some "LIBKML") with
            | Ok gdf => ([Some "LIBKML"], Ok gdf)
            | Raise _ =>
                ([Some "LIBKML"; Some "KML"], gpd_read_file drv path (Some "KML"))
            end) as [attempts read].
  subst read. cbn [snd bind]. eexists. split; [reflexivity | ].
  pose proof (type_filter_geometry gdf0) as Hgeom. cbn zeta in Hgeom.
  rewrite repair_geometry, !select_crs. unfold repaired.
  destruct (crs gdf0) as [c | ] eqn:Hcrs.
  - split; [ | reflexivity].
    cbn [geometry gdf_to_crs]. rewrite Hgeom, map_map. f_equal.
    apply map_ext. intros [g | ]; reflexivity.
  - split; [ | reflexivity].
    cbn [geometry set_crs]. now rewrite Hgeom.
Qed.

End Loaders.

(** C3 (what the code does).  For a parsed frame that carries a CRS, whatever
    its EPSG code, [read_polygons] returns the frame with that same CRS and
    with its polygon geometries untouched: it has no reprojection branch.
    The converter's [read_kml_to_gdf] returns CRS 4326 for the same input. *)
Theorem C3_read_polygons_keeps_a_foreign_crs :
  forall (num : Type) (F : PyFloat num) (geo : GeometryLib num)
         (cols : list (string * array num))
         (geoms : list (option (Geometry num))) (code : Z) (path : string),
    (exists out,
        snd (read_polygons (constant_drivers (mkGDF cols geoms (Some code))) path)
          = Ok out
        /\ crs out = Some code
        /\ geometry out = filter polygonal geoms)
    /\ (exists out,
        snd (read_kmz_geopandas.read_kml_to_gdf
               (constant_drivers (mkGDF cols geoms (Some code))) geo path)
          = Ok out
        /\ crs out = Some EPSG_4326).
Proof.
  intros num F geo cols geoms code path. split.
  - destruct (read_polygons_result
                (constant_drivers (mkGDF cols geoms (Some code))) path
                (gdf0 := mkGDF cols geoms (Some code)) eq_refl)
      as [out [Hout [Hgeom Hcrs]]].
    exists out. repeat split; assumption.
  - destruct (read_kml_to_gdf_result
                (constant_drivers (mkGDF cols geoms (Some code))) geo path
                (gdf0 := mkGDF cols geoms (Some code)) eq_refl)
      as [out [Hout [_ Hcrs]]].
    exists out. split; assumption.
Qed.

(** ** Repair of geometries (C2) *)

Section Repair.

Context {num : Type} {F : PyFloat num}.
Variable drv : Drivers num.
Variable geo : GeometryLib num.

Lemma filter_satisfies (X : Type) (p : X -> bool) (xs : list X) :
  Forall (fun x => p x = true) (filter p xs).
Proof.
  apply Forall_forall. intros x Hx. now apply filter_In in Hx.
Qed.

(** Repairing once more changes no geometry when [buffer(0)] is idempotent. *)
Lemma repair_twice (gdf : GeoDataFrame num) :
  (forall g, buffer geo (buffer geo g (lit 0)) (lit 0) = buffer geo g (lit 0)) ->
  geometry (read_kmz_geopandas.repair geo (read_kmz_geopandas.repair geo gdf))
    = geometry (read_kmz_geopandas.repair geo gdf).
Proof.
  intros Hidem. rewrite (repair_geometry geo (read_kmz_geopandas.repair geo gdf)).
  rewrite repair_geometry.
  set (buf := option_map (fun g => buffer geo g (lit 0))).
  set (valid := valid_record geo).
  assert (Hfix : forall l,
            map buf (filter valid (map buf l)) = filter valid (map buf l)).
  { induction l as [ | x t IH]; cbn; [reflexivity | ].
    destruct (valid (buf x)) eqn:Hv; cbn; [ | exact IH].
    rewrite IH. f_equal. destruct x as [g | ]; cbn; [ | reflexivity].
    now rewrite Hidem. }
  rewrite Hfix. apply filter_all.
  apply Forall_forall. intros x Hx. apply filter_In in Hx. apply Hx.
Qed.

End Repair.

(** C2 (what the code does).  The plot script's loader [read_polygons] has
    no repair step: whatever the parsed frame, it returns its non-null
    Polygon and MultiPolygon records as they are, so a self-intersecting
    polygon (the bow-tie, whose first and third edges cross) comes out
    unrepaired and undropped.  The converter's [read_kml_to_gdf], given the
    same file, applies [buffer(0)] to both polygons and keeps only what the
    geometry library then reports valid. *)
Theorem C2_read_polygons_returns_a_self_intersecting_polygon :
  self_intersecting bowtie = true
  /\ (exists out,
        snd (read_polygons (constant_drivers frame_with_bowtie) "doc.kml")
          = Ok out
        /\ geometry out = [Some (GPolygon bowtie); Some (GPolygon unit_square)])
  /\ (forall (num : Type) (F : PyFloat num) (drv : Drivers num) (path : string)
             (gdf0 : GeoDataFrame num),
        plot_parse drv path = Ok gdf0 ->
        exists out,
          snd (read_polygons drv path) = Ok out
          /\ geometry out = filter polygonal (geometry gdf0))
  /\ (forall geo : GeometryLib Q,
        exists out,
          snd (read_kmz_geopandas.read_kml_to_gdf
                 (constant_drivers frame_with_bowtie) geo "doc.kml") = Ok out
          /\ geometry out
             = filter (valid_record geo)
                 [Some (buffer geo (GPolygon bowtie) 0%Q);
                  Some (buffer geo (GPolygon unit_square) 0%Q)]
          /\ Forall (fun og => valid_record geo og = true) (geometry out)).
Proof.
  split; [reflexivity | ]. split.
  - eexists. split; reflexivity.
  - split.
    + intros num F drv path gdf0 Hparse.
      destruct (read_polygons_result drv path Hparse) as [out [Hout [Hgeom _]]].
      exists out. now split.
    + intros geo.
      destruct (read_kml_to_gdf_result (constant_drivers frame_with_bowtie) geo
                  "doc.kml" (gdf0 := frame_with_bowtie) eq_refl)
        as [out [Hout [Hgeom _]]].
      exists out. split; [exact Hout | ].
      assert (Hrecords : geometry out
                = filter (valid_record geo)
                    [Some (buffer geo (GPolygon bowtie) 0%Q);
                     Some (buffer geo (GPolygon unit_square) 0%Q)])
        by (rewrite Hgeom; reflexivity).
      split; [exact Hrecords | ]. rewrite Hrecords. apply filter_satisfies.
Qed.

(** ** What the converter returns *)

(** X3.  The converter's loader [read_kml_to_gdf] returns a frame in EPSG:4326
    that holds exactly the following records, in their order: the non-null
    Polygon and MultiPolygon records of the parsed frame, each transformed
    from the frame's CRS to EPSG:4326 when the frame had one, then passed
    through [buffer(0)], and kept when the library reports the outcome
    valid.  Every geometry of the result is therefore valid. *)
Theorem converter_returns_reprojected_repaired_valid_records :
  forall (num : Type) (F : PyFloat num) (drv : Drivers num)
         (geo : GeometryLib num) (path : string) (gdf0 : GeoDataFrame num),
    converter_parse drv path = Ok gdf0 ->
    exists out,
      snd (read_kmz_geopandas.read_kml_to_gdf drv geo path) = Ok out
      /\ crs out = Some EPSG_4326
      /\ geometry out
         = filter (valid_record geo)
             (map (option_map
                     (fun g => buffer geo
                                 (match crs gdf0 with
                                  | None => g
                                  | Some src => to_crs geo src EPSG_4326 g
                                  end) (lit 0)))
                  (filter polygonal (geometry gdf0)))
      /\ Forall (fun og => valid_record geo og = true) (geometry out).
Proof.
  intros num F drv geo path gdf0 Hparse.
  destruct (read_kml_to_gdf_result drv geo path Hparse)
    as [out [Hout [Hgeom Hcrs]]].
  exists out. split; [exact Hout | ]. split; [exact Hcrs | ].
  split; [exact Hgeom | ]. rewrite Hgeom. apply filter_satisfies.
Qed.

Lemma converter_witness_projected_frame :
  exists out,
    snd (read_kmz_geopandas.read_kml_to_gdf (constant_drivers projected_frame)
           halving_geometry_lib "doc.kml") = Ok out
    /\ crs out = Some EPSG_4326
    /\ geometry out = [Some (GPolygon (halve_polygon unit_square))].
Proof.
  destruct (@converter_returns_reprojected_repaired_valid_records
              Q ExactFloat (constant_drivers projected_frame)
              halving_geometry_lib "doc.kml" projected_frame eq_refl)
    as [out [Hout [Hcrs [Hgeom _]]]].
  exists out. split; [exact Hout | ]. split; [exact Hcrs | ].
  rewrite Hgeom. vm_compute. reflexivity.
Defined.

(** ** Finding the KML file (C9) *)

Lemma first_kml_find (root : string) (files : list string) :
  first_kml root files
    = option_map (path_join root) (find is_kml_name files).
Proof.
  induction files as [ | f rest IH]; cbn; [reflexivity | ].
  destruct (is_kml_name f); [reflexivity | exact IH].
Qed.

Lemma find_map_snd (root : string) (files : list string) :
  find (fun rf : string * string => is_kml_name (snd rf))
       (map (fun f => (root, f)) files)
    = option_map (fun f => (root, f)) (find is_kml_name files).
Proof.
  induction files as [ | f rest IH]; cbn; [reflexivity | ].
  destruct (is_kml_name f); [reflexivity | exact IH].
Qed.

Lemma find_app (A : Type) (p : A -> bool) (l1 l2 : list A) :
  find p (l1 ++ l2)
    = match find p l1 with Some x => Some x | None => find p l2 end.
Proof.
  induction l1 as [ | x t IH]; cbn; [reflexivity | ].
  destruct (p x); [reflexivity | exact IH].
Qed.

(** The nested loops return the first file of the walk that has a KML name. *)
Lemma search_walk_first (w : list (string * list string * list string)) :
  search_walk w
    = option_map (fun rf => path_join (fst rf) (snd rf))
        (find (fun rf => is_kml_name (snd rf)) (walk_files w)).
Proof.
  induction w as [ | [[root dirs] files] rest IH]; cbn; [reflexivity | ].
  rewrite find_app, find_map_snd, first_kml_find.
  destruct (find is_kml_name files) as [f | ]; cbn; [reflexivity | exact IH].
Qed.

Lemma entry_induction (P : entry -> Prop) :
  (forall n, P (File n)) ->
  (forall n children, Forall P children -> P (Dir n children)) ->
  forall e, P e.
Proof.
  intros HF HD. fix IH 1. intros [n | n children].
  - apply HF.
  - apply HD. induction children as [ | c rest IHrest]; constructor.
    + apply IH.
    + exact IHrest.
Qed.

Lemma walk_files_app (w1 w2 : list (string * list string * list string)) :
  walk_files (w1 ++ w2) = walk_files w1 ++ walk_files w2.
Proof. unfold walk_files. apply flat_map_app. Qed.

(** The walk lists the files of the root and of every directory below it. *)
Lemma walk_reaches_every_file (es : list entry) (top : string) (f : string) :
  In f (map snd (walk_files (os_walk top es))) <-> In f (flat_map all_files es).
Proof.
  assert (Hlevel : forall es top,
            (forall e, In e es -> forall top',
                In f (map snd (walk_files (walk_entry top' e)))
                <-> match e with
                    | File _ => False
                    | Dir _ children => In f (flat_map all_files children)
                    end) ->
            In f (map snd (walk_files (os_walk top es)))
            <-> In f (flat_map all_files es)).
  { clear es top. intros es top Hsub. unfold os_walk.
    change (walk_files ((top, dirnames es, filenames es)
                          :: flat_map (walk_entry top) es))
      with (map (fun g => (top, g)) (filenames es)
              ++ walk_files (flat_map (walk_entry top) es)).
    rewrite map_app, in_app_iff, map_map. cbn [snd]. rewrite map_id.
    induction es as [ | e rest IH]; cbn.
    - tauto.
    - rewrite walk_files_app, map_app, !in_app_iff.
      assert (IH' := IH (fun e' He' => Hsub e' (or_intror He'))).
      pose proof (Hsub e (or_introl eq_refl) top) as He.
      destruct e as [n | n children]; cbn in *; rewrite ?in_app_iff; tauto. }
  apply Hlevel. intros e _. clear es top.
  induction e as [n | n children IH] using entry_induction; intros top'.
  - cbn. tauto.
  - change (walk_entry top' (Dir n children))
      with (os_walk (path_join top' n) children).
    apply Hlevel. intros e He. rewrite Forall_forall in IH. now apply IH.
Qed.

Lemma find_none_iff (A : Type) (p : A -> bool) (l : list A) :
  find p l = None <-> forall x, In x l -> p x = false.
Proof.
  split; [apply find_none | ].
  induction l as [ | x t IH]; cbn; intros Hall; [reflexivity | ].
  rewrite (Hall x (or_introl eq_refl)). apply IH.
  intros y Hy. apply Hall. now right.
Qed.

(** X1.  The loaders that search with [os.walk] (the converter and the pyogrio
    script) return the path of the first file, in walk order, whose
    lower-cased name ends in ".kml", and raise [FileNotFoundError] exactly
    when no file at any depth of the workspace has such a name. *)
Theorem walk_search_finds_first_kml_at_any_depth :
  forall (kmz_path tmpdir : string) (es : list entry),
    let hit := find (fun rf => is_kml_name (snd rf))
                    (walk_files (os_walk tmpdir es)) in
    read_kmz_geopandas.extract_kml_from_kmz kmz_path (Archive es) tmpdir
      = match hit with
        | Some rf => Ok (path_join (fst rf) (snd rf))
        | None => Raise (FileNotFoundError "No .kml inside KMZ")
        end
    /\ read_kml_with_pyogrio.extract_kml (Archive es) tmpdir
       = read_kmz_geopandas.extract_kml_from_kmz kmz_path (Archive es) tmpdir
    /\ (hit = None <->
        forall f, In f (flat_map all_files es) -> is_kml_name f = false).
Proof.
  intros kmz_path tmpdir es hit. subst hit.
  unfold read_kmz_geopandas.extract_kml_from_kmz, read_kml_with_pyogrio.extract_kml.
  cbn [path_exists negb extractall].
  rewrite search_walk_first. split; [ | split].
  - destruct (find _ _); reflexivity.
  - reflexivity.
  - rewrite find_none_iff. split.
    + intros Hnone f Hf.
      apply (walk_reaches_every_file es tmpdir) in Hf.
      apply in_map_iff in Hf. destruct Hf as [rf [<- Hin]]. now apply Hnone.
    + intros Hnone rf Hin. apply Hnone.
      apply (walk_reaches_every_file es tmpdir).
      apply in_map_iff. now exists rf.
Qed.

Lemma listdir_ignores_children (es : list entry) :
  os_listdir (map emptied es) = os_listdir es.
Proof.
  unfold os_listdir. rewrite map_map. apply map_ext.
  intros [n | n children]; reflexivity.
Qed.

(** C9 (what the code does).  The plot script's [extract_kml] looks at the
    names [os.listdir] gives for the top of the workspace only: its result is
    the same when every directory is emptied.  For an archive whose KML file
    lies in a folder it raises [FileNotFoundError], where the two loaders
    that search with [os.walk] return the file's path. *)
Theorem C9_listdir_search_misses_files_in_folders :
  (forall (es : list entry) (td : string),
      extract_kml (Archive es) td = extract_kml (Archive (map emptied es)) td)
  /\ extract_kml (Archive [Dir "files" [File "doc.kml"]]) "/tmp/td"
     = Raise (FileNotFoundError "No .kml inside KMZ")
  /\ read_kmz_geopandas.extract_kml_from_kmz "flood.kmz"
       (Archive [Dir "files" [File "doc.kml"]]) "/tmp/td"
     = Ok "/tmp/td/files/doc.kml"
  /\ read_kml_with_pyogrio.extract_kml
       (Archive [Dir "files" [File "doc.kml"]]) "/tmp/td"
     = Ok "/tmp/td/files/doc.kml".
Proof.
  split.
  - intros es td. unfold extract_kml. cbn [extractall].
    now rewrite listdir_ignores_children.
  - repeat split; reflexivity.
Qed.

(** ** The extrusion mesh (C1, C10) *)

Section Mesh.

Context {num : Type} {F : PyFloat num}.
Variable geo : GeometryLib num.
Variable rng : Type.
Variable plt : PlotLib num rng.

Local Open Scope py_scope.

Lemma polys_of_polygonal (g : option (Geometry num)) :
  polygonal g = true -> polys_of g = Ok (parts g).
Proof. destruct g as [[ | | | ] | ]; cbn; intros Hp; congruence. Qed.

Lemma polys_of_not_polygonal (g : option (Geometry num)) :
  polygonal g = false -> exists msg, polys_of g = Raise (AttributeError msg).
Proof.
  destruct g as [[ | | | ] | ]; cbn; intros Hp;
    first [discriminate Hp | now eexists].
Qed.

Lemma index_middle (pre : list num) (d : num) (rest : list num) :
  index (pre ++ d :: rest) (List.length pre) = Ok d.
Proof.
  unfold index. rewrite nth_error_app2 by apply Nat.le_refl.
  now rewrite Nat.sub_diag.
Qed.

Lemma index_past_the_end (pre : list num) :
  index (pre ++ []) (List.length pre) = Raise IndexError.
Proof.
  unfold index. rewrite app_nil_r.
  now replace (nth_error pre (List.length pre)) with (@None num)
    by (symmetry; apply nth_error_None; apply Nat.le_refl).
Qed.

Lemma combine_coordinates (z : num) (coords : ring num) :
  map (fun xy : num * num => (fst xy, snd xy, z))
      (combine (map (@cx num) coords) (map (@cy num) coords))
    = map (lift z) coords.
Proof.
  induction coords as [ | c t IH]; cbn; [reflexivity | now rewrite IH].
Qed.

Lemma side_quad_tail (c : coord num) (coords : ring num) (h : num) (i : nat) :
  side_quad (c :: coords) h (S i) = side_quad coords h i.
Proof. reflexivity. Qed.

(** The index loop over [range(n - 1)] visits the pairs of consecutive
    vertices. *)
Lemma side_quads_are_walls (h : num) (coords : ring num) :
  map (side_quad coords h) (seq 0 (List.length coords - 1))
    = map (fun e => wall (base_z + h) (fst e) (snd e))
          (combine coords (tl coords)).
Proof.
  induction coords as [ | c0 t IH]; [reflexivity | ].
  destruct t as [ | c1 t']; [reflexivity | ].
  replace (List.length (c0 :: c1 :: t') - 1)%nat with (S (List.length (c1 :: t') - 1))
    by (cbn; lia).
  cbn [seq map]. rewrite <- seq_shift, map_map.
  rewrite (map_ext _ (side_quad (c1 :: t') h)) by (intros i; apply side_quad_tail).
  rewrite IH. reflexivity.
Qed.

Lemma walls_have_vertices (height : num) (es : list (coord num * coord num)) :
  existsb (fun face : list (num * num * num) =>
             match face with [] => true | _ => false end)
          (map (fun e => wall height (fst e) (snd e)) es) = false.
Proof. induction es as [ | e rest IH]; [reflexivity | exact IH]. Qed.

(** The constructor of the top face raises on a ring without coordinates. *)
Lemma extrusion_of_nothing (poly : Polygon num) (depth : num)
  (wc sc ec : color num) :
  exterior poly = [] ->
  extrusion poly depth wc sc ec
    = Raise (ValueError "not enough values to unpack (expected 3, got 0)").
Proof. intros Hempty. unfold extrusion. now rewrite Hempty. Qed.

(** On any other ring the three constructors return, and the faces are the
    mesh of the ring. *)
Lemma extrusion_is_ring_mesh (poly : Polygon num) (depth : num)
  (wc sc ec : color num) :
  exterior poly <> [] ->
  exists top bottom sides,
    extrusion poly depth wc sc ec = Ok [top; bottom; sides]
    /\ map (@verts num) [top; bottom; sides] = ring_mesh (exterior poly) depth.
Proof.
  intros Hring. unfold extrusion, ring_mesh.
  rewrite !combine_coordinates, side_quads_are_walls.
  destruct (exterior poly) as [ | c0 rest] eqn:Hcoords; [contradiction | ].
  unfold new_Poly3DCollection at 1 2. cbn [map existsb orb bind].
  unfold new_Poly3DCollection. rewrite walls_have_vertices. cbn [bind].
  eexists _, _, _. split; reflexivity.
Qed.

Lemma walls_length (coords : ring num) :
  List.length (combine coords (tl coords)) = (List.length coords - 1)%nat.
Proof.
  rewrite length_combine. destruct coords as [ | c t]; [reflexivity | ].
  cbn [tl List.length]. lia.
Qed.

Lemma walls_nth (height : num) (coords : ring num) :
  forall (i : nat) (c0 c1 : coord num),
    nth_error coords i = Some c0 ->
    nth_error coords (S i) = Some c1 ->
    nth_error (map (fun e => wall height (fst e) (snd e))
                   (combine coords (tl coords))) i
      = Some (wall height c0 c1).
Proof.
  induction coords as [ | c t IH]; intros i c0 c1 H0 H1.
  - destruct i; discriminate H0.
  - destruct t as [ | c' t']; [destruct i; discriminate H1 | ].
    destruct i as [ | i'].
    + cbn in *. congruence.
    + cbn [tl combine map nth_error]. apply IH; assumption.
Qed.

(** *** The inner loop *)

(** What [for poly in polys] adds to the axes when it returns. *)
Lemma plot_polys_returned (depth : num) (wc sc ec : color num) (show : bool)
  (polys : list (Polygon num)) :
  forall ax ax',
    plot_polys geo depth wc sc ec show polys ax = Ok ax' ->
    Forall (fun p => exterior p <> []) polys
    /\ map (@verts num) (ax_collections ax')
       = map (@verts num) (ax_collections ax)
         ++ flat_map (fun p => ring_mesh (exterior p) depth) polys
    /\ ax_xs ax' = ax_xs ax ++ flat_map (fun p => map (@cx num) (exterior p)) polys
    /\ ax_ys ax' = ax_ys ax ++ flat_map (fun p => map (@cy num) (exterior p)) polys
    /\ ax_texts ax'
       = ax_texts ax
         ++ (if show then map (fun p => depth_label geo (p, depth)) polys else []).
Proof.
  induction polys as [ | p ps IH]; intros ax ax' Hrun.
  - cbn in Hrun. injection Hrun as <-. split; [constructor | ].
    cbn [flat_map map]. rewrite !app_nil_r. repeat split.
    destruct show; now rewrite app_nil_r.
  - cbn [plot_polys] in Hrun. unfold plot_poly in Hrun.
    destruct (exterior p) as [ | c0 rest] eqn:Hcoords.
    + rewrite extrusion_of_nothing in Hrun by exact Hcoords. discriminate Hrun.
    + assert (Hring : exterior p <> []) by (rewrite Hcoords; discriminate).
      destruct (extrusion_is_ring_mesh p depth wc sc ec Hring)
        as [top [bottom [sides [Hadded Hmesh]]]].
      rewrite Hadded in Hrun. cbn [bind] in Hrun.
      apply IH in Hrun. cbn [ax_collections ax_xs ax_ys ax_texts] in Hrun.
      destruct Hrun as [Hall [Hverts [Hxs [Hys Htexts]]]].
      split; [constructor; [rewrite Hcoords; discriminate | exact Hall] | ].
      cbn [flat_map]. rewrite Hcoords in Hmesh.
      split; [ | split; [ | split]].
      * rewrite Hverts, map_app, Hmesh, Hcoords. now rewrite <- !app_assoc.
      * rewrite Hxs, Hcoords. now rewrite <- app_assoc.
      * rewrite Hys, Hcoords. now rewrite <- app_assoc.
      * rewrite Htexts. unfold depth_label. cbn [fst snd].
        destruct show; cbn [map]; now rewrite <- app_assoc.
Qed.

(** The inner loop returns when every ring has coordinates, and otherwise
    ends in the [ValueError] of a constructor. *)
Lemma plot_polys_outcome (depth : num) (wc sc ec : color num) (show : bool)
  (polys : list (Polygon num)) :
  forall ax,
    (Forall (fun p => exterior p <> []) polys
     /\ exists ax', plot_polys geo depth wc sc ec show polys ax = Ok ax')
    \/ (Exists (fun p => exterior p = []) polys
        /\ plot_polys geo depth wc sc ec show polys ax
           = Raise (ValueError "not enough values to unpack (expected 3, got 0)")).
Proof.
  induction polys as [ | p ps IH]; intros ax.
  - left. split; [constructor | now eexists].
  - cbn [plot_polys]. unfold plot_poly.
    destruct (exterior p) as [ | c0 rest] eqn:Hcoords.
    + right. split; [now left | ].
      now rewrite extrusion_of_nothing by exact Hcoords.
    + assert (Hring : exterior p <> []) by (rewrite Hcoords; discriminate).
      destruct (extrusion_is_ring_mesh p depth wc sc ec Hring)
        as [top [bottom [sides [Hadded _]]]].
      rewrite Hadded. cbn [bind].
      match goal with
      | |- context [plot_polys geo depth wc sc ec show ps ?a] =>
          destruct (IH a) as [[Hall Hok] | [Hex Hraise]]
      end.
      * left. split; [constructor; [exact Hring | exact Hall] | exact Hok].
      * right. split; [now right | exact Hraise].
Qed.

(** *** The outer loop *)

Lemma flat_map_of_map (A B C : Type) (f : A -> B) (g : B -> list C) (l : list A) :
  flat_map g (map f l) = flat_map (fun x => g (f x)) l.
Proof.
  induction l as [ | x t IH]; [reflexivity | ]. cbn. now rewrite IH.
Qed.

Lemma features_cons (g : option (Geometry num)) (gs : list (option (Geometry num)))
  (d : num) (ds : list num) :
  features (g :: gs) (d :: ds) = map (fun p => (p, d)) (parts g) ++ features gs ds.
Proof. reflexivity. Qed.

(** What the loop over the records adds to the axes when it returns. *)
Lemma plot_features_returned (show : bool) (geoms : list (option (Geometry num))) :
  forall (ds ns pre_d pre_n : list num) (ax ax' : Axes num),
    List.length pre_d = List.length pre_n ->
    plot_features geo plt (List.length pre_d) geoms (pre_d ++ ds) (pre_n ++ ns)
      show ax = Ok ax' ->
    Forall (fun g => polygonal g = true) geoms
    /\ (List.length geoms <= List.length ds)%nat
    /\ Forall (fun pd => exterior (fst pd) <> []) (features geoms ds)
    /\ map (@verts num) (ax_collections ax')
       = map (@verts num) (ax_collections ax)
         ++ flat_map (fun pd => ring_mesh (exterior (fst pd)) (snd pd))
                     (features geoms ds)
    /\ ax_xs ax'
       = ax_xs ax
         ++ flat_map (fun pd => map (@cx num) (exterior (fst pd))) (features geoms ds)
    /\ ax_ys ax'
       = ax_ys ax
         ++ flat_map (fun pd => map (@cy num) (exterior (fst pd))) (features geoms ds)
    /\ ax_texts ax'
       = ax_texts ax
         ++ (if show then map (depth_label geo) (features geoms ds) else []).
Proof.
  induction geoms as [ | g gs IH]; intros ds ns pre_d pre_n ax ax' Hpre Hrun.
  - cbn in Hrun. injection Hrun as <-.
    split; [constructor | ]. split; [cbn; lia | ]. split; [constructor | ].
    cbn [features combine flat_map]. rewrite !app_nil_r. repeat split.
    destruct show; now rewrite app_nil_r.
  - cbn [plot_features] in Hrun.
    destruct (polygonal g) eqn:Hg.
    2:{ destruct (polys_of_not_polygonal g Hg) as [msg Hmsg].
        rewrite Hmsg in Hrun. discriminate Hrun. }
    rewrite (polys_of_polygonal g Hg) in Hrun. cbn [bind] in Hrun.
    destruct ds as [ | d ds'].
    { rewrite index_past_the_end in Hrun. discriminate Hrun. }
    rewrite index_middle in Hrun. cbn [bind] in Hrun.
    destruct ns as [ | n ns'].
    { rewrite Hpre, index_past_the_end in Hrun. discriminate Hrun. }
    rewrite Hpre, index_middle in Hrun. cbn [bind] in Hrun. rewrite <- Hpre in Hrun.
    match type of Hrun with
    | bind (plot_polys geo d ?wc ?sc ?ec show (parts g) ax) _ = _ =>
        destruct (plot_polys geo d wc sc ec show (parts g) ax) as [ax1 | e] eqn:Hpolys;
          [ | discriminate Hrun];
        apply plot_polys_returned in Hpolys
    end.
    cbn [bind] in Hrun.
    replace (S (List.length pre_d)) with (List.length (pre_d ++ [d])) in Hrun
      by (rewrite length_app; cbn; lia).
    replace (pre_d ++ d :: ds') with ((pre_d ++ [d]) ++ ds') in Hrun
      by (now rewrite <- app_assoc).
    replace (pre_n ++ n :: ns') with ((pre_n ++ [n]) ++ ns') in Hrun
      by (now rewrite <- app_assoc).
    apply IH in Hrun; [ | rewrite !length_app; cbn; lia].
    destruct Hpolys as [Hrings1 [Hverts1 [Hxs1 [Hys1 Htexts1]]]].
    destruct Hrun as [Hpoly [Hlen [Hrings [Hverts [Hxs [Hys Htexts]]]]]].
    split; [now constructor | ]. split; [cbn; lia | ].
    rewrite features_cons. split; [ | split; [ | split; [ | split]]].
    + apply Forall_app. split; [ | exact Hrings].
      apply Forall_map. cbn [fst]. exact Hrings1.
    + rewrite Hverts, Hverts1, flat_map_app, <- app_assoc. f_equal. f_equal.
      now rewrite flat_map_of_map.
    + rewrite Hxs, Hxs1, flat_map_app, <- app_assoc. f_equal. f_equal.
      now rewrite flat_map_of_map.
    + rewrite Hys, Hys1, flat_map_app, <- app_assoc. f_equal. f_equal.
      now rewrite flat_map_of_map.
    + rewrite Htexts, Htexts1. destruct show.
      * rewrite map_app, map_map, <- app_assoc. reflexivity.
      * now rewrite !app_nil_r.
Qed.

(** With a depth for every record the loop returns, or it ends in the
    [AttributeError] of a record that is no polygon or in the [ValueError]
    of a ring without coordinates, whichever comes first. *)
Lemma plot_features_outcome (show : bool) (geoms : list (option (Geometry num))) :
  forall (ds ns pre_d pre_n : list num) (ax : Axes num),
    (List.length geoms <= List.length ds)%nat ->
    (List.length geoms <= List.length ns)%nat ->
    List.length pre_d = List.length pre_n ->
    (Forall (fun g => polygonal g = true) geoms
     /\ Forall (fun r => r <> []) (map (@exterior num) (flat_map parts geoms))
     /\ exists ax',
          plot_features geo plt (List.length pre_d) geoms (pre_d ++ ds)
            (pre_n ++ ns) show ax = Ok ax')
    \/ (Exists (fun g => polygonal g = false) geoms
        /\ exists msg,
             plot_features geo plt (List.length pre_d) geoms (pre_d ++ ds)
               (pre_n ++ ns) show ax = Raise (AttributeError msg))
    \/ (Exists (fun r => r = []) (map (@exterior num) (flat_map parts geoms))
        /\ plot_features geo plt (List.length pre_d) geoms (pre_d ++ ds)
             (pre_n ++ ns) show ax
           = Raise (ValueError "not enough values to unpack (expected 3, got 0)")).
Proof.
  induction geoms as [ | g gs IH]; intros ds ns pre_d pre_n ax Hd Hn Hpre.
  - left. split; [constructor | ]. split; [constructor | now eexists].
  - cbn [plot_features].
    destruct (polygonal g) eqn:Hg.
    2:{ right. left. split; [now left | ].
        destruct (polys_of_not_polygonal g Hg) as [msg Hmsg].
        rewrite Hmsg. now exists msg. }
    rewrite (polys_of_polygonal g Hg). cbn [bind].
    destruct ds as [ | d ds']; [cbn in Hd; lia | ].
    destruct ns as [ | n ns']; [cbn in Hn; lia | ].
    rewrite index_middle. cbn [bind].
    rewrite Hpre, index_middle. cbn [bind]. rewrite <- Hpre.
    cbn [flat_map]. rewrite map_app.
    match goal with
    | |- context [plot_polys geo d ?wc ?sc ?ec show (parts g) ax] =>
        destruct (plot_polys_outcome d wc sc ec show (parts g) ax)
          as [[Hrings1 [ax1 Hok]] | [Hempty Hraise]]
    end.
    + rewrite Hok. cbn [bind].
      replace (S (List.length pre_d)) with (List.length (pre_d ++ [d]))
        by (rewrite length_app; cbn; lia).
      replace (pre_d ++ d :: ds') with ((pre_d ++ [d]) ++ ds')
        by (now rewrite <- app_assoc).
      replace (pre_n ++ n :: ns') with ((pre_n ++ [n]) ++ ns')
        by (now rewrite <- app_assoc).
      destruct (IH ds' ns' (pre_d ++ [d]) (pre_n ++ [n]) ax1)
        as [[Hpoly [Hrings Hrun]] | [[Hex Hrun] | [Hex Hrun]]];
        try (cbn in Hd, Hn; lia); try (rewrite !length_app; cbn; lia).
      * left. split; [now constructor | ]. split; [ | exact Hrun].
        apply Forall_app. split; [ | exact Hrings]. now apply Forall_map.
      * right. left. split; [now right | exact Hrun].
      * right. right. split; [ | exact Hrun].
        apply Exists_app. now right.
    + right. right. rewrite Hraise. split; [ | reflexivity].
      apply Exists_app. left. apply Exists_exists.
      apply Exists_exists in Hempty. destruct Hempty as [p [Hp Hnil]].
      exists (exterior p). split; [now apply in_map | exact Hnil].
Qed.

(** The polygons of a frame with their depths are the parts of its records,
    when there is a depth for every record. *)
Lemma features_polygons (geoms : list (option (Geometry num))) :
  forall ds, (List.length geoms <= List.length ds)%nat ->
    map fst (features geoms ds) = flat_map parts geoms.
Proof.
  induction geoms as [ | g gs IH]; intros ds Hd; [reflexivity | ].
  destruct ds as [ | d ds']; [cbn in Hd; lia | ].
  rewrite features_cons, map_app, map_map. cbn [fst flat_map].
  rewrite map_id, IH by (cbn in Hd; lia). reflexivity.
Qed.

(** *** Lines 113-120 *)

Lemma normalize_length (v : list num) (mn mx : num) :
  List.length (fst (normalize v mn mx)) = List.length v.
Proof.
  unfold normalize. destruct (fgtb mx mn); cbn [fst]; apply length_map.
Qed.

Lemma normalize_int_length (bits : Z) (v : list Z) (mn mx : Z) :
  List.length (fst (normalize_int bits v mn mx)) = List.length v.
Proof.
  unfold normalize_int. destruct (mn <? mx)%Z; cbn [fst]; apply length_map.
Qed.

(** When the lines return there is a depth and a normalised depth for every
    entry of the array, and the array is numeric and not empty. *)
Lemma depth_statistics_returned (a : array num) (d : @Depths num) :
  depth_statistics a = Ok d ->
  numeric a = true /\ size a <> 0%nat
  /\ List.length (depths d) = size a
  /\ List.length (normalized_depths d) = size a.
Proof.
  destruct a as [v | bits v | v | v]; cbn [depth_statistics numeric size];
    try discriminate.
  - destruct v as [ | x rest]; [discriminate | ]. cbn [np_min np_max bind].
    intros [= <-]. cbn [depths normalized_depths].
    rewrite normalize_length. repeat split. discriminate.
  - destruct v as [ | x rest]; [discriminate | ]. cbn [int_min int_max bind].
    intros [= <-]. cbn [depths normalized_depths].
    rewrite normalize_int_length. cbn [List.length]. rewrite ?length_map.
    repeat split. discriminate.
Qed.

Lemma depth_statistics_returns (a : array num) :
  numeric a = true -> size a <> 0%nat -> exists d, depth_statistics a = Ok d.
Proof.
  destruct a as [v | bits v | v | v]; cbn [numeric size]; try discriminate;
    intros _ Hsize; (destruct v as [ | x rest]; [contradiction | ]);
    cbn; now eexists.
Qed.

Lemma object_reduce_error (cmp : pyobject -> pyobject -> result bool)
  (op : string) :
  (forall a b e, cmp a b = Raise e -> e = not_supported op a b) ->
  forall rest a e, object_reduce cmp a rest = Raise e -> exists msg, e = TypeError msg.
Proof.
  intros Hcmp. induction rest as [ | x rest IH]; intros a e; cbn.
  - discriminate.
  - destruct (cmp a x) as [b | e'] eqn:Hax; cbn [bind].
    + apply IH.
    + intros [= <-]. rewrite (Hcmp _ _ _ Hax). now eexists.
Qed.

(** On a non-numeric array the lines end in [ValueError] or [TypeError]. *)
Lemma object_depths_error (v : list pyobject) :
  (exists msg, object_depths v = ValueError msg)
  \/ (exists msg, object_depths v = TypeError msg).
Proof.
  unfold object_depths. destruct v as [ | x rest]; [left; now eexists | ].
  destruct (object_reduce object_le x rest) as [mn | e] eqn:Hmin.
  2:{ right. apply (@object_reduce_error object_le "<=") in Hmin; [exact Hmin | ].
      intros [s | | c] [t | | c'] e'; cbn; congruence. }
  destruct (object_reduce object_ge x rest) as [mx | e] eqn:Hmax.
  2:{ right. apply (@object_reduce_error object_ge ">=") in Hmax; [exact Hmax | ].
      intros [s | | c] [t | | c'] e'; cbn; congruence. }
  destruct (object_gt mx mn) as [[ | ] | e] eqn:Hgt.
  - right. now eexists.
  - left. now eexists.
  - right. destruct mx as [s | | c], mn as [t | | c']; cbn in Hgt;
      try discriminate Hgt; injection Hgt as <-; now eexists.
Qed.

Lemma depth_statistics_outcome (a : array num) :
  (exists d, depth_statistics a = Ok d)
  \/ (exists msg, depth_statistics a = Raise (ValueError msg))
  \/ (numeric a = false /\ exists msg, depth_statistics a = Raise (TypeError msg)).
Proof.
  destruct a as [v | bits v | v | v]; cbn [depth_statistics numeric].
  - destruct v as [ | x rest]; [right; left; now eexists | left; now eexists].
  - destruct v as [ | x rest]; [right; left; now eexists | left; now eexists].
  - destruct (object_depths_error (map str_or_none v)) as [[msg ->] | [msg ->]].
    + right. left. now eexists.
    + right. right. split; [reflexivity | now eexists].
  - destruct (object_depths_error (map (@geometry_object num) v))
      as [[msg ->] | [msg ->]].
    + right. left. now eexists.
    + right. right. split; [reflexivity | now eexists].
Qed.

(** *** The renderer *)

(** What a returned figure is made of. *)
Lemma renderer_returned (gdf : GeoDataFrame num) (show : bool)
  (depth_column : option string) (s : rng) (log : list (printed num))
  (fig : Figure num) :
  plot_extruded_3d geo plt (Some gdf) show depth_column s = (log, Ok fig) ->
  exists a d,
    snd (resolve_depths plt gdf depth_column s) = Ok a
    /\ depth_statistics a = Ok d
    /\ Forall (fun g => polygonal g = true) (geometry gdf)
    /\ (len gdf <= List.length (depths d))%nat
    /\ Forall (fun r => r <> []) (rings gdf)
    /\ map (@verts num) (collections fig)
       = flat_map (fun pd => ring_mesh (exterior (fst pd)) (snd pd))
                  (features (geometry gdf) (depths d))
    /\ texts fig
       = (if show then map (depth_label geo) (features (geometry gdf) (depths d))
          else [])
    /\ axis_limits (collected_xs gdf) (collected_ys gdf) (max_depth d)
       = Ok (limits fig).
Proof.
  unfold plot_extruded_3d.
  destruct (resolve_depths plt gdf depth_column s) as [msgs [a | e]];
    [ | discriminate].
  destruct (depth_statistics a) as [d | e] eqn:Hstat; [ | discriminate].
  intros [= _ Hrun].
  destruct (plot_features geo plt 0 (geometry gdf) (depths d)
              (normalized_depths d) show (mkAxes [] [] [] [])) as [ax | e]
    eqn:Hloop; [ | discriminate Hrun].
  cbn [bind] in Hrun.
  destruct (axis_limits (ax_xs ax) (ax_ys ax) (max_depth d)) as [lims | e]
    eqn:Hlims; [ | discriminate Hrun].
  cbn [bind] in Hrun. injection Hrun as <-.
  apply (@plot_features_returned show (geometry gdf) (depths d)
           (normalized_depths d) [] [] _ _ eq_refl) in Hloop.
  cbn [ax_collections ax_xs ax_ys ax_texts map app] in Hloop.
  destruct Hloop as [Hpoly [Hlen [Hrings [Hverts [Hxs [Hys Htexts]]]]]].
  assert (Hparts : map fst (features (geometry gdf) (depths d))
            = flat_map parts (geometry gdf)) by now apply features_polygons.
  exists a, d. cbn [snd collections texts limits].
  split; [reflexivity | ]. split; [exact Hstat | ]. split; [exact Hpoly | ].
  split; [exact Hlen | ]. split.
  { unfold rings. rewrite <- Hparts, map_map. apply Forall_map. exact Hrings. }
  split; [exact Hverts | ]. split; [exact Htexts | ].
  rewrite <- Hlims, Hxs, Hys. unfold collected_xs, collected_ys, rings.
  rewrite <- Hparts, !map_map, !flat_map_of_map. reflexivity.
Qed.

(** The renderer returns a figure when the depth array is numeric, every
    record is a polygon, every ring has coordinates, and the limits are
    finite. *)
Lemma renderer_returns (gdf : GeoDataFrame num) (show : bool)
  (depth_column : option string) (s : rng) (a : array num) (d : @Depths num)
  (lims : option ((num * num) * (num * num) * (num * num))) :
  well_formed gdf ->
  Forall (fun g => polygonal g = true) (geometry gdf) ->
  Forall (fun r => r <> []) (rings gdf) ->
  snd (resolve_depths plt gdf depth_column s) = Ok a ->
  depth_statistics a = Ok d ->
  axis_limits (collected_xs gdf) (collected_ys gdf) (max_depth d) = Ok lims ->
  exists log fig,
    plot_extruded_3d geo plt (Some gdf) show depth_column s = (log, Ok fig)
    /\ limits fig = lims.
Proof.
  intros Hwf Hpoly Hrings Hres Hstat Hlims.
  destruct (resolve_depths_size plt depth_column s Hwf)
    as [msgs [a' [Hres' Hsize]]].
  rewrite Hres' in Hres. cbn [snd] in Hres. injection Hres as ->.
  destruct (@depth_statistics_returned a d Hstat) as [_ [_ [Hdl Hnl]]].
  destruct (plot_features_outcome show (geometry gdf) (depths d)
              (normalized_depths d) [] [] (mkAxes [] [] [] []))
    as [[_ [_ [ax Hloop]]] | [[Hex _] | [Hex _]]];
    try (unfold len in *; lia); try reflexivity.
  - cbn [List.length app] in Hloop.
    assert (Hfig : exists log fig,
              plot_extruded_3d geo plt (Some gdf) show depth_column s
              = (log, Ok fig)).
    { unfold plot_extruded_3d. rewrite Hres', Hstat.
      rewrite Hloop. cbn [bind].
      pose proof (@plot_features_returned show (geometry gdf) (depths d)
                    (normalized_depths d) [] [] _ _ eq_refl Hloop) as Hax.
      cbn [ax_xs ax_ys app] in Hax.
      destruct Hax as [_ [Hlen [_ [_ [Hxs [Hys _]]]]]].
      assert (Hparts : map fst (features (geometry gdf) (depths d))
                = flat_map parts (geometry gdf)) by now apply features_polygons.
      assert (Hsame : axis_limits (ax_xs ax) (ax_ys ax) (max_depth d) = Ok lims).
      { rewrite <- Hlims, Hxs, Hys. unfold collected_xs, collected_ys, rings.
        rewrite <- Hparts, !map_map, !flat_map_of_map. reflexivity. }
      rewrite Hsame. cbn [bind]. now eexists _, _. }
    destruct Hfig as [log [fig Hfig]]. exists log, fig. split; [exact Hfig | ].
    destruct (renderer_returned _ _ _ _ Hfig)
      as [a2 [d2 [Hres2 [Hstat2 [_ [_ [_ [_ [_ Hlims2]]]]]]]]].
    rewrite Hres' in Hres2. cbn [snd] in Hres2. injection Hres2 as <-.
    rewrite Hstat in Hstat2. injection Hstat2 as <-.
    rewrite Hlims in Hlims2. now injection Hlims2.
  - exfalso. apply Exists_exists in Hex. destruct Hex as [g [Hin Hg]].
    rewrite Forall_forall in Hpoly. specialize (Hpoly g Hin). congruence.
  - exfalso. apply Exists_exists in Hex. destruct Hex as [r [Hin Hr]].
    unfold rings in Hrings. rewrite Forall_forall in Hrings.
    now apply (Hrings r Hin).
Qed.

Lemma faces_of_features (fs : list (Polygon num * num)) :
  list_sum (map (@List.length _)
              (flat_map (fun pd => ring_mesh (exterior (fst pd)) (snd pd)) fs))
    = list_sum (map (fun pd => 1 + 1 + (List.length (exterior (fst pd)) - 1))%nat fs).
Proof.
  induction fs as [ | pd rest IH]; [reflexivity | ].
  cbn [flat_map map]. rewrite map_app, list_sum_app, IH.
  unfold ring_mesh. cbn [map list_sum List.length].
  rewrite length_map, walls_length. unfold list_sum. cbn [fold_right]. lia.
Qed.

Lemma features_of_polygons (polys : list (Polygon num)) :
  forall ds, (List.length polys <= List.length ds)%nat ->
    map fst (features (map (fun p => Some (GPolygon p)) polys) ds) = polys.
Proof.
  unfold features.
  induction polys as [ | p ps IH]; intros ds Hd; [reflexivity | ].
  destruct ds as [ | d ds']; [cbn in Hd; lia | ].
  cbn. f_equal. apply IH. cbn in Hd. lia.
Qed.

Lemma list_sum_constant (A : Type) (g : A -> nat) (c : nat) (l : list A) :
  Forall (fun x => g x = c) l -> list_sum (map g l) = (List.length l * c)%nat.
Proof.
  induction 1 as [ | x t Hx _ IH]; [reflexivity | ].
  cbn [map List.length]. change (list_sum (g x :: map g t))
    with (g x + list_sum (map g t))%nat. rewrite Hx, IH. lia.
Qed.

End Mesh.
(** C1.  Every figure the renderer returns has as its collections, ring
    after ring in loop order, the mesh of the specification: one top face,
    the exterior ring lifted to the base elevation 0.0 plus depth * 0.05; one
    bottom face, the ring at the base elevation; and the walls, one
    quadrilateral for each pair of consecutive vertices [coords[i]],
    [coords[i+1]], that is n - 1 walls for a ring of n vertices (n is at
    least 1 in a returned figure) and none from the last vertex back to the
    first.  The number of faces is therefore the sum of 1 + 1 + (n - 1) over
    the rings, and k * (1 + 1 + (n - 1)) for k polygons of n vertices each.
    And the renderer does return a figure on a frame with one value per
    record in each column when every record is a Polygon or MultiPolygon,
    every exterior ring has a coordinate, lines 113-120 return on the depth
    array (it is numeric and not empty) and the limits of lines 216-219 are
    accepted (they are finite). *)
Theorem C1_mesh_is_top_bottom_and_consecutive_walls :
  forall (num : Type) (F : PyFloat num) (geo : GeometryLib num) (rng : Type)
         (plt : PlotLib num rng) (gdf : GeoDataFrame num)
         (show_depth_labels : bool) (depth_column : option string) (s : rng),
    (forall log fig,
       plot_extruded_3d geo plt (Some gdf) show_depth_labels depth_column s
         = (log, Ok fig) ->
       exists a d,
         snd (resolve_depths plt gdf depth_column s) = Ok a
         /\ depth_statistics a = Ok d
         /\ Forall (fun r => r <> []) (rings gdf)
         /\ map (@verts num) (collections fig)
            = flat_map (fun pd => ring_mesh (exterior (fst pd)) (snd pd))
                       (features (geometry gdf) (depths d))
         /\ mesh_count fig
            = list_sum (map (fun pd => 1 + 1 + (List.length (exterior (fst pd)) - 1))%nat
                            (features (geometry gdf) (depths d)))
         /\ (forall (polys : list (Polygon num)) (n : nat),
               geometry gdf = map (fun p => Some (GPolygon p)) polys ->
               Forall (fun p => List.length (exterior p) = n) polys ->
               mesh_count fig = (List.length polys * (1 + 1 + (n - 1)))%nat))
    /\ (forall (coords : ring num) (depth : num),
          exists top bottom walls,
            ring_mesh coords depth = [[top]; [bottom]; walls]
            /\ top = map (lift (fadd base_z (fmul depth (lit 0.05)))) coords
            /\ bottom = map (lift base_z) coords
            /\ List.length walls = (List.length coords - 1)%nat
            /\ forall i c0 c1,
                 nth_error coords i = Some c0 ->
                 nth_error coords (S i) = Some c1 ->
                 nth_error walls i
                   = Some (wall (fadd base_z (fmul depth (lit 0.05))) c0 c1))
    /\ (forall a d lims,
          well_formed gdf ->
          Forall (fun g => polygonal g = true) (geometry gdf) ->
          Forall (fun r => r <> []) (rings gdf) ->
          snd (resolve_depths plt gdf depth_column s) = Ok a ->
          depth_statistics a = Ok d ->
          axis_limits (collected_xs gdf) (collected_ys gdf) (max_depth d) = Ok lims ->
          exists log fig,
            plot_extruded_3d geo plt (Some gdf) show_depth_labels depth_column s
              = (log, Ok fig)).
Proof.
  intros num F geo rng plt gdf show_depth_labels depth_column s.
  split; [ | split].
  - intros log fig Hrun.
    destruct (renderer_returned _ _ _ _ _ _ Hrun)
      as [a [d [Hres [Hstat [Hpoly [Hlen [Hrings [Hverts _]]]]]]]].
    assert (Hcount : mesh_count fig
              = list_sum (map (fun pd => 1 + 1 + (List.length (exterior (fst pd)) - 1))%nat
                              (features (geometry gdf) (depths d)))).
    { unfold mesh_count. rewrite <- faces_of_features, <- Hverts, map_map.
      reflexivity. }
    exists a, d. split; [exact Hres | ]. split; [exact Hstat | ].
    split; [exact Hrings | ]. split; [exact Hverts | ]. split; [exact Hcount | ].
    intros polys n Hgeom Hn. rewrite Hcount.
    rewrite <- (map_map fst (fun p => 1 + 1 + (List.length (exterior p) - 1))%nat).
    rewrite Hgeom, features_of_polygons.
    + apply list_sum_constant. eapply Forall_impl; [ | exact Hn].
      cbn. intros p Hp. now rewrite Hp.
    + unfold len in Hlen. rewrite Hgeom, length_map in Hlen. exact Hlen.
  - intros coords depth. eexists _, _, _. split; [reflexivity | ].
    split; [reflexivity | ]. split; [reflexivity | ]. split.
    + rewrite length_map. apply walls_length.
    + apply walls_nth.
  - intros a d lims Hwf Hpoly Hrings Hres Hstat Hlims.
    destruct (renderer_returns geo plt show_depth_labels depth_column s
                Hwf Hpoly Hrings Hres Hstat Hlims) as [log [fig [Hrun _]]].
    now exists log, fig.
Qed.

Lemma C1_witness_three_squares :
  exists log fig,
    plot_extruded_3d plain_geometry_lib toy_plot_lib (Some three_squares)
      false None 0%nat = (log, Ok fig)
    /\ mesh_count fig = (3 * (1 + 1 + (5 - 1)))%nat.
Proof.
  destruct (@C1_mesh_is_top_bottom_and_consecutive_walls
              Q ExactFloat plain_geometry_lib nat toy_plot_lib three_squares
              false None 0%nat) as [Hshape [_ Hreturns]].
  edestruct Hreturns as [log [fig Hrun]].
  - constructor.
  - repeat constructor.
  - repeat constructor; discriminate.
  - reflexivity.
  - reflexivity.
  - reflexivity.
  - exists log, fig. split; [exact Hrun | ].
    destruct (Hshape log fig Hrun) as [a [d [_ [_ [_ [_ [_ Hk]]]]]]].
    apply (Hk [unit_square; unit_square; unit_square] 5%nat).
    + reflexivity.
    + repeat constructor.
Defined.

(** ** Interior rings (C10) *)

Section Holes.

Context {num : Type} {F : PyFloat num}.
Variable geo : GeometryLib num.
Variable rng : Type.
Variable plt : PlotLib num rng.

Lemma len_without_holes (gdf : GeoDataFrame num) :
  len (without_holes gdf) = len gdf.
Proof. unfold len, without_holes. cbn [geometry]. apply length_map. Qed.

(** Lines 113-120 see the same depths: only the geometry column differs,
    and filling a geometry keeps its type. *)
Lemma geometry_object_filled (v : list (option (Geometry num))) :
  map (@geometry_object num) (map (@fill_geometry num) v)
    = map (@geometry_object num) v.
Proof.
  rewrite map_map. apply map_ext. intros [[ | | | ] | ]; reflexivity.
Qed.

Lemma values_without_holes (gdf : GeoDataFrame num) (col : string) :
  match values (without_holes gdf) col, values gdf col with
  | Ok a', Ok a => depth_statistics a' = depth_statistics a
  | Raise e', Raise e => e' = e
  | _, _ => False
  end.
Proof.
  unfold values. cbn [without_holes columns geometry].
  destruct (column_values (columns gdf) col) as [a | ]; [reflexivity | ].
  destruct (String.eqb col "geometry"); [ | reflexivity].
  cbn [depth_statistics]. now rewrite geometry_object_filled.
Qed.

Lemma try_columns_without_holes (gdf : GeoDataFrame num) (cols : list string)
  (s : rng) :
  fst (try_columns plt (without_holes gdf) cols s)
    = fst (try_columns plt gdf cols s)
  /\ match snd (try_columns plt (without_holes gdf) cols s),
           snd (try_columns plt gdf cols s) with
     | Ok a', Ok a => depth_statistics a' = depth_statistics a
     | Raise e', Raise e => e' = e
     | _, _ => False
     end.
Proof.
  induction cols as [ | col rest IH]; cbn [try_columns].
  - rewrite len_without_holes. now split.
  - change (has_column (without_holes gdf) col) with (has_column gdf col).
    destruct (has_column gdf col); [ | exact IH].
    split; [reflexivity | apply values_without_holes].
Qed.

Lemma resolve_depths_without_holes (gdf : GeoDataFrame num)
  (depth_column : option string) (s : rng) :
  fst (resolve_depths plt (without_holes gdf) depth_column s)
    = fst (resolve_depths plt gdf depth_column s)
  /\ match snd (resolve_depths plt (without_holes gdf) depth_column s),
           snd (resolve_depths plt gdf depth_column s) with
     | Ok a', Ok a => depth_statistics a' = depth_statistics a
     | Raise e', Raise e => e' = e
     | _, _ => False
     end.
Proof.
  unfold resolve_depths. destruct depth_column as [c | ].
  - change (has_column (without_holes gdf) c) with (has_column gdf c).
    destruct (truthy (Some c) && has_column gdf c)%bool.
    + split; [reflexivity | apply values_without_holes].
    + apply try_columns_without_holes.
  - apply try_columns_without_holes.
Qed.

Lemma extrusion_filled (p : Polygon num) (depth : num) (wc sc ec : color num) :
  extrusion (fill_polygon p) depth wc sc ec = extrusion p depth wc sc ec.
Proof. reflexivity. Qed.

Lemma plot_polys_filled (depth : num) (wc sc ec : color num) (show : bool)
  (polys : list (Polygon num)) :
  forall ax ax',
    same_drawing ax ax' ->
    match plot_polys geo depth wc sc ec show polys ax,
          plot_polys geo depth wc sc ec show (map fill_polygon polys) ax' with
    | Ok a, Ok a' => same_drawing a a'
    | Raise e, Raise e' => e = e'
    | _, _ => False
    end.
Proof.
  induction polys as [ | p ps IH]; intros ax ax' Hsame; [exact Hsame | ].
  cbn [map plot_polys]. unfold plot_poly. rewrite extrusion_filled.
  destruct (extrusion p depth wc sc ec) as [added | e]; cbn [bind];
    [ | reflexivity].
  apply IH. destruct Hsame as [Hc [Hx Hy]].
  unfold same_drawing. cbn [ax_collections ax_xs ax_ys fill_polygon exterior].
  now rewrite Hc, Hx, Hy.
Qed.

Lemma polys_of_filled (g : option (Geometry num)) :
  polys_of (fill_geometry g)
    = match polys_of g with
      | Ok ps => Ok (map fill_polygon ps)
      | Raise e => Raise e
      end.
Proof. destruct g as [[ | | | ] | ]; reflexivity. Qed.

Lemma plot_features_filled (show : bool) (ds ns : list num)
  (geoms : list (option (Geometry num))) :
  forall idx ax ax',
    same_drawing ax ax' ->
    match plot_features geo plt idx geoms ds ns show ax,
          plot_features geo plt idx (map fill_geometry geoms) ds ns show ax' with
    | Ok a, Ok a' => same_drawing a a'
    | Raise e, Raise e' => e = e'
    | _, _ => False
    end.
Proof.
  induction geoms as [ | g gs IH]; intros idx ax ax' Hsame.
  - exact Hsame.
  - cbn [map plot_features]. rewrite polys_of_filled.
    destruct (polys_of g) as [ps | e]; cbn [bind]; [ | reflexivity].
    destruct (index ds idx) as [d | e]; cbn [bind]; [ | reflexivity].
    destruct (index ns idx) as [n | e]; cbn [bind]; [ | reflexivity].
    match goal with
    | |- context [plot_polys geo d ?wc ?sc ?ec show ps ax] =>
        pose proof (plot_polys_filled d wc sc ec show ps Hsame) as Hpolys;
        destruct (plot_polys geo d wc sc ec show ps ax) as [a | e];
        destruct (plot_polys geo d wc sc ec show (map fill_polygon ps) ax')
          as [a' | e']; cbn [bind]; try contradiction
    end.
    + now apply IH.
    + exact Hpolys.
Qed.

End Holes.

(** C10.  Rendering a frame and rendering the same frame with every interior
    ring removed print the same lines and either raise the same exception or
    give figures with the same collections (top faces, bottom faces, side
    walls) and the same axis limits: holes contribute no geometry and do not
    move the limits. *)
Theorem C10_interior_rings_contribute_nothing :
  forall (num : Type) (F : PyFloat num) (geo : GeometryLib num) (rng : Type)
         (plt : PlotLib num rng) (gdf : GeoDataFrame num)
         (show_depth_labels : bool) (depth_column : option string) (s : rng),
    fst (plot_extruded_3d geo plt (Some (without_holes gdf))
           show_depth_labels depth_column s)
      = fst (plot_extruded_3d geo plt (Some gdf) show_depth_labels depth_column s)
    /\ mesh_and_limits
         (snd (plot_extruded_3d geo plt (Some (without_holes gdf))
                 show_depth_labels depth_column s))
       = mesh_and_limits
           (snd (plot_extruded_3d geo plt (Some gdf)
                   show_depth_labels depth_column s)).
Proof.
  intros num F geo rng plt gdf show_depth_labels depth_column s.
  unfold plot_extruded_3d.
  destruct (resolve_depths_without_holes plt gdf depth_column s) as [Hmsgs Hres].
  rewrite len_without_holes.
  destruct (resolve_depths plt (without_holes gdf) depth_column s) as [msgs' r'].
  destruct (resolve_depths plt gdf depth_column s) as [msgs r].
  cbn [fst snd] in Hmsgs, Hres. subst msgs'.
  destruct r' as [a' | e']; destruct r as [a | e]; try contradiction;
    [ | subst e'; now split].
  rewrite Hres.
  destruct (depth_statistics a) as [d | e]; [ | now split].
  cbn [fst snd]. split; [reflexivity | ].
  pose proof (plot_features_filled geo plt show_depth_labels (depths d)
                (normalized_depths d) (geometry gdf) 0
                (ax := mkAxes [] [] [] []) (ax' := mkAxes [] [] [] [])) as Hrun.
  cbn [without_holes geometry].
  destruct (plot_features geo plt 0 (geometry gdf) (depths d)
              (normalized_depths d) show_depth_labels
              (mkAxes [] [] [] [])) as [ax | e];
    destruct (plot_features geo plt 0 (map (@fill_geometry num) (geometry gdf))
                (depths d) (normalized_depths d) show_depth_labels
                (mkAxes [] [] [] [])) as [ax' | e'];
    cbn [bind mesh_and_limits collections limits].
  - destruct Hrun as [Hc [Hx Hy]]; [repeat split | ]. rewrite Hc, Hx, Hy.
    destruct (axis_limits (ax_xs ax') (ax_ys ax') (max_depth d)) as [lims | e];
      reflexivity.
  - destruct Hrun. repeat split.
  - destruct Hrun. repeat split.
  - f_equal. symmetry. apply Hrun. repeat split.
Qed.
(** ** A missing depth value *)

#[export] Instance ExactFloat_nan_unordered : NanUnordered Q.
Proof. split; intros x y Hnan; discriminate Hnan. Qed.

Lemma Prim2SF_of_nan (x : float) :
  PrimFloat.is_nan x = true -> Prim2SF x = S754_nan.
Proof. intros Hnan. unfold Prim2SF. now rewrite Hnan. Qed.

#[export] Instance Binary64_nan_unordered : NanUnordered float.
Proof.
  split; intros x y Hnan; cbn in *; rewrite FloatAxioms.ltb_spec;
    rewrite (Prim2SF_of_nan _ Hnan).
  - reflexivity.
  - destruct (Prim2SF x); reflexivity.
Qed.

Section MissingDepth.

Context {num : Type} {F : PyFloat num}.

Lemma fold_np_minimum_nan (rest : list num) :
  forall x,
    isnan x = true \/ Exists (fun d => isnan d = true) rest ->
    isnan (fold_left np_minimum rest x) = true.
Proof.
  induction rest as [ | y t IH]; intros x Hnan; cbn [fold_left].
  - destruct Hnan as [Hx | Hex]; [exact Hx | inversion Hex].
  - apply IH. unfold np_minimum.
    destruct (isnan x) eqn:Hx; [now left | ].
    destruct Hnan as [Hx' | Hex]; [discriminate Hx' | ].
    inversion Hex as [y' t' Hy | y' t' Ht]; subst.
    + rewrite Hy. now left.
    + now right.
Qed.

Lemma fold_np_maximum_nan (rest : list num) :
  forall x,
    isnan x = true \/ Exists (fun d => isnan d = true) rest ->
    isnan (fold_left np_maximum rest x) = true.
Proof.
  induction rest as [ | y t IH]; intros x Hnan; cbn [fold_left].
  - destruct Hnan as [Hx | Hex]; [exact Hx | inversion Hex].
  - apply IH. unfold np_maximum.
    destruct (isnan x) eqn:Hx; [now left | ].
    destruct Hnan as [Hx' | Hex]; [discriminate Hx' | ].
    inversion Hex as [y' t' Hy | y' t' Ht]; subst.
    + rewrite Hy. now left.
    + now right.
Qed.

Lemma nan_in_nonempty (x : num) (rest : list num) :
  Exists (fun d => isnan d = true) (x :: rest) ->
  isnan x = true \/ Exists (fun d => isnan d = true) rest.
Proof. intros Hex. inversion Hex; subst; [now left | now right]. Qed.

End MissingDepth.

(** X6.  When one depth value is NaN (a missing value of the column), [np.min]
    and [np.max] are both NaN, the test [max_depth > min_depth] is false,
    and every record, whatever its own depth, gets the normalised depth 0.5
    without any division: one missing value flattens the colours of the
    whole plot.  This holds in binary64 and in any arithmetic with the same
    two laws. *)
Theorem one_nan_depth_flattens_the_normalisation :
  forall (num : Type) (F : PyFloat num),
    LawfulFloat num -> NanUnordered num ->
    forall (depths : list num) (min_depth max_depth : num),
      Exists (fun d => isnan d = true) depths ->
      np_min depths = Ok min_depth ->
      np_max depths = Ok max_depth ->
      isnan min_depth = true
      /\ isnan max_depth = true
      /\ normalize depths min_depth max_depth
         = (map (fun _ => lit 0.5) depths, []).
Proof.
  intros num F L N depths min_depth max_depth Hnan Hmin Hmax.
  destruct depths as [ | x rest]; [inversion Hnan | ].
  cbn [np_min np_max] in Hmin, Hmax.
  injection Hmin as <-. injection Hmax as <-.
  apply nan_in_nonempty in Hnan.
  assert (Hmn : isnan (fold_left np_minimum rest x) = true)
    by now apply fold_np_minimum_nan.
  split; [exact Hmn | ]. split; [now apply fold_np_maximum_nan | ].
  apply normalize_else_branch. unfold fgtb. now apply nan_not_below.
Qed.

Lemma nan_depth_witness_binary64 :
  normalize (num := float) [1%float; PrimFloat.nan; 3%float]
            PrimFloat.nan PrimFloat.nan
    = ([0.5%float; 0.5%float; 0.5%float], []).
Proof.
  apply (@one_nan_depth_flattens_the_normalisation
           float Binary64 Binary64_lawful Binary64_nan_unordered
           [1%float; PrimFloat.nan; 3%float] PrimFloat.nan PrimFloat.nan).
  - right. left. vm_compute. reflexivity.
  - vm_compute. reflexivity.
  - vm_compute. reflexivity.
Defined.

(** ** The edge colour in binary64 *)

Lemma binary64_nan_not_leb (x y : float) :
  isnan x = true -> fleb x y = false.
Proof.
  intros Hnan. change (PrimFloat.is_nan x = true) in Hnan.
  change (PrimFloat.leb x y = false).
  rewrite FloatAxioms.leb_spec, (Prim2SF_of_nan _ Hnan). reflexivity.
Qed.

(** X7.  In binary64, whatever the colour component [c] is - a number, an
    infinity or NaN - the component [c * 1.2 if c * 1.2 <= 1 else 1] of the
    edge colour is a number that is at most 1. *)
Theorem binary64_edge_component_is_capped_and_never_nan :
  forall c : float,
    fleb (brighten c) (lit 1) = true /\ isnan (brighten c) = false.
Proof.
  intros c. unfold brighten.
  destruct (fleb (fmul c (lit 1.2)) (lit 1)) eqn:Hle.
  - split; [exact Hle | ].
    destruct (isnan (fmul c (lit 1.2))) eqn:Hnan; [ | reflexivity].
    rewrite (binary64_nan_not_leb _ _ Hnan) in Hle. discriminate Hle.
  - split; vm_compute; reflexivity.
Qed.

(** ** How the renderer ends *)


(** ** Rounding in binary64

    [SpecFloat] gives the operations of binary64 as programs on mantissas
    and exponents.  This part relates them to the rational numbers: every
    operation returns the rounding of the exact result, rounding is
    monotone, and the comparison of two floats is the comparison of their
    values. *)

Section Binary64RoundingFacts.

Local Open Scope Q_scope.

(** ** Powers of two *)

Lemma bpow_pos (e : Z) : 0 < bpow e.
Proof. apply Qpower_0_lt. reflexivity. Qed.

Lemma bpow_add (a b : Z) : bpow (a + b) == bpow a * bpow b.
Proof. apply Qpower_plus. discriminate. Qed.

Lemma bpow_0 : bpow 0 == 1.
Proof. reflexivity. Qed.

Lemma bpow_1 : bpow 1 == 2.
Proof. reflexivity. Qed.

Lemma bpow_m1 : bpow (-1) == 1 # 2.
Proof. reflexivity. Qed.

Lemma bpow_opp (a : Z) : bpow a * bpow (- a) == 1.
Proof. rewrite <- bpow_add, Z.add_opp_diag_r. reflexivity. Qed.

Lemma bpow_lt (a b : Z) : (a < b)%Z -> bpow a < bpow b.
Proof. intros H. apply Qpower_lt_compat_l; [exact H | reflexivity]. Qed.

Lemma bpow_le (a b : Z) : (a <= b)%Z -> bpow a <= bpow b.
Proof. intros H. apply Qpower_le_compat_l; [exact H | discriminate]. Qed.

Lemma bpow_lt_inv (a b : Z) : bpow a < bpow b -> (a < b)%Z.
Proof. intros H. apply (Qpower_lt_compat_l_inv 2); [exact H | reflexivity]. Qed.

Lemma bpow_Z (k : Z) : (0 <= k)%Z -> bpow k == inject_Z (2 ^ k).
Proof. intros H. unfold bpow. now rewrite Zpower_Qpower. Qed.

Lemma bpow_succ (e : Z) : bpow (e + 1) == 2 * bpow e.
Proof. rewrite bpow_add, bpow_1. ring. Qed.

#[local] Opaque bpow.

Lemma mag_unique (x : Q) (k k' : Z) : mag_is x k -> mag_is x k' -> k = k'.
Proof.
  intros [Hl Hu] [Hl' Hu'].
  assert (H1 : (k - 1 < k')%Z) by (apply bpow_lt_inv; lra).
  assert (H2 : (k' - 1 < k)%Z) by (apply bpow_lt_inv; lra).
  lia.
Qed.

Lemma mag_le (x y : Q) (k k' : Z) :
  mag_is x k -> mag_is y k' -> x <= y -> (k <= k')%Z.
Proof.
  intros [Hl Hu] [Hl' Hu'] Hxy.
  assert (H1 : (k - 1 < k')%Z) by (apply bpow_lt_inv; lra).
  lia.
Qed.

(** Scaling by a power of two. *)
Lemma scale_le (x y : Q) (e : Z) : x <= y -> x * bpow e <= y * bpow e.
Proof. intros H. apply Qmult_le_compat_r; [exact H | apply Qlt_le_weak, bpow_pos]. Qed.

Lemma scale_lt (x y : Q) (e : Z) : x < y -> x * bpow e < y * bpow e.
Proof. intros H. apply Qmult_lt_compat_r; [apply bpow_pos | exact H]. Qed.

Lemma scale_mag (x : Q) (k e : Z) : mag_is x k -> mag_is (x * bpow e) (k + e).
Proof.
  intros [Hl Hu]. split.
  - replace (k + e - 1)%Z with ((k - 1) + e)%Z by lia. rewrite bpow_add.
    now apply scale_le.
  - rewrite bpow_add. now apply scale_lt.
Qed.

(** ** Digits *)

Lemma digits2_pos_bounds (p : positive) :
  (2 ^ (Zpos (digits2_pos p) - 1) <= Zpos p < 2 ^ Zpos (digits2_pos p))%Z.
Proof.
  induction p as [p IH | p IH | ]; cbn [digits2_pos].
  - rewrite Pos2Z.inj_succ, Pos2Z.inj_xI.
    replace (Z.succ (Zpos (digits2_pos p)) - 1)%Z
      with (Z.succ (Zpos (digits2_pos p) - 1))%Z by lia.
    rewrite !Z.pow_succ_r by lia. lia.
  - rewrite Pos2Z.inj_succ. change (Zpos p~0) with (2 * Zpos p)%Z.
    replace (Z.succ (Zpos (digits2_pos p)) - 1)%Z
      with (Z.succ (Zpos (digits2_pos p) - 1))%Z by lia.
    rewrite !Z.pow_succ_r by lia. lia.
  - cbn. lia.
Qed.

Lemma Zle_Q (a b : Z) : (a <= b)%Z -> inject_Z a <= inject_Z b.
Proof. now rewrite <- Zle_Qle. Qed.

Lemma Zlt_Q (a b : Z) : (a < b)%Z -> inject_Z a < inject_Z b.
Proof. now rewrite <- Zlt_Qlt. Qed.

Lemma Q_Zle (a b : Z) : inject_Z a <= inject_Z b -> (a <= b)%Z.
Proof. now rewrite <- Zle_Qle. Qed.

Lemma Q_Zlt (a b : Z) : inject_Z a < inject_Z b -> (a < b)%Z.
Proof. now rewrite <- Zlt_Qlt. Qed.

Lemma inject_Z_succ (a : Z) : inject_Z (a + 1) == inject_Z a + 1.
Proof. now rewrite inject_Z_plus. Qed.

Lemma digits_mag (p : positive) :
  mag_is (inject_Z (Zpos p)) (Zpos (digits2_pos p)).
Proof.
  destruct (digits2_pos_bounds p) as [Hl Hu]. split.
  - rewrite bpow_Z by lia. now apply Zle_Q.
  - rewrite bpow_Z by lia. now apply Zlt_Q.
Qed.

(** ** Shifting right *)

Lemma located_ext (x y : Q) (mrs : shr_record) :
  x == y -> located x mrs -> located y mrs.
Proof.
  intros Hxy [Hm Hloc]. split; [exact Hm | ].
  destruct (shr_r mrs), (shr_s mrs); lra.
Qed.

Lemma shr_1_located (x : Q) (mrs : shr_record) :
  located x mrs -> located (x * (1 # 2)) (shr_1 mrs).
Proof.
  destruct mrs as [m r s]. unfold located. cbn [shr_m shr_r shr_s].
  intros [Hm Hloc].
  destruct m as [ | p | p]; [ | | lia].
  - cbn [shr_1 shr_m shr_r shr_s]. split; [lia | ].
    change (inject_Z 0) with 0 in *.
    destruct r, s; cbn [orb]; lra.
  - destruct p as [p | p | ]; cbn [shr_1 shr_m shr_r shr_s].
    + split; [lia | ].
      assert (Hp : inject_Z (Zpos p~1) == 2 * inject_Z (Zpos p) + 1)
        by (rewrite Pos2Z.inj_xI, inject_Z_plus, inject_Z_mult; reflexivity).
      destruct r, s; cbn [orb]; lra.
    + split; [lia | ].
      assert (Hp : inject_Z (Zpos p~0) == 2 * inject_Z (Zpos p))
        by (change (Zpos p~0) with (2 * Zpos p)%Z; rewrite inject_Z_mult;
            reflexivity).
      destruct r, s; cbn [orb]; lra.
    + split; [lia | ].
      change (inject_Z 1) with 1 in *. change (inject_Z 0) with 0.
      destruct r, s; cbn [orb]; lra.
Qed.

Lemma iter_shr_located (n : positive) :
  forall (x : Q) (mrs : shr_record),
    located x mrs -> located (x * bpow (- Zpos n)) (SpecFloat.iter_pos shr_1 n mrs).
Proof.
  induction n as [n IH | n IH | ]; intros x mrs Hloc; cbn [SpecFloat.iter_pos].
  - apply (@located_ext (x * (1 # 2) * bpow (- Zpos n) * bpow (- Zpos n))).
    + replace (- Zpos n~1)%Z with (-1 + (- Zpos n + - Zpos n))%Z by lia.
      rewrite !bpow_add, bpow_m1. ring.
    + apply IH, IH. now apply shr_1_located.
  - apply (@located_ext (x * bpow (- Zpos n) * bpow (- Zpos n))).
    + replace (- Zpos n~0)%Z with (- Zpos n + - Zpos n)%Z by lia.
      rewrite !bpow_add. ring.
    + now apply IH, IH.
  - apply (@located_ext (x * (1 # 2))).
    + change (Z.opp (Z.pos 1)) with (Z.neg 1). rewrite bpow_m1. reflexivity.
    + now apply shr_1_located.
Qed.

(** ** Rounding to nearest, ties to even *)

Lemma rne_located (x : Q) (mrs : shr_record) :
  located x mrs ->
  is_rne x (round_nearest_even (shr_m mrs) (loc_of_shr_record mrs))
  /\ (0 <= round_nearest_even (shr_m mrs) (loc_of_shr_record mrs))%Z.
Proof.
  destruct mrs as [m r s]. unfold located, is_rne.
  cbn [shr_m shr_r shr_s loc_of_shr_record]. intros [Hm Hloc].
  destruct r, s; cbn [round_nearest_even].
  - rewrite inject_Z_succ. split; [ | lia]. repeat split; try lra.
  - destruct (Z.even m) eqn:Heven.
    + split; [ | lia]. repeat split; try lra. intros _. exact Heven.
    + rewrite inject_Z_succ. split; [ | lia]. repeat split; try lra.
      intros _. replace (m + 1)%Z with (Z.succ m) by lia.
      rewrite Z.even_succ, <- Z.negb_even, Heven. reflexivity.
  - split; [ | lia]. repeat split; lra.
  - split; [ | lia]. repeat split; lra.
Qed.

Lemma rne_mono (x y : Q) (a b : Z) :
  is_rne x a -> is_rne y b -> x <= y -> (a <= b)%Z.
Proof.
  intros [Ha1 [Ha2 [Ha3 Ha4]]] [Hb1 [Hb2 [Hb3 Hb4]]] Hxy.
  destruct (Z_le_gt_dec a b) as [Hle | Hgt]; [exact Hle | exfalso].
  assert (Hq : inject_Z b + 1 <= inject_Z a).
  { rewrite <- inject_Z_succ. apply Zle_Q. lia. }
  assert (Hea : Z.even a = true) by (apply Ha3; lra).
  assert (Heb : Z.even b = true) by (apply Hb4; lra).
  assert (Hab : a = (b + 1)%Z).
  { apply Z.le_antisymm; [ | lia]. apply Q_Zle. rewrite inject_Z_succ. lra. }
  subst a. replace (b + 1)%Z with (Z.succ b) in Hea by lia.
  rewrite Z.even_succ, <- Z.negb_even, Heb in Hea. discriminate Hea.
Qed.

Lemma rne_ext (x y : Q) (a : Z) : x == y -> is_rne x a -> is_rne y a.
Proof.
  intros Hxy [H1 [H2 [H3 H4]]]. repeat split; try lra.
  - intros H. apply H3. lra.
  - intros H. apply H4. lra.
Qed.

Lemma rne_unique (x : Q) (a b : Z) : is_rne x a -> is_rne x b -> a = b.
Proof.
  intros Ha Hb. apply Z.le_antisymm; eapply rne_mono; eauto; lra.
Qed.

Lemma rne_int (k : Z) : is_rne (inject_Z k) k.
Proof. unfold is_rne. repeat split; try lra; intros H; lra. Qed.

(** ** The rounding step of every operation *)

Lemma fexp64_eq (k : Z) : fexp64 k = Z.max (k - 53) (-1074).
Proof. reflexivity. Qed.

Lemma located_nonneg (x : Q) (mrs : shr_record) :
  located x mrs -> inject_Z (shr_m mrs) <= x /\ x < inject_Z (shr_m mrs) + 1.
Proof.
  intros [_ Hloc]. destruct (shr_r mrs), (shr_s mrs); lra.
Qed.

Lemma located_mag (x : Q) (k : Z) (p : positive) (mrs : shr_record) :
  located x mrs -> shr_m mrs = Zpos p -> mag_is x k -> k = Zpos (digits2_pos p).
Proof.
  intros Hloc Hm Hk. destruct (located_nonneg Hloc) as [Hl Hu].
  rewrite Hm in Hl, Hu.
  apply (mag_unique (x := x)); [exact Hk | ].
  destruct (digits2_pos_bounds p) as [Hdl Hdu]. split.
  - rewrite bpow_Z by lia. apply Zle_Q in Hdl. lra.
  - rewrite bpow_Z by lia.
    assert (H : inject_Z (Zpos p) + 1 <= inject_Z (2 ^ Zpos (digits2_pos p)))
      by (rewrite <- inject_Z_succ; apply Zle_Q; lia).
    lra.
Qed.

Lemma unscale (x : Q) (e : Z) : x * bpow (- e) * bpow e == x.
Proof.
  rewrite <- Qmult_assoc, (Qmult_comm (bpow (- e))), bpow_opp. ring.
Qed.

Lemma fexp_digits (x : Q) (k ex : Z) (mrs : shr_record) :
  mag_is x k -> located (x * bpow (- ex)) mrs -> (ex <= fexp64 k)%Z ->
  fexp64 (Zdigits2 (shr_m mrs) + ex) = fexp64 k.
Proof.
  intros Hk Hloc Hex.
  destruct (shr_m mrs) as [ | p | p] eqn:Hm.
  - destruct (located_nonneg Hloc) as [_ Hu]. rewrite Hm in Hu.
    change (inject_Z 0) with 0 in Hu.
    assert (Hx : x < bpow ex).
    { rewrite <- (unscale x ex). rewrite <- (Qmult_1_l (bpow ex)) at 2.
      apply scale_lt. lra. }
    assert (Hlt : (k - 1 < ex)%Z) by (apply bpow_lt_inv; destruct Hk; lra).
    cbn [Zdigits2]. rewrite !fexp64_eq in *. lia.
  - assert (Hk' : mag_is (x * bpow (- ex)) (k + - ex)) by now apply scale_mag.
    cbn [Zdigits2]. rewrite <- (located_mag Hloc Hm Hk').
    f_equal. lia.
  - destruct Hloc as [Hpos _]. rewrite Hm in Hpos. lia.
Qed.

Lemma shr_located (x : Q) (mrs : shr_record) (e n : Z) :
  located (x * bpow (- e)) mrs -> (0 <= n)%Z ->
  located (x * bpow (- (e + n))) (fst (shr mrs e n))
  /\ snd (shr mrs e n) = (e + n)%Z.
Proof.
  intros Hloc Hn. destruct n as [ | p | p]; [ | | lia]; cbn [shr fst snd].
  - rewrite Z.add_0_r. now split.
  - split; [ | reflexivity].
    apply (@located_ext (x * bpow (- e) * bpow (- Zpos p))).
    + replace (- (e + Zpos p))%Z with (- e + - Zpos p)%Z by lia.
      rewrite bpow_add. ring.
    + now apply iter_shr_located.
Qed.

Lemma rne_nonneg (x : Q) (m : Z) : 0 <= x -> is_rne x m -> (0 <= m)%Z.
Proof.
  intros Hx Hm. apply (rne_mono (x := 0) (y := x)); [ | exact Hm | exact Hx].
  exact (rne_int 0).
Qed.

Lemma record_of_loc_m (m : Z) (l : location) : shr_m (shr_record_of_loc m l) = m.
Proof. destruct l as [ | [ | | ]]; reflexivity. Qed.

(** Once the mantissa is the rounded integer at the canonical exponent, the
    second shift only renormalises a carry. *)
Lemma pack_second_shift (m E : Z) :
  (0 <= m <= 2 ^ 53)%Z -> (-1074 <= E)%Z ->
  (let '(mrs, e) := shr_fexp prec emax m E loc_Exact in
   match shr_m mrs with
   | Z0 => S754_zero false
   | Zpos p => if (e <=? emax - prec)%Z then S754_finite false p e
               else S754_infinity false
   | Zneg _ => S754_nan
   end) = pack m E.
Proof.
  intros Hm HE. unfold shr_fexp.
  change (SpecFloat.fexp prec emax) with fexp64.
  destruct m as [ | p | p]; [ | | lia].
  - cbn [Zdigits2 shr_record_of_loc].
    assert (Hs : (fexp64 (0 + E) - E <= 0)%Z) by (rewrite fexp64_eq; lia).
    destruct (fexp64 (0 + E) - E)%Z as [ | q | q]; [ | lia | ]; reflexivity.
  - destruct (Z.eq_dec (Zpos p) (2 ^ 53)) as [Heq | Hne].
    + injection Heq as ->. cbn [Zdigits2].
      match goal with
      | |- context [Zpos (digits2_pos ?q)] =>
          change (Zpos (digits2_pos q)) with 54%Z
      end.
      replace (fexp64 (54 + E) - E)%Z with 1%Z by (rewrite fexp64_eq; lia).
      unfold pack. reflexivity.
    + cbn [Zdigits2 shr_record_of_loc].
      assert (Hd : (Zpos (digits2_pos p) <= 53)%Z).
      { destruct (digits2_pos_bounds p) as [Hl _].
        assert (H : (2 ^ (Zpos (digits2_pos p) - 1) < 2 ^ 53)%Z) by lia.
        apply Z.pow_lt_mono_r_iff in H; lia. }
      assert (Hs : (fexp64 (Zpos (digits2_pos p) + E) - E <= 0)%Z)
        by (rewrite fexp64_eq; lia).
      unfold pack. apply Z.eqb_neq in Hne. rewrite Hne.
      destruct (fexp64 (Zpos (digits2_pos p) + E) - E)%Z as [ | q | q];
        [ | lia | ]; reflexivity.
Qed.

(** [binary_round_aux] on a positive value [x] given by a mantissa and a
    location at an exponent [ex] not above the canonical one: the result is
    the integer nearest to [x / 2^E], ties to even, at the canonical
    exponent [E] of [x]. *)
Lemma binary_round_aux_rounds (x : Q) (k mx ex : Z) (lx : location) :
  0 < x -> mag_is x k ->
  located (x * bpow (- ex)) (shr_record_of_loc mx lx) ->
  (ex <= fexp64 k)%Z ->
  exists m,
    is_rne (x * bpow (- fexp64 k)) m /\ (0 <= m <= 2 ^ 53)%Z
    /\ binary_round_aux prec emax false mx ex lx = pack m (fexp64 k).
Proof.
  intros Hx Hk Hloc Hex.
  unfold binary_round_aux. unfold shr_fexp at 1.
  change (SpecFloat.fexp prec emax) with fexp64.
  pose proof (fexp_digits Hk Hloc Hex) as Hfexp.
  rewrite record_of_loc_m in Hfexp. rewrite Hfexp.
  destruct (@shr_located x (shr_record_of_loc mx lx) ex (fexp64 k - ex) Hloc)
    as [Hloc1 He1]; [lia | ].
  destruct (shr (shr_record_of_loc mx lx) ex (fexp64 k - ex)) as [mrs1 e1].
  cbn [fst snd] in Hloc1, He1.
  replace (ex + (fexp64 k - ex))%Z with (fexp64 k) in * by lia. subst e1.
  destruct (rne_located Hloc1) as [Hrne Hpos].
  set (m1 := round_nearest_even (shr_m mrs1) (loc_of_shr_record mrs1)) in *.
  assert (Hup : (m1 <= 2 ^ 53)%Z).
  { apply (rne_mono (x := x * bpow (- fexp64 k)) (y := inject_Z (2 ^ 53)));
      [exact Hrne | apply rne_int | ].
    rewrite <- bpow_Z by lia. apply Qlt_le_weak.
    apply Qlt_le_trans with (bpow (k + - fexp64 k)).
    - rewrite bpow_add. apply scale_lt. apply Hk.
    - apply bpow_le. rewrite fexp64_eq. lia. }
  exists m1. split; [exact Hrne | ]. split; [lia | ].
  apply pack_second_shift; [lia | rewrite fexp64_eq; lia].
Qed.

(** ** Order of the results *)

Lemma SFleb_finite_pos (m1 m2 : positive) (e1 e2 : Z) :
  SFleb (S754_finite false m1 e1) (S754_finite false m2 e2) = true
  <-> (e1 < e2)%Z \/ (e1 = e2 /\ (m1 <= m2)%positive).
Proof.
  unfold SFleb, SFcompare.
  change (Pos.compare_cont Eq m1 m2) with (Pos.compare m1 m2).
  destruct (Z.compare_spec e1 e2) as [He | He | He].
  - destruct (Pos.compare_spec m1 m2) as [Hm | Hm | Hm]; split;
      try reflexivity; try discriminate; try lia; intros _; right; lia.
  - split; [intros _; now left | reflexivity].
  - split; [discriminate | lia].
Qed.

Lemma pack_nonneg (m E : Z) : (0 <= m)%Z -> nonneg_SF (pack m E).
Proof.
  intros Hm. unfold pack. destruct m as [ | p | p]; [exact I | | lia].
  destruct (Z.pos p =? 2 ^ 53)%Z.
  - destruct (E + 1 <=? 971)%Z; exact I.
  - destruct (E <=? 971)%Z; exact I.
Qed.

Lemma SFleb_zero_nonneg (s : bool) (r : spec_float) :
  nonneg_SF r -> SFleb (S754_zero s) r = true.
Proof. destruct r as [s' | [ | ] | | [ | ] m e]; cbn; tauto. Qed.

Lemma pack_le_same (a b E : Z) :
  (0 <= a <= b)%Z -> (b <= 2 ^ 53)%Z -> SFleb (pack a E) (pack b E) = true.
Proof.
  intros Hab Hb.
  destruct a as [ | p | p]; [ | | lia].
  { apply SFleb_zero_nonneg, pack_nonneg. lia. }
  destruct b as [ | q | q]; [lia | | lia].
  unfold pack.
  destruct (Z.eqb_spec (Zpos p) (2 ^ 53)) as [Hp | Hp];
    destruct (Z.eqb_spec (Zpos q) (2 ^ 53)) as [Hq | Hq];
    destruct (Z.leb_spec (E + 1) 971) as [H1 | H1];
    destruct (Z.leb_spec E 971) as [H2 | H2];
    try lia; try reflexivity;
    try (apply SFleb_finite_pos; lia).
Qed.

Lemma pack_le_next (a b E E' : Z) :
  (0 <= a <= 2 ^ 53)%Z -> (2 ^ 52 <= b <= 2 ^ 53)%Z -> (E < E')%Z ->
  SFleb (pack a E) (pack b E') = true.
Proof.
  intros Ha Hb HE.
  destruct a as [ | p | p]; [ | | lia].
  { apply SFleb_zero_nonneg, pack_nonneg. lia. }
  destruct b as [ | q | q]; [lia | | lia].
  unfold pack.
  destruct (Z.eqb_spec (Zpos p) (2 ^ 53)) as [Hp | Hp];
    destruct (Z.eqb_spec (Zpos q) (2 ^ 53)) as [Hq | Hq];
    destruct (Z.leb_spec (E + 1) 971) as [H1 | H1];
    destruct (Z.leb_spec E 971) as [H2 | H2];
    destruct (Z.leb_spec (E' + 1) 971) as [H3 | H3];
    destruct (Z.leb_spec E' 971) as [H4 | H4];
    try lia; try reflexivity;
    try (apply SFleb_finite_pos; lia).
Qed.

Lemma rounds_nonneg (x : Q) (r : spec_float) : rounds x r -> nonneg_SF r.
Proof.
  intros [[_ [s ->]] | [Hx [k [m [Hk [Hm ->]]]]]]; [exact I | ].
  apply pack_nonneg. apply (rne_nonneg (x := x * bpow (- fexp64 k))); [ | exact Hm].
  apply Qlt_le_weak. rewrite <- (Qmult_0_l (bpow (- fexp64 k))).
  now apply scale_lt.
Qed.

Lemma rne_below_carry (x : Q) (k m : Z) :
  mag_is x k -> is_rne (x * bpow (- fexp64 k)) m -> (m <= 2 ^ 53)%Z.
Proof.
  intros Hk Hm.
  apply (rne_mono (x := x * bpow (- fexp64 k)) (y := inject_Z (2 ^ 53)));
    [exact Hm | apply rne_int | ].
  rewrite <- bpow_Z by lia. apply Qlt_le_weak.
  apply Qlt_le_trans with (bpow (k + - fexp64 k)).
  - rewrite bpow_add. apply scale_lt. apply Hk.
  - apply bpow_le. rewrite fexp64_eq. lia.
Qed.

Lemma rne_normal (x : Q) (k m : Z) :
  mag_is x k -> is_rne (x * bpow (- fexp64 k)) m -> (-1074 < fexp64 k)%Z ->
  (2 ^ 52 <= m)%Z.
Proof.
  intros Hk Hm Hnormal.
  apply (rne_mono (x := inject_Z (2 ^ 52)) (y := x * bpow (- fexp64 k)));
    [apply rne_int | exact Hm | ].
  rewrite <- bpow_Z by lia.
  replace 52%Z with ((k - 1) + - fexp64 k)%Z by (rewrite fexp64_eq in *; lia).
  rewrite bpow_add. apply scale_le. apply Hk.
Qed.

(** Rounding is monotone. *)
Lemma rounds_mono (x y : Q) (rx ry : spec_float) :
  rounds x rx -> rounds y ry -> x <= y -> SFleb rx ry = true.
Proof.
  intros Hx Hy Hxy. pose proof (rounds_nonneg Hy) as Hny.
  destruct Hx as [[Hx0 [s ->]] | [Hx [kx [mx [Hkx [Hmx ->]]]]]].
  { now apply SFleb_zero_nonneg. }
  destruct Hy as [[Hy0 _] | [Hy [ky [my [Hky [Hmy ->]]]]]]; [lra | ].
  pose proof (mag_le Hkx Hky Hxy) as Hk.
  assert (Hx0 : (0 <= mx)%Z).
  { apply (rne_nonneg (x := x * bpow (- fexp64 kx))); [ | exact Hmx].
    apply Qlt_le_weak. rewrite <- (Qmult_0_l (bpow (- fexp64 kx))).
    now apply scale_lt. }
  pose proof (rne_below_carry Hkx Hmx) as Hxc.
  pose proof (rne_below_carry Hky Hmy) as Hyc.
  destruct (Z.eq_dec (fexp64 kx) (fexp64 ky)) as [HE | HE].
  - rewrite HE in *. apply pack_le_same; [ | exact Hyc].
    split; [exact Hx0 | ].
    apply (rne_mono Hmx Hmy). now apply scale_le.
  - assert (HE' : (fexp64 kx < fexp64 ky)%Z) by (rewrite !fexp64_eq in *; lia).
    apply pack_le_next; [lia | | exact HE'].
    split; [ | exact Hyc].
    apply (rne_normal Hky Hmy). rewrite !fexp64_eq in *. lia.
Qed.

Lemma rounds_ext (x y : Q) (r : spec_float) : x == y -> rounds x r -> rounds y r.
Proof.
  intros Hxy [[Hx Hr] | [Hx [k [m [[Hk1 Hk2] [Hm Hr]]]]]].
  - left. split; [lra | exact Hr].
  - right. split; [lra | ]. exists k, m. split; [split; lra | ].
    split; [ | exact Hr]. apply (rne_ext (x := x * bpow (- fexp64 k))); [ | exact Hm].
    now rewrite Hxy.
Qed.

(** A positive value has one rounding. *)
Lemma rounds_unique (x : Q) (r r' : spec_float) :
  0 < x -> rounds x r -> rounds x r' -> r = r'.
Proof.
  intros Hpos [[Hx _] | [_ [k [m [Hk [Hm ->]]]]]]; [lra | ].
  intros [[Hx _] | [_ [k' [m' [Hk' [Hm' ->]]]]]]; [lra | ].
  rewrite <- (mag_unique Hk Hk') in *. now rewrite (rne_unique Hm Hm').
Qed.

(** ** Values of valid floats *)

Lemma valid_finite (s : bool) (m : positive) (e : Z) :
  valid64 (S754_finite s m e) ->
  fexp64 (Zpos (digits2_pos m) + e) = e /\ (e <= 971)%Z.
Proof.
  unfold valid64, valid_binary, bounded, canonical_mantissa.
  intros H. apply andb_prop in H. destruct H as [Hc He].
  apply Z.eqb_eq in Hc. apply Z.leb_le in He. split; [exact Hc | exact He].
Qed.

Lemma F2Q_mag (m : positive) (e : Z) :
  mag_is (F2Q (Zpos m) e) (Zpos (digits2_pos m) + e).
Proof. unfold F2Q. apply scale_mag, digits_mag. Qed.

Lemma F2Q_pos (m : positive) (e : Z) : 0 < F2Q (Zpos m) e.
Proof.
  unfold F2Q. rewrite <- (Qmult_0_l (bpow e)). apply scale_lt. reflexivity.
Qed.

Lemma F2Q_neg (m : positive) (e : Z) : F2Q (Zneg m) e == - F2Q (Zpos m) e.
Proof.
  unfold F2Q. change (Zneg m) with (- Zpos m)%Z. rewrite inject_Z_opp. ring.
Qed.

Lemma F2Q_lt_exp (m1 m2 : positive) (e1 e2 : Z) :
  fexp64 (Zpos (digits2_pos m1) + e1) = e1 ->
  fexp64 (Zpos (digits2_pos m2) + e2) = e2 ->
  (e1 < e2)%Z -> F2Q (Zpos m1) e1 < F2Q (Zpos m2) e2.
Proof.
  intros H1 H2 He.
  destruct (F2Q_mag m1 e1) as [_ Hu]. destruct (F2Q_mag m2 e2) as [Hl _].
  apply Qlt_le_trans with (bpow (Zpos (digits2_pos m1) + e1)); [exact Hu | ].
  apply Qle_trans with (bpow (Zpos (digits2_pos m2) + e2 - 1)); [ | exact Hl].
  apply bpow_le. rewrite !fexp64_eq in *. lia.
Qed.

Lemma F2Q_compare_mantissa (m1 m2 : positive) (e : Z) :
  (F2Q (Zpos m1) e ?= F2Q (Zpos m2) e) = (m1 ?= m2)%positive.
Proof.
  destruct (Pos.compare_spec m1 m2) as [Hm | Hm | Hm].
  - subst. apply -> Qeq_alt. reflexivity.
  - apply -> Qlt_alt. unfold F2Q. apply scale_lt. apply Zlt_Q. lia.
  - apply -> Qgt_alt. unfold F2Q. apply scale_lt. apply Zlt_Q. lia.
Qed.

Lemma SFcompare_pos (m1 m2 : positive) (e1 e2 : Z) :
  fexp64 (Zpos (digits2_pos m1) + e1) = e1 ->
  fexp64 (Zpos (digits2_pos m2) + e2) = e2 ->
  SFcompare (S754_finite false m1 e1) (S754_finite false m2 e2)
  = Some (F2Q (Zpos m1) e1 ?= F2Q (Zpos m2) e2).
Proof.
  intros H1 H2. cbn [SFcompare]. f_equal.
  change (Pos.compare_cont Eq m1 m2) with (Pos.compare m1 m2).
  destruct (Z.compare_spec e1 e2) as [He | He | He].
  - subst e2. symmetry. apply F2Q_compare_mantissa.
  - symmetry. apply -> Qlt_alt. now apply F2Q_lt_exp.
  - symmetry. apply -> Qgt_alt. now apply F2Q_lt_exp.
Qed.

Lemma Qcompare_opp (x y : Q) : (- x ?= - y) = CompOpp (x ?= y).
Proof.
  destruct (Qcompare_spec x y) as [H | H | H]; cbn [CompOpp].
  - apply -> Qeq_alt. lra.
  - apply -> Qgt_alt. lra.
  - apply -> Qlt_alt. lra.
Qed.

(** On valid floats that stand for numbers, the comparison of the format
    is the comparison of the values. *)
Lemma SFcompare_value (f g : spec_float) :
  valid64 f -> valid64 g -> finite_SF f = true -> finite_SF g = true ->
  SFcompare f g = Some (SF2Q f ?= SF2Q g).
Proof.
  intros Vf Vg Ff Fg.
  destruct f as [sf | sf | | sf mf ef]; try discriminate Ff;
    destruct g as [sg | sg | | sg mg eg]; try discriminate Fg;
    cbn [SF2Q cond_Zopp].
  - reflexivity.
  - cbn [SFcompare]. f_equal. symmetry. destruct sg; cbn [cond_Zopp Z.opp].
    + apply -> Qgt_alt. rewrite F2Q_neg. pose proof (F2Q_pos mg eg). lra.
    + apply -> Qlt_alt. apply F2Q_pos.
  - cbn [SFcompare]. f_equal. symmetry. destruct sf; cbn [cond_Zopp Z.opp].
    + apply -> Qlt_alt. rewrite F2Q_neg. pose proof (F2Q_pos mf ef). lra.
    + apply -> Qgt_alt. apply F2Q_pos.
  - destruct (valid_finite Vf) as [Cf _]. destruct (valid_finite Vg) as [Cg _].
    destruct sf, sg; cbn [cond_Zopp Z.opp].
    + rewrite (Qcompare_comp _ _ (F2Q_neg mf ef) _ _ (F2Q_neg mg eg)).
      rewrite Qcompare_opp. pose proof (SFcompare_pos _ _ Cf Cg) as Hpos.
      cbn [SFcompare] in Hpos. injection Hpos as Hpos. rewrite <- Hpos.
      cbn [SFcompare]. f_equal. now destruct (ef ?= eg)%Z.
    + cbn [SFcompare]. f_equal. symmetry. apply -> Qlt_alt. rewrite F2Q_neg.
      pose proof (F2Q_pos mf ef). pose proof (F2Q_pos mg eg). lra.
    + cbn [SFcompare]. f_equal. symmetry. apply -> Qgt_alt. rewrite F2Q_neg.
      pose proof (F2Q_pos mf ef). pose proof (F2Q_pos mg eg). lra.
    + now apply SFcompare_pos.
Qed.

Lemma SFleb_value (f g : spec_float) :
  valid64 f -> valid64 g -> finite_SF f = true -> finite_SF g = true ->
  (SFleb f g = true <-> SF2Q f <= SF2Q g).
Proof.
  intros Vf Vg Ff Fg. unfold SFleb. rewrite (SFcompare_value Vf Vg Ff Fg).
  destruct (Qcompare_spec (SF2Q f) (SF2Q g)) as [H | H | H]; split;
    try reflexivity; try discriminate; try lra.
Qed.

Lemma SFltb_value (f g : spec_float) :
  valid64 f -> valid64 g -> finite_SF f = true -> finite_SF g = true ->
  (SFltb f g = true <-> SF2Q f < SF2Q g).
Proof.
  intros Vf Vg Ff Fg. unfold SFltb. rewrite (SFcompare_value Vf Vg Ff Fg).
  destruct (Qcompare_spec (SF2Q f) (SF2Q g)) as [H | H | H]; split;
    try reflexivity; try discriminate; try lra.
Qed.

(** A valid float that stands for a non-negative number is its own
    rounding. *)
Lemma rounds_exact (f : spec_float) :
  valid64 f -> finite_SF f = true -> nonneg_SF f -> rounds (SF2Q f) f.
Proof.
  intros Vf Ff Nf. destruct f as [s | s | | s m e]; try discriminate Ff.
  - left. split; [reflexivity | now exists s].
  - destruct s; [contradiction | ]. cbn [SF2Q cond_Zopp].
    destruct (valid_finite Vf) as [Hc He].
    right. split; [apply F2Q_pos | ].
    exists (Zpos (digits2_pos m) + e)%Z, (Zpos m).
    split; [apply F2Q_mag | ]. rewrite Hc. split.
    + apply (rne_ext (x := inject_Z (Zpos m))); [ | apply rne_int].
      unfold F2Q. rewrite <- Qmult_assoc, bpow_opp. ring.
    + unfold pack.
      assert (Hd : (Zpos (digits2_pos m) <= 53)%Z) by (rewrite fexp64_eq in Hc; lia).
      destruct (digits2_pos_bounds m) as [_ Hu].
      assert (Hlt : (Zpos m < 2 ^ 53)%Z).
      { apply Z.lt_le_trans with (2 ^ Zpos (digits2_pos m))%Z; [exact Hu | ].
        apply Z.pow_le_mono_r; lia. }
      destruct (Z.eqb_spec (Zpos m) (2 ^ 53)) as [Heq | _]; [lia | ].
      destruct (Z.leb_spec e 971); [reflexivity | lia].
Qed.

(** A non-negative result below a number is a number. *)
Lemma nonneg_below_finite (r f : spec_float) :
  nonneg_SF r -> finite_SF f = true -> SFleb r f = true -> finite_SF r = true.
Proof.
  destruct r as [s | [ | ] | | [ | ] m e]; cbn [nonneg_SF]; try contradiction;
    try reflexivity.
  intros _. destruct f as [s | s | | [ | ] m e]; cbn; congruence.
Qed.

(** ** Addition and subtraction *)

Lemma iter_xO (d m : positive) : Zpos (Pos.iter xO m d) = (Zpos m * 2 ^ Zpos d)%Z.
Proof.
  induction d as [ | d IH] using Pos.peano_ind.
  - cbn [Pos.iter]. change (Zpos m~0) with (2 * Zpos m)%Z. lia.
  - rewrite Pos.iter_succ. change (Zpos (Pos.iter xO m d)~0)
      with (2 * Zpos (Pos.iter xO m d))%Z.
    rewrite IH, Pos2Z.inj_succ, Z.pow_succ_r by lia. lia.
Qed.

Lemma F2Q_shift (m e d : Z) : (0 <= d)%Z -> F2Q (m * 2 ^ d) (e - d) == F2Q m e.
Proof.
  intros Hd. unfold F2Q. rewrite inject_Z_mult, <- bpow_Z by exact Hd.
  replace e with ((e - d) + d)%Z at 2 by lia. rewrite bpow_add. ring.
Qed.

Lemma shl_align_value (mx : positive) (ex ex' : Z) :
  snd (shl_align mx ex ex') = Z.min ex ex'
  /\ F2Q (Zpos (fst (shl_align mx ex ex'))) (Z.min ex ex') == F2Q (Zpos mx) ex.
Proof.
  unfold shl_align. destruct (ex' - ex)%Z as [ | d | d] eqn:Hd; cbn [fst snd].
  - replace (Z.min ex ex') with ex by lia. split; reflexivity.
  - replace (Z.min ex ex') with ex by lia. split; reflexivity.
  - replace (Z.min ex ex') with ex' by lia. split; [reflexivity | ].
    rewrite iter_xO. replace ex' with (ex - Zpos d)%Z by lia.
    apply F2Q_shift. lia.
Qed.

(** [binary_round] rounds the value of its mantissa and exponent. *)
Lemma binary_round_rounds (m : positive) (e : Z) :
  rounds (F2Q (Zpos m) e) (binary_round prec emax false m e).
Proof.
  unfold binary_round. change (SpecFloat.fexp prec emax) with fexp64.
  set (k := (Zpos (digits2_pos m) + e)%Z).
  destruct (shl_align_value m e (fexp64 k)) as [He Hv].
  destruct (shl_align m e (fexp64 k)) as [mz ez]. cbn [fst snd] in He, Hv.
  subst ez.
  destruct (@binary_round_aux_rounds (F2Q (Zpos m) e) k (Zpos mz)
              (Z.min e (fexp64 k)) loc_Exact) as [z [Hz [_ Hr]]].
  - apply F2Q_pos.
  - apply F2Q_mag.
  - split; [cbn; lia | ]. cbn [shr_record_of_loc shr_m shr_r shr_s].
    rewrite <- Hv. unfold F2Q. rewrite <- Qmult_assoc, bpow_opp. ring.
  - lia.
  - right. split; [apply F2Q_pos | ]. exists k, z.
    split; [apply F2Q_mag | ]. split; [exact Hz | exact Hr].
Qed.

Lemma binary_normalize_rounds (n e : Z) :
  (0 <= n)%Z -> rounds (F2Q n e) (binary_normalize prec emax n e false).
Proof.
  intros Hn. destruct n as [ | p | p]; [ | | lia]; cbn [binary_normalize].
  - left. split; [unfold F2Q; ring | now exists false].
  - apply binary_round_rounds.
Qed.

Lemma F2Q_plus (a b e : Z) : F2Q (a + b) e == F2Q a e + F2Q b e.
Proof. unfold F2Q. rewrite inject_Z_plus. ring. Qed.

Lemma F2Q_minus (a b e : Z) : F2Q (a - b) e == F2Q a e - F2Q b e.
Proof.
  unfold F2Q. replace (a - b)%Z with (a + - b)%Z by lia.
  rewrite inject_Z_plus, inject_Z_opp. ring.
Qed.

Lemma F2Q_cond_opp (s : bool) (m e : Z) :
  F2Q (cond_Zopp s m) e == if s then - F2Q m e else F2Q m e.
Proof.
  destruct s; cbn [cond_Zopp]; [ | reflexivity].
  unfold F2Q. rewrite inject_Z_opp. ring.
Qed.

Lemma aligned_value (s : bool) (m : positive) (e e' : Z) :
  F2Q (cond_Zopp s (Zpos (fst (shl_align m e (Z.min e e'))))) (Z.min e e')
  == SF2Q (S754_finite s m e).
Proof.
  destruct (shl_align_value m e (Z.min e e')) as [_ Hv].
  replace (Z.min e (Z.min e e')) with (Z.min e e') in Hv by lia.
  cbn [SF2Q]. rewrite !F2Q_cond_opp. destruct s; now rewrite Hv.
Qed.

Lemma F2Q_sign (n e : Z) : 0 <= F2Q n e -> (0 <= n)%Z.
Proof.
  intros H. destruct n as [ | p | p]; try lia.
  rewrite F2Q_neg in H. pose proof (F2Q_pos p e). lra.
Qed.

Lemma SF2Q_sign (s : bool) (m : positive) (e : Z) :
  0 <= SF2Q (S754_finite s m e) -> s = false.
Proof.
  destruct s; [ | reflexivity]. cbn [SF2Q cond_Zopp Z.opp].
  rewrite F2Q_neg. pose proof (F2Q_pos m e). lra.
Qed.

Lemma valid_sign (s s' : bool) (m : positive) (e : Z) :
  valid64 (S754_finite s m e) -> valid64 (S754_finite s' m e).
Proof. exact (fun H => H). Qed.

(** Subtraction of a number from a number that is not smaller. *)
Lemma SFsub_rounds (a b : spec_float) :
  valid64 a -> valid64 b -> finite_SF a = true -> finite_SF b = true ->
  SF2Q b <= SF2Q a ->
  rounds (SF2Q a - SF2Q b) (SFsub prec emax a b).
Proof.
  intros Va Vb Fa Fb Hle.
  destruct a as [sa | sa | | sa ma ea]; try discriminate Fa;
    destruct b as [sb | sb | | sb mb eb]; try discriminate Fb.
  - left. split; [reflexivity | ]. cbn. destruct sa, sb; now eexists.
  - cbn [SFsub]. cbn [SF2Q] in Hle.
    assert (Hs : sb = true).
    { destruct sb; [reflexivity | ]. cbn [cond_Zopp] in Hle.
      pose proof (F2Q_pos mb eb). lra. }
    subst sb. cbn [negb].
    apply (@rounds_ext (SF2Q (S754_finite false mb eb))).
    + cbn [SF2Q cond_Zopp Z.opp]. rewrite F2Q_neg. ring.
    + apply rounds_exact; [exact Vb | reflexivity | exact I].
  - cbn [SFsub]. cbn [SF2Q] in Hle.
    assert (Hs : sa = false) by (apply (@SF2Q_sign sa ma ea); exact Hle).
    subst sa.
    apply (@rounds_ext (SF2Q (S754_finite false ma ea))).
    + cbn [SF2Q]. ring.
    + apply rounds_exact; [exact Va | reflexivity | exact I].
  - cbn [SFsub].
    set (ez := Z.min ea eb).
    set (n := (cond_Zopp sa (Zpos (fst (shl_align ma ea ez)))
               - cond_Zopp sb (Zpos (fst (shl_align mb eb ez))))%Z).
    assert (Hn : F2Q n ez
                 == SF2Q (S754_finite sa ma ea) - SF2Q (S754_finite sb mb eb)).
    { unfold n. rewrite F2Q_minus. unfold ez.
      rewrite (aligned_value sa ma ea eb).
      rewrite (Z.min_comm ea eb), (aligned_value sb mb eb ea). reflexivity. }
    apply (@rounds_ext (F2Q n ez)); [exact Hn | ].
    apply binary_normalize_rounds. apply (@F2Q_sign n ez). lra.
Qed.

(** Addition of two non-negative numbers. *)
Lemma SFadd_rounds (a b : spec_float) :
  valid64 a -> valid64 b -> finite_SF a = true -> finite_SF b = true ->
  nonneg_SF a -> nonneg_SF b ->
  rounds (SF2Q a + SF2Q b) (SFadd prec emax a b).
Proof.
  intros Va Vb Fa Fb Na Nb.
  destruct a as [sa | sa | | sa ma ea]; try discriminate Fa;
    destruct b as [sb | sb | | sb mb eb]; try discriminate Fb.
  - left. split; [reflexivity | ]. cbn. destruct sa, sb; now eexists.
  - cbn [SFadd]. apply (@rounds_ext (SF2Q (S754_finite sb mb eb))).
    + cbn [SF2Q]. ring.
    + now apply rounds_exact.
  - cbn [SFadd]. apply (@rounds_ext (SF2Q (S754_finite sa ma ea))).
    + cbn [SF2Q]. ring.
    + now apply rounds_exact.
  - destruct sa; [contradiction | ]. destruct sb; [contradiction | ].
    cbn [SFadd].
    set (ez := Z.min ea eb).
    set (n := (cond_Zopp false (Zpos (fst (shl_align ma ea ez)))
               + cond_Zopp false (Zpos (fst (shl_align mb eb ez))))%Z).
    assert (Hn : F2Q n ez
                 == SF2Q (S754_finite false ma ea) + SF2Q (S754_finite false mb eb)).
    { unfold n. rewrite F2Q_plus. unfold ez.
      rewrite (aligned_value false ma ea eb).
      rewrite (Z.min_comm ea eb), (aligned_value false mb eb ea). reflexivity. }
    apply (@rounds_ext (F2Q n ez)); [exact Hn | ].
    apply binary_normalize_rounds. unfold n. cbn [cond_Zopp]. lia.
Qed.

(** ** Multiplication *)

Lemma digits_mul (mx my : positive) :
  (Zpos (digits2_pos mx) + Zpos (digits2_pos my) - 1
   <= Zpos (digits2_pos (mx * my)))%Z.
Proof.
  destruct (digits2_pos_bounds mx) as [Hx _].
  destruct (digits2_pos_bounds my) as [Hy _].
  destruct (digits2_pos_bounds (mx * my)) as [_ Hxy].
  assert (H : (2 ^ (Zpos (digits2_pos mx) - 1 + (Zpos (digits2_pos my) - 1))
               < 2 ^ Zpos (digits2_pos (mx * my)))%Z).
  { rewrite Z.pow_add_r by lia. rewrite Pos2Z.inj_mul in Hxy.
    apply Z.le_lt_trans with (Zpos mx * Zpos my)%Z; [ | exact Hxy].
    apply Z.mul_le_mono_nonneg; try lia; apply Z.pow_nonneg; lia. }
  apply Z.pow_lt_mono_r_iff in H; lia.
Qed.

Lemma F2Q_mul (m1 m2 : positive) (e1 e2 : Z) :
  F2Q (Zpos (m1 * m2)) (e1 + e2) == F2Q (Zpos m1) e1 * F2Q (Zpos m2) e2.
Proof.
  unfold F2Q. rewrite Pos2Z.inj_mul, inject_Z_mult, bpow_add. ring.
Qed.

(** Multiplication of two non-negative numbers. *)
Lemma SFmul_rounds (a b : spec_float) :
  valid64 a -> valid64 b -> finite_SF a = true -> finite_SF b = true ->
  nonneg_SF a -> nonneg_SF b ->
  rounds (SF2Q a * SF2Q b) (SFmul prec emax a b).
Proof.
  intros Va Vb Fa Fb Na Nb.
  destruct a as [sa | sa | | sa ma ea]; try discriminate Fa;
    destruct b as [sb | sb | | sb mb eb]; try discriminate Fb;
    try (left; split; [cbn [SF2Q]; ring | cbn; now eexists]).
  destruct sa; [contradiction | ]. destruct sb; [contradiction | ].
  cbn [SFmul xorb SF2Q cond_Zopp].
  destruct (valid_finite Va) as [Ca _]. destruct (valid_finite Vb) as [Cb _].
  pose proof (digits_mul ma mb) as Hd.
  set (k := (Zpos (digits2_pos (ma * mb)) + (ea + eb))%Z).
  destruct (@binary_round_aux_rounds (F2Q (Zpos (ma * mb)) (ea + eb)) k
              (Zpos (ma * mb)) (ea + eb) loc_Exact) as [z [Hz [_ Hr]]].
  - apply F2Q_pos.
  - apply F2Q_mag.
  - split; [cbn; lia | ]. cbn [shr_record_of_loc shr_m shr_r shr_s].
    unfold F2Q. rewrite <- Qmult_assoc, bpow_opp. ring.
  - unfold k. rewrite !fexp64_eq in *. lia.
  - apply (@rounds_ext (F2Q (Zpos (ma * mb)) (ea + eb))); [apply F2Q_mul | ].
    right. split; [apply F2Q_pos | ]. exists k, z.
    split; [apply F2Q_mag | ]. split; [exact Hz | exact Hr].
Qed.

(** ** Division *)

Lemma bpow_inv (e : Z) : bpow (- e) == / bpow e.
Proof.
  pose proof (bpow_pos e) as Hp. pose proof (bpow_opp e) as Ho.
  apply (Qmult_inj_l _ _ (bpow e)); [lra | ].
  rewrite Ho. field. lra.
Qed.

Lemma shift_mantissa (m s : Z) :
  (0 <= s)%Z ->
  match s with
  | Zpos _ => Z.shiftl m s
  | Z0 => m
  | Zneg _ => 0%Z
  end = (m * 2 ^ s)%Z.
Proof.
  intros Hs. destruct s as [ | p | p]; [ | | lia].
  - cbn. lia.
  - apply Z.shiftl_mul_pow2. lia.
Qed.

Lemma odd_not_double (m r : Z) : Z.even m = false -> (2 * r <> m)%Z.
Proof.
  intros Hodd Heq. subst m. rewrite Z.even_mul in Hodd. discriminate Hodd.
Qed.

(** The quotient and the remainder of the integer division locate the
    exact quotient. *)
Lemma new_location_located (mb : positive) (q r : Z) :
  (0 <= q)%Z -> (0 <= r < Zpos mb)%Z ->
  located (inject_Z q + inject_Z r / inject_Z (Zpos mb))
          (shr_record_of_loc q (new_location (Zpos mb) r)).
Proof.
  intros Hq Hr.
  assert (Hb : 0 < inject_Z (Zpos mb)) by (apply (@Zlt_Q 0 _); lia).
  set (t := inject_Z r / inject_Z (Zpos mb)).
  assert (Ht1 : t < 1).
  { apply Qlt_shift_div_r; [exact Hb | ]. rewrite Qmult_1_l. apply Zlt_Q. lia. }
  assert (Hlow : (2 * r < Zpos mb)%Z -> t < 1 # 2).
  { intros H. apply Qlt_shift_div_r; [exact Hb | ].
    apply Zlt_Q in H. rewrite inject_Z_mult in H. change (inject_Z 2) with 2 in H.
    lra. }
  assert (Hhigh : (Zpos mb < 2 * r)%Z -> (1 # 2) < t).
  { intros H. apply Qlt_shift_div_l; [exact Hb | ].
    apply Zlt_Q in H. rewrite inject_Z_mult in H. change (inject_Z 2) with 2 in H.
    lra. }
  assert (Hmid : (2 * r = Zpos mb)%Z -> t == 1 # 2).
  { intros H. apply Qle_antisym.
    - apply Qle_shift_div_r; [exact Hb | ]. rewrite <- H, inject_Z_mult.
      change (inject_Z 2) with 2. lra.
    - apply Qle_shift_div_l; [exact Hb | ]. rewrite <- H, inject_Z_mult.
      change (inject_Z 2) with 2. lra. }
  assert (Hpos : (0 < r)%Z -> 0 < t).
  { intros H. apply Qlt_shift_div_l; [exact Hb | ]. rewrite Qmult_0_l.
    apply (@Zlt_Q 0 _). exact H. }
  unfold new_location.
  destruct (Z.even (Zpos mb)) eqn:Heven;
    unfold new_location_even, new_location_odd;
    (destruct (Z.eqb_spec r 0) as [Hz | Hnz];
     [assert (Ht0 : t == 0) by (unfold t; rewrite Hz; unfold Qdiv; ring);
      split; [exact Hq | ]; cbn [shr_record_of_loc shr_m shr_r shr_s]; lra
     | ]);
    (assert (Hr' : (0 < r)%Z) by lia); specialize (Hpos Hr').
  - destruct (Z.compare_spec (2 * r) (Zpos mb)) as [H | H | H];
      (split; [exact Hq | ]); cbn [shr_record_of_loc shr_m shr_r shr_s].
    + specialize (Hmid H). lra.
    + specialize (Hlow H). lra.
    + specialize (Hhigh H). lra.
  - pose proof (@odd_not_double (Zpos mb) r Heven) as Hodd.
    destruct (Z.compare_spec (2 * r + 1) (Zpos mb)) as [H | H | H];
      (split; [exact Hq | ]); cbn [shr_record_of_loc shr_m shr_r shr_s].
    + assert (H' : (2 * r < Zpos mb)%Z) by lia. specialize (Hlow H'). lra.
    + assert (H' : (2 * r < Zpos mb)%Z) by lia. specialize (Hlow H'). lra.
    + assert (H' : (Zpos mb < 2 * r)%Z) by lia. specialize (Hhigh H'). lra.
Qed.

Lemma quotient_mag (ma mb : positive) (ea eb : Z) :
  let a0 := (Zpos (digits2_pos ma) + ea - (Zpos (digits2_pos mb) + eb))%Z in
  exists k,
    mag_is (F2Q (Zpos ma) ea / F2Q (Zpos mb) eb) k /\ (a0 <= k)%Z.
Proof.
  intros a0.
  destruct (F2Q_mag ma ea) as [Hal Hau]. destruct (F2Q_mag mb eb) as [Hbl Hbu].
  pose proof (F2Q_pos mb eb) as Hb.
  set (A := F2Q (Zpos ma) ea) in *. set (B := F2Q (Zpos mb) eb) in *.
  assert (Hup : A / B < bpow (a0 + 1)).
  { apply Qlt_shift_div_r; [exact Hb | ].
    apply Qlt_le_trans with (bpow (Zpos (digits2_pos ma) + ea)); [exact Hau | ].
    replace (Zpos (digits2_pos ma) + ea)%Z
      with ((a0 + 1) + (Zpos (digits2_pos mb) + eb - 1))%Z by (unfold a0; lia).
    rewrite bpow_add. apply Qmult_le_l; [apply bpow_pos | exact Hbl]. }
  assert (Hlow : bpow (a0 - 1) < A / B).
  { apply Qlt_shift_div_l; [exact Hb | ].
    apply Qlt_le_trans with (bpow (Zpos (digits2_pos ma) + ea - 1)); [ | exact Hal].
    replace (Zpos (digits2_pos ma) + ea - 1)%Z
      with ((a0 - 1) + (Zpos (digits2_pos mb) + eb))%Z by (unfold a0; lia).
    rewrite bpow_add. apply Qmult_lt_l; [apply bpow_pos | exact Hbu]. }
  destruct (Qlt_le_dec (A / B) (bpow a0)) as [Hlt | Hge].
  - exists a0. split; [split; [apply Qlt_le_weak, Hlow | exact Hlt] | lia].
  - exists (a0 + 1)%Z. split; [ | lia]. split; [ | exact Hup].
    now replace (a0 + 1 - 1)%Z with a0 by lia.
Qed.

(** Division of a non-negative number by a positive one. *)
Lemma SFdiv_rounds (a b : spec_float) :
  valid64 a -> valid64 b -> finite_SF a = true -> finite_SF b = true ->
  nonneg_SF a -> positive_SF b ->
  rounds (SF2Q a / SF2Q b) (SFdiv prec emax a b).
Proof.
  intros Va Vb Fa Fb Na Pb.
  destruct b as [sb | sb | | sb mb eb]; try discriminate Fb; try contradiction.
  destruct sb; [contradiction | ].
  destruct a as [sa | sa | | sa ma ea]; try discriminate Fa.
  { left. split; [cbn [SF2Q]; unfold Qdiv; ring | cbn; now eexists]. }
  destruct sa; [contradiction | ].
  cbn [SFdiv xorb SF2Q cond_Zopp]. unfold SFdiv_core_binary.
  change (SpecFloat.fexp prec emax) with fexp64. cbn [Zdigits2].
  set (a0 := (Zpos (digits2_pos ma) + ea - (Zpos (digits2_pos mb) + eb))%Z).
  set (e' := Z.min (fexp64 a0) (ea - eb)).
  set (s := (ea - eb - e')%Z).
  assert (Hs : (0 <= s)%Z) by (unfold s, e'; lia).
  rewrite (shift_mantissa (Zpos ma) Hs).
  pose proof (Z_div_mod (Zpos ma * 2 ^ s) (Zpos mb) eq_refl) as Hdiv.
  destruct (Z.div_eucl (Zpos ma * 2 ^ s) (Zpos mb)) as [q r].
  destruct Hdiv as [Hqr Hr].
  assert (Hq : (0 <= q)%Z).
  { assert (H0 : (0 <= Zpos ma * 2 ^ s)%Z)
      by (apply Z.mul_nonneg_nonneg; [lia | apply Z.pow_nonneg; lia]).
    nia. }
  pose proof (F2Q_pos ma ea) as HA. pose proof (F2Q_pos mb eb) as HB.
  set (x := F2Q (Zpos ma) ea / F2Q (Zpos mb) eb).
  assert (Hx : 0 < x) by (apply Qlt_shift_div_l; [exact HB | lra]).
  destruct (quotient_mag ma mb ea eb) as [k [Hk Hak]]. fold a0 in Hak. fold x in Hk.
  assert (Hscaled : x * bpow (- e')
                    == inject_Z q + inject_Z r / inject_Z (Zpos mb)).
  { assert (Hb : 0 < inject_Z (Zpos mb)) by (apply (@Zlt_Q 0 _); lia).
    assert (Hm : inject_Z (Zpos ma) * bpow s
                 == inject_Z (Zpos mb) * inject_Z q + inject_Z r).
    { rewrite bpow_Z by exact Hs.
      rewrite <- inject_Z_mult, Hqr, inject_Z_plus, inject_Z_mult. reflexivity. }
    assert (Hea : bpow ea == bpow eb * bpow e' * bpow s).
    { rewrite <- !bpow_add. replace (eb + e' + s)%Z with ea by (unfold s; lia).
      reflexivity. }
    pose proof (bpow_pos eb) as Hpb. pose proof (bpow_pos e') as Hpe.
    unfold x, F2Q. rewrite bpow_inv, Hea.
    setoid_replace (inject_Z q + inject_Z r / inject_Z (Zpos mb))
      with ((inject_Z (Zpos mb) * inject_Z q + inject_Z r) / inject_Z (Zpos mb))
      by (field; lra).
    rewrite <- Hm. field. repeat split; lra. }
  destruct (@binary_round_aux_rounds x k q e' (new_location (Zpos mb) r))
    as [z [Hz [_ Hres]]].
  - exact Hx.
  - exact Hk.
  - apply (@located_ext (inject_Z q + inject_Z r / inject_Z (Zpos mb)));
      [now symmetry | ].
    apply new_location_located; [exact Hq | lia].
  - unfold e'. rewrite !fexp64_eq. lia.
  - right. split; [exact Hx | ]. exists k, z.
    split; [exact Hk | ]. split; [exact Hz | exact Hres].
Qed.

(** ** Positive results *)

Lemma nonneg_value (f : spec_float) : nonneg_SF f -> 0 <= SF2Q f.
Proof.
  destruct f as [s | s | | s m e]; cbn [SF2Q]; try lra.
  destruct s; [contradiction | ]. intros _. cbn [cond_Zopp].
  apply Qlt_le_weak, F2Q_pos.
Qed.

Lemma positive_value (f : spec_float) :
  positive_SF f -> finite_SF f = true -> 0 < SF2Q f.
Proof.
  destruct f as [s | s | | s m e]; cbn [positive_SF finite_SF]; try contradiction;
    try discriminate.
  destruct s; [contradiction | ]. intros _ _. apply F2Q_pos.
Qed.

Lemma positive_nonneg (f : spec_float) : positive_SF f -> nonneg_SF f.
Proof. destruct f as [s | [ | ] | | [ | ] m e]; cbn; tauto. Qed.

Lemma pack_positive (m E : Z) : (1 <= m)%Z -> positive_SF (pack m E).
Proof.
  intros Hm. unfold pack. destruct m as [ | p | p]; [lia | | lia].
  destruct (Z.pos p =? 2 ^ 53)%Z.
  - destruct (E + 1 <=? 971)%Z; exact I.
  - destruct (E <=? 971)%Z; exact I.
Qed.

(** A value that is at least the smallest positive number of the format
    does not round to zero. *)
Lemma rounds_positive (x : Q) (r : spec_float) :
  rounds x r -> bpow (-1074) <= x -> positive_SF r.
Proof.
  intros [[Hx _] | [Hx [k [m [Hk [Hm ->]]]]]] Hbig.
  { pose proof (bpow_pos (-1074)). lra. }
  apply pack_positive.
  destruct (Z.eq_dec (fexp64 k) (-1074)) as [HE | HE].
  - rewrite HE in Hm. change (- -1074)%Z with 1074%Z in Hm.
    apply (rne_mono (x := inject_Z 1) (y := x * bpow 1074));
      [apply rne_int | exact Hm | ].
    change (inject_Z 1) with 1. rewrite <- (bpow_opp (-1074)).
    change (- -1074)%Z with 1074%Z. now apply scale_le.
  - assert (H52 : (2 ^ 52 <= m)%Z).
    { apply (rne_normal Hk Hm). rewrite fexp64_eq in *. lia. }
    lia.
Qed.

(** Every number of the format is a multiple of the smallest one. *)
Lemma valid_grid (f : spec_float) :
  valid64 f -> exists n : Z, SF2Q f == inject_Z n * bpow (-1074).
Proof.
  intros Vf. destruct f as [s | s | | s m e];
    try (exists 0%Z; cbn [SF2Q]; ring).
  destruct (valid_finite Vf) as [Hc _].
  assert (He : (-1074 <= e)%Z) by (rewrite fexp64_eq in Hc; lia).
  exists (cond_Zopp s (Zpos m) * 2 ^ (e + 1074))%Z. cbn [SF2Q].
  change (inject_Z (cond_Zopp s (Zpos m) * 2 ^ (e + 1074)) * bpow (-1074))
    with (F2Q (cond_Zopp s (Zpos m) * 2 ^ (e + 1074)) (-1074)).
  replace (-1074)%Z with (e - (e + 1074))%Z at 1 by lia.
  symmetry. apply F2Q_shift. lia.
Qed.

Lemma valid_gap (a b : spec_float) :
  valid64 a -> valid64 b -> SF2Q b < SF2Q a -> bpow (-1074) <= SF2Q a - SF2Q b.
Proof.
  intros Va Vb Hlt.
  destruct (valid_grid Va) as [na Hna]. destruct (valid_grid Vb) as [nb Hnb].
  pose proof (bpow_pos (-1074)) as Hp.
  assert (Hn : (nb < na)%Z).
  { apply Q_Zlt. apply (Qmult_lt_r _ _ (bpow (-1074))); [exact Hp | ]. lra. }
  assert (Hq : inject_Z nb + 1 <= inject_Z na).
  { rewrite <- inject_Z_succ. apply Zle_Q. lia. }
  rewrite Hna, Hnb.
  setoid_replace (inject_Z na * bpow (-1074) - inject_Z nb * bpow (-1074))
    with ((inject_Z na - inject_Z nb) * bpow (-1074)) by ring.
  rewrite <- (Qmult_1_l (bpow (-1074))) at 1.
  apply Qmult_le_compat_r; lra.
Qed.

(** ** The order of all floats but NaN *)

Lemma valid_below_max (s : bool) (m : positive) (e : Z) :
  valid64 (S754_finite s m e) -> F2Q (Zpos m) e < bpow 1024.
Proof.
  intros Vf. destruct (valid_finite Vf) as [Hc He].
  destruct (F2Q_mag m e) as [_ Hu].
  apply Qlt_le_trans with (bpow (Zpos (digits2_pos m) + e)); [exact Hu | ].
  apply bpow_le. rewrite fexp64_eq in Hc. lia.
Qed.

Lemma SFkey_bounds (f : spec_float) :
  valid64 f -> finite_SF f = true ->
  - bpow 1024 < SFkey f /\ SFkey f < bpow 1024.
Proof.
  intros Vf Ff. pose proof (bpow_pos 1024) as Hp.
  destruct f as [s | s | | s m e]; try discriminate Ff; cbn [SFkey SF2Q].
  - lra.
  - pose proof (valid_below_max Vf) as Hm. pose proof (F2Q_pos m e) as H0.
    destruct s; cbn [cond_Zopp Z.opp]; [rewrite F2Q_neg | ]; lra.
Qed.

Lemma SFcompare_key (f g : spec_float) :
  valid64 f -> valid64 g -> f <> S754_nan -> g <> S754_nan ->
  SFcompare f g = Some (SFkey f ?= SFkey g).
Proof.
  intros Vf Vg Nf Ng. pose proof (bpow_pos 1024) as Hp.
  destruct (finite_SF f) eqn:Ff; destruct (finite_SF g) eqn:Fg.
  - rewrite (SFcompare_value Vf Vg Ff Fg).
    destruct f as [s | s | | s m e]; try discriminate Ff;
      destruct g as [s' | s' | | s' m' e']; try discriminate Fg; reflexivity.
  - destruct (SFkey_bounds Vf Ff) as [Hl Hu].
    destruct g as [s' | s' | | s' m' e']; try discriminate Fg; [ | congruence].
    assert (Hc : SFcompare f (S754_infinity s') = Some (if s' then Gt else Lt))
      by (destruct f as [s | s | | s m e]; try discriminate Ff; reflexivity).
    rewrite Hc. f_equal. symmetry. destruct s'; cbn [SFkey].
    + apply -> Qgt_alt. lra.
    + apply -> Qlt_alt. lra.
  - destruct (SFkey_bounds Vg Fg) as [Hl Hu].
    destruct f as [s | s | | s m e]; try discriminate Ff; [ | congruence].
    assert (Hc : SFcompare (S754_infinity s) g = Some (if s then Lt else Gt))
      by (destruct g as [s' | s' | | s' m' e']; try discriminate Fg; reflexivity).
    rewrite Hc. f_equal. symmetry. destruct s; cbn [SFkey].
    + apply -> Qlt_alt. lra.
    + apply -> Qgt_alt. lra.
  - destruct f as [s | s | | s m e]; try discriminate Ff; [ | congruence].
    destruct g as [s' | s' | | s' m' e']; try discriminate Fg; [ | congruence].
    cbn [SFcompare SFkey]. f_equal. symmetry.
    destruct s, s'.
    + apply -> Qeq_alt. reflexivity.
    + apply -> Qlt_alt. lra.
    + apply -> Qgt_alt. lra.
    + apply -> Qeq_alt. reflexivity.
Qed.

Lemma SFltb_key (f g : spec_float) :
  valid64 f -> valid64 g -> f <> S754_nan -> g <> S754_nan ->
  (SFltb f g = true <-> SFkey f < SFkey g).
Proof.
  intros Vf Vg Nf Ng. unfold SFltb. rewrite (SFcompare_key Vf Vg Nf Ng).
  destruct (Qcompare_spec (SFkey f) (SFkey g)) as [H | H | H]; split;
    try reflexivity; try discriminate; try lra.
Qed.

Lemma SFkey_finite (f lo hi : spec_float) :
  valid64 f -> valid64 lo -> valid64 hi -> f <> S754_nan ->
  finite_SF lo = true -> finite_SF hi = true ->
  SFkey lo <= SFkey f -> SFkey f <= SFkey hi -> finite_SF f = true.
Proof.
  intros Vf Vlo Vhi Nf Flo Fhi Hlo Hhi.
  destruct (SFkey_bounds Vlo Flo) as [Hl _].
  destruct (SFkey_bounds Vhi Fhi) as [_ Hu].
  destruct f as [s | [ | ] | | s m e]; try reflexivity; try congruence;
    cbn [SFkey] in Hlo, Hhi; lra.
Qed.

Lemma SFsub_finite_inv (a b : spec_float) :
  finite_SF (SFsub prec emax a b) = true ->
  finite_SF a = true /\ finite_SF b = true.
Proof.
  destruct a as [sa | sa | | sa ma ea]; destruct b as [sb | sb | | sb mb eb];
    cbn [SFsub finite_SF negb]; try (intros H; discriminate H);
    try (now split); try (destruct sa, sb; intros H; discriminate H).
Qed.

End Binary64RoundingFacts.

(** ** Depth to colour (C6) *)

Section Binary64Floats.

Local Open Scope Q_scope.

Lemma not_nan_spec (x : float) :
  PrimFloat.is_nan x = false -> Prim2SF x <> S754_nan.
Proof.
  intros H Hn. unfold PrimFloat.is_nan in H.
  rewrite FloatAxioms.eqb_spec, Hn in H. discriminate H.
Qed.

Lemma SFeqb_refl (f : spec_float) : f <> S754_nan -> SFeqb f f = true.
Proof.
  intros Hn. unfold SFeqb.
  destruct f as [s | s | | s m e]; [reflexivity | now destruct s | congruence | ].
  cbn [SFcompare]. rewrite Z.compare_refl, Pos.compare_cont_refl.
  now destruct s.
Qed.

Lemma is_finite_spec (x : float) :
  PrimFloat.is_finite x = finite_SF (Prim2SF x).
Proof.
  unfold PrimFloat.is_finite, PrimFloat.is_nan, PrimFloat.is_infinity.
  rewrite !FloatAxioms.eqb_spec, FloatAxioms.abs_spec.
  change (Prim2SF infinity) with (S754_infinity false).
  destruct (Prim2SF x) as [s | s | | s m e] eqn:Hx.
  - reflexivity.
  - now destruct s.
  - reflexivity.
  - rewrite SFeqb_refl by discriminate. reflexivity.
Qed.

Lemma finite_not_nan (x : float) :
  finite_SF (Prim2SF x) = true -> PrimFloat.is_nan x = false.
Proof.
  intros Hf. destruct (PrimFloat.is_nan x) eqn:Hn; [ | reflexivity].
  rewrite (Prim2SF_of_nan _ Hn) in Hf. discriminate Hf.
Qed.

Lemma ltb_key (x y : float) :
  PrimFloat.is_nan x = false -> PrimFloat.is_nan y = false ->
  (PrimFloat.ltb x y = true <-> SFkey (Prim2SF x) < SFkey (Prim2SF y)).
Proof.
  intros Hx Hy. rewrite FloatAxioms.ltb_spec.
  apply SFltb_key; try apply FloatAxioms.Prim2SF_valid; now apply not_nan_spec.
Qed.

Lemma leb_val (x y : float) :
  finite_SF (Prim2SF x) = true -> finite_SF (Prim2SF y) = true ->
  (PrimFloat.leb x y = true <-> val x <= val y).
Proof.
  intros Hx Hy. rewrite FloatAxioms.leb_spec.
  apply SFleb_value; try apply FloatAxioms.Prim2SF_valid; assumption.
Qed.

Lemma key_val (x : float) :
  finite_SF (Prim2SF x) = true -> SFkey (Prim2SF x) = val x.
Proof.
  unfold val. destruct (Prim2SF x) as [s | s | | s m e]; try discriminate;
    reflexivity.
Qed.

(** *** [np.min] and [np.max] on floats without NaN *)

Lemma np_minimum_key (x y : float) :
  PrimFloat.is_nan x = false -> PrimFloat.is_nan y = false ->
  (np_minimum x y = x \/ np_minimum x y = y)
  /\ PrimFloat.is_nan (np_minimum x y) = false
  /\ SFkey (Prim2SF (np_minimum x y)) <= SFkey (Prim2SF x)
  /\ SFkey (Prim2SF (np_minimum x y)) <= SFkey (Prim2SF y).
Proof.
  intros Hx Hy. unfold np_minimum. cbn [isnan fltb Binary64].
  rewrite Hx, Hy. destruct (PrimFloat.ltb y x) eqn:Hlt.
  - apply (@ltb_key y x Hy Hx) in Hlt. repeat split; try lra; auto.
  - assert (Hge : ~ SFkey (Prim2SF y) < SFkey (Prim2SF x)).
    { intros H. apply (@ltb_key y x Hy Hx) in H. congruence. }
    apply Qnot_lt_le in Hge. repeat split; try lra; auto.
Qed.

Lemma np_maximum_key (x y : float) :
  PrimFloat.is_nan x = false -> PrimFloat.is_nan y = false ->
  (np_maximum x y = x \/ np_maximum x y = y)
  /\ PrimFloat.is_nan (np_maximum x y) = false
  /\ SFkey (Prim2SF x) <= SFkey (Prim2SF (np_maximum x y))
  /\ SFkey (Prim2SF y) <= SFkey (Prim2SF (np_maximum x y)).
Proof.
  intros Hx Hy. unfold np_maximum. cbn [isnan fltb Binary64].
  rewrite Hx, Hy. destruct (PrimFloat.ltb x y) eqn:Hlt.
  - apply (@ltb_key x y Hx Hy) in Hlt. repeat split; try lra; auto.
  - assert (Hge : ~ SFkey (Prim2SF x) < SFkey (Prim2SF y)).
    { intros H. apply (@ltb_key x y Hx Hy) in H. congruence. }
    apply Qnot_lt_le in Hge. repeat split; try lra; auto.
Qed.

Lemma fold_np_minimum_key (rest : list float) :
  forall x : float,
    PrimFloat.is_nan x = false ->
    Forall (fun d => PrimFloat.is_nan d = false) rest ->
    In (fold_left np_minimum rest x) (x :: rest)
    /\ PrimFloat.is_nan (fold_left np_minimum rest x) = false
    /\ Forall (fun d => SFkey (Prim2SF (fold_left np_minimum rest x))
                        <= SFkey (Prim2SF d)) (x :: rest).
Proof.
  induction rest as [ | y t IH]; intros x Hx Hrest; cbn [fold_left].
  - split; [now left | ]. split; [exact Hx | ]. constructor; [lra | constructor].
  - inversion Hrest as [ | y' t' Hy Ht]; subst.
    destruct (@np_minimum_key x y Hx Hy) as [Hsel [Hnan [Hlx Hly]]].
    destruct (IH (np_minimum x y) Hnan Ht) as [Hin [Hn Hall]].
    inversion Hall as [ | r l Hr Hl]; subst.
    split; [ | split; [exact Hn | ]].
    + destruct Hin as [Hin | Hin]; [ | now right; right].
      rewrite <- Hin. destruct Hsel as [-> | ->]; [now left | right; now left].
    + constructor; [lra | ]. constructor; [lra | exact Hl].
Qed.

Lemma fold_np_maximum_key (rest : list float) :
  forall x : float,
    PrimFloat.is_nan x = false ->
    Forall (fun d => PrimFloat.is_nan d = false) rest ->
    In (fold_left np_maximum rest x) (x :: rest)
    /\ PrimFloat.is_nan (fold_left np_maximum rest x) = false
    /\ Forall (fun d => SFkey (Prim2SF d)
                        <= SFkey (Prim2SF (fold_left np_maximum rest x)))
              (x :: rest).
Proof.
  induction rest as [ | y t IH]; intros x Hx Hrest; cbn [fold_left].
  - split; [now left | ]. split; [exact Hx | ]. constructor; [lra | constructor].
  - inversion Hrest as [ | y' t' Hy Ht]; subst.
    destruct (@np_maximum_key x y Hx Hy) as [Hsel [Hnan [Hlx Hly]]].
    destruct (IH (np_maximum x y) Hnan Ht) as [Hin [Hn Hall]].
    inversion Hall as [ | r l Hr Hl]; subst.
    split; [ | split; [exact Hn | ]].
    + destruct Hin as [Hin | Hin]; [ | now right; right].
      rewrite <- Hin. destruct Hsel as [-> | ->]; [now left | right; now left].
    + constructor; [lra | ]. constructor; [lra | exact Hl].
Qed.

Lemma nan_or_not (l : list float) :
  Forall (fun d => PrimFloat.is_nan d = false) l
  \/ Exists (fun d => isnan d = true) l.
Proof.
  induction l as [ | d t [Hall | Hex]].
  - left. constructor.
  - destruct (PrimFloat.is_nan d) eqn:Hd.
    + right. now left.
    + left. now constructor.
  - right. now right.
Qed.

(** When the minimum is below the maximum and their difference is finite,
    no depth is NaN or infinite, and every depth lies between the two. *)
Lemma depths_between (depths : list float) (mn mx : float) :
  np_min depths = Ok mn -> np_max depths = Ok mx ->
  PrimFloat.ltb mn mx = true ->
  PrimFloat.is_finite (PrimFloat.sub mx mn) = true ->
  In mn depths /\ In mx depths
  /\ finite_SF (Prim2SF mn) = true /\ finite_SF (Prim2SF mx) = true
  /\ val mn < val mx
  /\ Forall (fun d => finite_SF (Prim2SF d) = true
                      /\ val mn <= val d /\ val d <= val mx) depths.
Proof.
  intros Hmn Hmx Hlt Hfin.
  destruct depths as [ | x rest]; [discriminate Hmn | ].
  cbn [np_min np_max] in Hmn, Hmx. injection Hmn as Hmn. injection Hmx as Hmx.
  destruct (nan_or_not (x :: rest)) as [Hall | Hex].
  2:{ exfalso. apply nan_in_nonempty in Hex.
      pose proof (@fold_np_minimum_nan float Binary64 rest x Hex) as Hnan.
      rewrite Hmn in Hnan.
      pose proof (@nan_not_below float Binary64 Binary64_nan_unordered mn mx Hnan)
        as Hno.
      cbn in Hno. congruence. }
  inversion Hall as [ | x' rest' Hx Hrest]; subst x' rest'.
  destruct (@fold_np_minimum_key rest x Hx Hrest) as [Hin_mn [Hn_mn Hlow]].
  destruct (@fold_np_maximum_key rest x Hx Hrest) as [Hin_mx [Hn_mx Hhigh]].
  rewrite Hmn in Hin_mn, Hn_mn, Hlow. rewrite Hmx in Hin_mx, Hn_mx, Hhigh.
  rewrite is_finite_spec, FloatAxioms.sub_spec in Hfin.
  apply SFsub_finite_inv in Hfin. destruct Hfin as [Fmx Fmn].
  split; [exact Hin_mn | ]. split; [exact Hin_mx | ].
  split; [exact Fmn | ]. split; [exact Fmx | ]. split.
  { apply (@ltb_key mn mx Hn_mn Hn_mx) in Hlt.
    now rewrite (@key_val mn Fmn), (@key_val mx Fmx) in Hlt. }
  rewrite Forall_forall in *. intros d Hd.
  specialize (Hlow d Hd). specialize (Hhigh d Hd). specialize (Hall d Hd).
  assert (Fd : finite_SF (Prim2SF d) = true).
  { apply (@SFkey_finite (Prim2SF d) (Prim2SF mn) (Prim2SF mx));
      try apply FloatAxioms.Prim2SF_valid; try assumption.
    now apply not_nan_spec. }
  split; [exact Fd | ].
  now rewrite (@key_val mn Fmn), (@key_val mx Fmx), (@key_val d Fd) in *.
Qed.

(** *** The four operations of the colormap position *)

Lemma sub_rounds (a b : float) :
  finite_SF (Prim2SF a) = true -> finite_SF (Prim2SF b) = true ->
  val b <= val a ->
  rounds (val a - val b) (Prim2SF (PrimFloat.sub a b)).
Proof.
  intros Fa Fb Hle. rewrite FloatAxioms.sub_spec.
  apply SFsub_rounds; try apply FloatAxioms.Prim2SF_valid; assumption.
Qed.

Lemma div_rounds (a b : float) :
  finite_SF (Prim2SF a) = true -> finite_SF (Prim2SF b) = true ->
  nonneg_SF (Prim2SF a) -> positive_SF (Prim2SF b) ->
  rounds (val a / val b) (Prim2SF (PrimFloat.div a b)).
Proof.
  intros Fa Fb Na Pb. rewrite FloatAxioms.div_spec.
  apply SFdiv_rounds; try apply FloatAxioms.Prim2SF_valid; assumption.
Qed.

Lemma mul_rounds (a b : float) :
  finite_SF (Prim2SF a) = true -> finite_SF (Prim2SF b) = true ->
  nonneg_SF (Prim2SF a) -> nonneg_SF (Prim2SF b) ->
  rounds (val a * val b) (Prim2SF (PrimFloat.mul a b)).
Proof.
  intros Fa Fb Na Nb. rewrite FloatAxioms.mul_spec.
  apply SFmul_rounds; try apply FloatAxioms.Prim2SF_valid; assumption.
Qed.

Lemma add_rounds (a b : float) :
  finite_SF (Prim2SF a) = true -> finite_SF (Prim2SF b) = true ->
  nonneg_SF (Prim2SF a) -> nonneg_SF (Prim2SF b) ->
  rounds (val a + val b) (Prim2SF (PrimFloat.add a b)).
Proof.
  intros Fa Fb Na Nb. rewrite FloatAxioms.add_spec.
  apply SFadd_rounds; try apply FloatAxioms.Prim2SF_valid; assumption.
Qed.

Lemma exact_rounds (a : float) :
  finite_SF (Prim2SF a) = true -> nonneg_SF (Prim2SF a) ->
  rounds (val a) (Prim2SF a).
Proof.
  intros Fa Na. apply rounds_exact; [apply FloatAxioms.Prim2SF_valid | | ];
    assumption.
Qed.

(** A result that is not above a number is a number, with the order of
    the values. *)
Lemma rounds_below (p q : float) (x y : Q) :
  rounds x (Prim2SF p) -> rounds y (Prim2SF q) -> x <= y ->
  finite_SF (Prim2SF q) = true ->
  PrimFloat.leb p q = true
  /\ finite_SF (Prim2SF p) = true /\ nonneg_SF (Prim2SF p)
  /\ 0 <= val p /\ val p <= val q.
Proof.
  intros Hp Hq Hxy Fq.
  assert (Hle : PrimFloat.leb p q = true)
    by (rewrite FloatAxioms.leb_spec; exact (rounds_mono Hp Hq Hxy)).
  pose proof (rounds_nonneg Hp) as Np.
  assert (Fp : finite_SF (Prim2SF p) = true).
  { apply (@nonneg_below_finite (Prim2SF p) (Prim2SF q) Np Fq).
    now rewrite <- FloatAxioms.leb_spec. }
  split; [exact Hle | ]. split; [exact Fp | ]. split; [exact Np | ].
  split; [now apply nonneg_value | ]. now apply (@leb_val p q Fp Fq).
Qed.

End Binary64Floats.

Section Binary64Positions.

Local Open Scope Q_scope.

Variables mn mx : float.
Hypothesis Fmn : finite_SF (Prim2SF mn) = true.
Hypothesis Fmx : finite_SF (Prim2SF mx) = true.
Hypothesis Hlt : val mn < val mx.
Hypothesis FD : finite_SF (Prim2SF (PrimFloat.sub mx mn)) = true.

Lemma literals_are_numbers :
  (finite_SF (Prim2SF (lit 0.4)) = true /\ nonneg_SF (Prim2SF (lit 0.4)))
  /\ (finite_SF (Prim2SF (lit 0.6)) = true /\ nonneg_SF (Prim2SF (lit 0.6)))
  /\ (finite_SF (Prim2SF (lit 1)) = true /\ nonneg_SF (Prim2SF (lit 1)))
  /\ val (lit 1) == 1
  /\ PrimFloat.add (lit 0.4) (lit 0.6) = lit 1.
Proof.
  repeat split; try (vm_compute; reflexivity); vm_compute; exact I.
Qed.

Lemma range_is_positive :
  rounds (val mx - val mn) (Prim2SF (PrimFloat.sub mx mn))
  /\ positive_SF (Prim2SF (PrimFloat.sub mx mn))
  /\ 0 < val (PrimFloat.sub mx mn).
Proof.
  assert (Hr : rounds (val mx - val mn) (Prim2SF (PrimFloat.sub mx mn)))
    by (apply sub_rounds; try assumption; lra).
  assert (Hp : positive_SF (Prim2SF (PrimFloat.sub mx mn))).
  { apply (@rounds_positive (val mx - val mn)); [exact Hr | ].
    apply valid_gap; try apply FloatAxioms.Prim2SF_valid. exact Hlt. }
  split; [exact Hr | ]. split; [exact Hp | ]. now apply positive_value.
Qed.

(** The four roundings on the way from a depth to its position. *)
Lemma position_stages (d : float) :
  finite_SF (Prim2SF d) = true -> val mn <= val d -> val d <= val mx ->
  let D := PrimFloat.sub mx mn in
  let a := PrimFloat.sub d mn in
  let n := PrimFloat.div a D in
  let y := PrimFloat.mul n (lit 0.6) in
  (rounds (val d - val mn) (Prim2SF a)
   /\ finite_SF (Prim2SF a) = true /\ nonneg_SF (Prim2SF a)
   /\ val a <= val D)
  /\ (rounds (val a / val D) (Prim2SF n)
      /\ finite_SF (Prim2SF n) = true /\ nonneg_SF (Prim2SF n)
      /\ val n <= 1)
  /\ (rounds (val n * val (lit 0.6)) (Prim2SF y)
      /\ finite_SF (Prim2SF y) = true /\ nonneg_SF (Prim2SF y)
      /\ val y <= val (lit 0.6))
  /\ rounds (val (lit 0.4) + val y) (Prim2SF (colormap_position n)).
Proof.
  intros Fd Hlow Hhigh D a n y.
  destruct literals_are_numbers as [[F04 N04] [[F06 N06] [[F1 N1] [V1 _]]]].
  destruct range_is_positive as [HDr [HDp HDv]]. fold D in HDr, HDp, HDv, FD.
  assert (Har : rounds (val d - val mn) (Prim2SF a))
    by (apply sub_rounds; assumption).
  destruct (@rounds_below a D (val d - val mn) (val mx - val mn) Har HDr)
    as [_ [Fa [Na [Ha0 HaD]]]]; [lra | exact FD | ].
  assert (Hnr : rounds (val a / val D) (Prim2SF n))
    by (apply div_rounds; assumption).
  assert (Hratio : val a / val D <= 1).
  { apply Qle_shift_div_r; [exact HDv | lra]. }
  assert (H1r : rounds 1 (Prim2SF (lit 1))).
  { apply (@rounds_ext (val (lit 1))); [exact V1 | now apply exact_rounds]. }
  destruct (@rounds_below n (lit 1) (val a / val D) 1 Hnr H1r Hratio F1)
    as [_ [Fn [Nn [Hn0 Hn1]]]].
  assert (Hyr : rounds (val n * val (lit 0.6)) (Prim2SF y))
    by (apply mul_rounds; assumption).
  pose proof (nonneg_value _ N06) as H06.
  assert (Hprod : val n * val (lit 0.6) <= val (lit 0.6)).
  { rewrite <- (Qmult_1_l (val (lit 0.6))) at 2.
    apply Qmult_le_compat_r; [lra | exact H06]. }
  destruct (@rounds_below y (lit 0.6) (val n * val (lit 0.6)) (val (lit 0.6))
              Hyr (exact_rounds _ F06 N06) Hprod F06)
    as [_ [Fy [Ny [Hy0 Hy1]]]].
  split; [repeat split; assumption | ].
  split; [repeat split; try assumption; lra | ].
  split; [repeat split; assumption | ].
  apply (add_rounds _ _ F04 Fy N04 Ny).
Qed.

(** The position is between 0.4 and 1.0. *)
Lemma position_in_range (d : float) :
  finite_SF (Prim2SF d) = true -> val mn <= val d -> val d <= val mx ->
  let position :=
    colormap_position (PrimFloat.div (PrimFloat.sub d mn) (PrimFloat.sub mx mn)) in
  PrimFloat.leb (lit 0.4) position = true
  /\ PrimFloat.leb position (lit 1) = true.
Proof.
  intros Fd Hlow Hhigh position.
  destruct literals_are_numbers as [[F04 N04] [[F06 N06] [[F1 N1] [V1 Hsum]]]].
  destruct (@position_stages d Fd Hlow Hhigh)
    as [_ [_ [[_ [Fy [Ny Hy]]] Hp]]].
  fold position in Hp. cbv zeta in Hy, Fy, Ny, Hp.
  pose proof (nonneg_value _ Ny) as Hy0.
  split.
  - rewrite FloatAxioms.leb_spec.
    apply (rounds_mono (exact_rounds _ F04 N04) Hp). unfold val in *. lra.
  - rewrite FloatAxioms.leb_spec.
    apply (rounds_mono Hp (y := val (lit 0.4) + val (lit 0.6))).
    + rewrite <- Hsum. now apply add_rounds.
    + lra.
Qed.

(** A depth that is not smaller gets a position that is not smaller. *)
Lemma position_monotone (d1 d2 : float) :
  finite_SF (Prim2SF d1) = true -> val mn <= val d1 -> val d1 <= val mx ->
  finite_SF (Prim2SF d2) = true -> val mn <= val d2 -> val d2 <= val mx ->
  val d1 <= val d2 ->
  PrimFloat.leb
    (colormap_position (PrimFloat.div (PrimFloat.sub d1 mn) (PrimFloat.sub mx mn)))
    (colormap_position (PrimFloat.div (PrimFloat.sub d2 mn) (PrimFloat.sub mx mn)))
  = true.
Proof.
  intros F1 L1 U1 F2 L2 U2 Hle.
  destruct literals_are_numbers as [[F04 N04] [[F06 N06] _]].
  destruct range_is_positive as [_ [_ HDv]].
  destruct (@position_stages d1 F1 L1 U1)
    as [[Ha1 [Fa1 [Na1 _]]] [[Hn1 [Fn1 [Nn1 _]]] [[Hy1 [Fy1 [Ny1 _]]] Hp1]]].
  destruct (@position_stages d2 F2 L2 U2)
    as [[Ha2 [Fa2 [Na2 _]]] [[Hn2 [Fn2 [Nn2 _]]] [[Hy2 [Fy2 [Ny2 _]]] Hp2]]].
  cbv zeta in *.
  assert (Ha : val (PrimFloat.sub d1 mn) <= val (PrimFloat.sub d2 mn)).
  { apply (@leb_val _ _ Fa1 Fa2). rewrite FloatAxioms.leb_spec.
    apply (rounds_mono Ha1 Ha2). lra. }
  assert (Hn : val (PrimFloat.div (PrimFloat.sub d1 mn) (PrimFloat.sub mx mn))
               <= val (PrimFloat.div (PrimFloat.sub d2 mn) (PrimFloat.sub mx mn))).
  { apply (@leb_val _ _ Fn1 Fn2). rewrite FloatAxioms.leb_spec.
    apply (rounds_mono Hn1 Hn2). unfold Qdiv.
    apply Qmult_le_compat_r; [exact Ha | ].
    apply Qinv_le_0_compat. lra. }
  assert (Hy : val (PrimFloat.mul
                      (PrimFloat.div (PrimFloat.sub d1 mn) (PrimFloat.sub mx mn))
                      (lit 0.6))
               <= val (PrimFloat.mul
                         (PrimFloat.div (PrimFloat.sub d2 mn) (PrimFloat.sub mx mn))
                         (lit 0.6))).
  { apply (@leb_val _ _ Fy1 Fy2). rewrite FloatAxioms.leb_spec.
    apply (rounds_mono Hy1 Hy2).
    apply Qmult_le_compat_r; [exact Hn | now apply nonneg_value]. }
  rewrite FloatAxioms.leb_spec. apply (rounds_mono Hp1 Hp2). lra.
Qed.

(** The minimum gets the position 0.4 and the maximum the position 1.0. *)
Lemma position_ends :
  colormap_position (PrimFloat.div (PrimFloat.sub mn mn) (PrimFloat.sub mx mn))
  = lit 0.4
  /\ colormap_position (PrimFloat.div (PrimFloat.sub mx mn) (PrimFloat.sub mx mn))
     = lit 1.
Proof.
  destruct literals_are_numbers as [[F04 N04] [[F06 N06] [[F1 N1] [V1 _]]]].
  destruct range_is_positive as [HDr [HDp HDv]].
  split.
  - apply FloatAxioms.Prim2SF_inj.
    destruct (@position_stages mn Fmn) as [[Ha _] _]; try lra.
    cbv zeta in Ha.
    destruct Ha as [[_ [s Hzero]] | [Hpos _]]; [ | lra].
    unfold colormap_position. cbn [fadd fmul Binary64].
    rewrite FloatAxioms.add_spec, FloatAxioms.mul_spec, FloatAxioms.div_spec, Hzero.
    destruct (Prim2SF (PrimFloat.sub mx mn)) as [sD | sD | | sD mD eD];
      try discriminate FD; try contradiction.
    destruct (Prim2SF (lit 0.6)) as [s6 | s6 | | s6 m6 e6] eqn:H6;
      try discriminate H6.
    destruct (Prim2SF (lit 0.4)) as [s4 | s4 | | s4 m4 e4] eqn:H4;
      try discriminate H4.
    reflexivity.
  - assert (Hn : PrimFloat.div (PrimFloat.sub mx mn) (PrimFloat.sub mx mn) = lit 1).
    { apply FloatAxioms.Prim2SF_inj.
      destruct (@position_stages mx Fmx) as [_ [[Hn _] _]]; try lra.
      cbv zeta in Hn.
      apply (@rounds_unique 1); [reflexivity | | ].
      - apply (@rounds_ext (val (PrimFloat.sub mx mn) / val (PrimFloat.sub mx mn)));
          [field; lra | exact Hn].
      - apply (@rounds_ext (val (lit 1))); [exact V1 | now apply exact_rounds]. }
    rewrite Hn. vm_compute. reflexivity.
Qed.

End Binary64Positions.



(** ** When every record is filtered out *)

Section AllFiltered.

Context {num : Type} {F : PyFloat num}.
Variable drv : Drivers num.
Variable geo : GeometryLib num.

Lemma keep_nothing (A : Type) (mask : list bool) (xs : list A) :
  Forall (fun b => b = false) mask -> keep mask xs = [].
Proof.
  intros Hmask. revert xs. induction Hmask as [ | b m Hb _ IH]; intros xs.
  - reflexivity.
  - destruct xs as [ | x t]; [reflexivity | ]. cbn [keep]. rewrite Hb. apply IH.
Qed.

Lemma keep_array_nothing (mask mask0 : list bool) (a : array num) :
  Forall (fun b => b = false) mask ->
  keep_array mask (keep_array mask0 a) = empty_like a.
Proof.
  intros Hmask. destruct a; cbn [keep_array empty_like];
    now rewrite keep_nothing.
Qed.

Lemma type_mask_all_false (gdf : GeoDataFrame num) :
  (forall g, In g (geometry gdf) -> polygonal g = false) ->
  let gdf1 := select gdf (notnull gdf) in
  Forall (fun b => b = false) (geom_type_isin gdf1 ["Polygon"; "MultiPolygon"]).
Proof.
  intros Hnone gdf1. unfold geom_type_isin.
  rewrite (map_ext _ (@polygonal num)) by apply polygonal_type.
  apply Forall_forall. intros b Hb. apply in_map_iff in Hb.
  destruct Hb as [g [<- Hg]]. apply Hnone.
  unfold gdf1, notnull in Hg. cbn [geometry select] in Hg.
  rewrite (keep_map_filter (@not_null num)) in Hg.
  apply filter_In in Hg. apply Hg.
Qed.

End AllFiltered.

(** X2.  When no record of the parsed frame is a non-null Polygon or
    MultiPolygon, the plot script's loader returns, without raising, the
    frame with the same columns (names and dtypes) and no rows; the renderer
    called on it prints the warning and raises [ValueError]. *)
Theorem all_filtered_frame_loads_empty_then_renderer_raises :
  forall (num : Type) (F : PyFloat num) (drv : Drivers num)
         (geo : GeometryLib num) (rng : Type) (plt : PlotLib num rng)
         (path : string) (gdf0 : GeoDataFrame num)
         (show_depth_labels : bool) (depth_column : option string) (s : rng),
    plot_parse drv path = Ok gdf0 ->
    (forall g, In g (geometry gdf0) -> polygonal g = false) ->
    exists out msgs,
      snd (read_polygons drv path) = Ok out
      /\ out = empty_frame num (columns gdf0)
                 (match crs gdf0 with
                  | None => Some EPSG_4326
                  | Some c => Some c
                  end)
      /\ plot_extruded_3d geo plt (Some out) show_depth_labels depth_column s
         = (WarnEmptyFrame :: msgs, Raise (zero_size "minimum")).
Proof.
  intros num F drv geo rng plt path gdf0 show_depth_labels depth_column s
         Hparse Hnone.
  assert (Hout : snd (read_polygons drv path)
            = Ok (empty_frame num (columns gdf0)
                    (match crs gdf0 with
                     | None => Some EPSG_4326
                     | Some c => Some c
                     end))).
  { unfold plot_parse in Hparse. unfold read_polygons.
    assert (Hread : (let (_, read) :=
              match gpd_read_file drv path (Some "LIBKML") with
              | Ok gdf => ([Some "LIBKML"], Ok gdf)
              | Raise _ => ([Some "LIBKML"; None], gpd_read_file drv path None)
              end in read) = Ok gdf0).
    { destruct (gpd_read_file drv path (Some "LIBKML")); exact Hparse. }
    destruct (match gpd_read_file drv path (Some "LIBKML") with
              | Ok gdf => ([Some "LIBKML"], Ok gdf)
              | Raise _ => ([Some "LIBKML"; None], gpd_read_file drv path None)
              end) as [attempts read].
    subst read. cbn [snd bind]. f_equal.
    pose proof (type_mask_all_false gdf0 Hnone) as Hmask. cbn zeta in Hmask.
    set (gdf1 := select gdf0 (notnull gdf0)) in *.
    set (mask := geom_type_isin gdf1 ["Polygon"; "MultiPolygon"]) in *.
    assert (Hsel : select gdf1 mask = empty_frame num (columns gdf0) (crs gdf0)).
    { unfold select, empty_frame. f_equal.
      - unfold gdf1. cbn [columns select]. rewrite !map_map. apply map_ext.
        intros [n v]. cbn [fst snd]. now rewrite keep_array_nothing.
      - now apply keep_nothing. }
    rewrite Hsel. cbn [crs empty_frame]. destruct (crs gdf0); reflexivity. }
  destruct (renderer_raises_on_empty_frame geo plt (columns gdf0)
              (match crs gdf0 with
               | None => Some EPSG_4326
               | Some c => Some c
               end) show_depth_labels depth_column s) as [msgs Hplot].
  eexists _, msgs. split; [exact Hout | ]. split; [reflexivity | exact Hplot].
Qed.

Lemma all_filtered_witness_points_only :
  exists out msgs,
    snd (read_polygons
           (constant_drivers
              (mkGDF [("depth", Float64 [1%Q; 2%Q]); ("name", Object [Some "a"; None])]
                     [Some (GPoint (pt 0 0)); None] None)) "doc.kml") = Ok out
    /\ out = empty_frame Q [("depth", Float64 []); ("name", Object [])]
               (Some EPSG_4326)
    /\ plot_extruded_3d plain_geometry_lib toy_plot_lib (Some out) false None 0%nat
       = (WarnEmptyFrame :: msgs, Raise (zero_size "minimum")).
Proof.
  apply (@all_filtered_frame_loads_empty_then_renderer_raises
           Q ExactFloat
           (constant_drivers
              (mkGDF [("depth", Float64 [1%Q; 2%Q]); ("name", Object [Some "a"; None])]
                     [Some (GPoint (pt 0 0)); None] None))
           plain_geometry_lib nat toy_plot_lib "doc.kml"
           (mkGDF [("depth", Float64 [1%Q; 2%Q]); ("name", Object [Some "a"; None])]
                  [Some (GPoint (pt 0 0)); None] None)
           false None 0%nat).
  - reflexivity.
  - intros g [<- | [<- | []]]; reflexivity.
Defined.

(** * Further properties of the scripts *)

(** ** The search of the plot script against the walks *)

Lemma first_file_of_listing (es : list entry) (n : string) :
  find (fun e => is_kml_name (entry_name e)) es = Some (File n) ->
  find is_kml_name (filenames es) = Some n.
Proof.
  induction es as [ | e rest IH]; cbn [find]; [discriminate | ].
  destruct e as [m | m children]; cbn [entry_name].
  - unfold filenames. cbn [flat_map app find]. fold (filenames rest).
    destruct (is_kml_name m).
    + intros Heq. now injection Heq as ->.
    + exact IH.
  - unfold filenames. cbn [flat_map app]. fold (filenames rest).
    destruct (is_kml_name m); [discriminate | exact IH].
Qed.

Lemma extract_kml_listing (es : list entry) (td : string) :
  extract_kml (Archive es) td
    = match find (fun e => is_kml_name (entry_name e)) es with
      | Some e => Ok (path_join td (entry_name e))
      | None => Raise (FileNotFoundError "No .kml inside KMZ")
      end.
Proof.
  unfold extract_kml, os_listdir. cbn [extractall]. rewrite first_kml_find.
  induction es as [ | e rest IH]; cbn [map find]; [reflexivity | ].
  destruct (is_kml_name (entry_name e)); [reflexivity | exact IH].
Qed.

(** X4.  The plot script's [extract_kml] returns the first entry of the top
    directory, file or folder, whose lower-cased name ends in ".kml", and
    raises when the top directory has none.  Whenever the entry it returns is
    a file, the two loaders that walk the tree return the same path. *)
Theorem listdir_search_agrees_with_walk_on_top_level_files :
  forall (es : list entry) (td kmz_path : string),
    extract_kml (Archive es) td
      = match find (fun e => is_kml_name (entry_name e)) es with
        | Some e => Ok (path_join td (entry_name e))
        | None => Raise (FileNotFoundError "No .kml inside KMZ")
        end
    /\ (forall n,
          find (fun e => is_kml_name (entry_name e)) es = Some (File n) ->
          read_kmz_geopandas.extract_kml_from_kmz kmz_path (Archive es) td
            = extract_kml (Archive es) td
          /\ read_kml_with_pyogrio.extract_kml (Archive es) td
             = extract_kml (Archive es) td)
    /\ (forall n children,
          find (fun e => is_kml_name (entry_name e)) es = Some (Dir n children) ->
          extract_kml (Archive es) td = Ok (path_join td n)).
Proof.
  intros es td kmz_path. split; [apply extract_kml_listing | ]. split.
  - intros n Hfind. rewrite extract_kml_listing, Hfind. cbn [entry_name].
    unfold read_kmz_geopandas.extract_kml_from_kmz,
      read_kml_with_pyogrio.extract_kml.
    cbn [path_exists negb extractall bind]. rewrite search_walk_first. unfold os_walk.
    change (walk_files ((td, dirnames es, filenames es)
                          :: flat_map (walk_entry td) es))
      with (map (fun f => (td, f)) (filenames es)
              ++ walk_files (flat_map (walk_entry td) es)).
    rewrite find_app, find_map_snd, (first_file_of_listing es Hfind).
    now split.
  - intros n children Hfind. now rewrite extract_kml_listing, Hfind.
Qed.

(** ** Closed rings *)

Lemma combine_longer_left (A B : Type) (l : list A) (l' : list B) (x : A) :
  List.length l = List.length l' -> combine (l ++ [x]) l' = combine l l'.
Proof.
  revert l'. induction l as [ | a t IH]; intros [ | b t'] Hlen;
    try discriminate Hlen; cbn.
  - reflexivity.
  - f_equal. apply IH. now injection Hlen.
Qed.

(** X5.  Shapely gives the exterior of a polygon as a closed ring: the first
    vertex is repeated at the end.  For such a ring the side walls are one
    quadrilateral for every edge of the polygon, the edge from the last
    distinct vertex back to the first included: the loop over [n - 1] pairs
    leaves no gap. *)
Theorem closed_ring_has_a_wall_for_every_edge :
  forall (num : Type) (F : PyFloat num) (first : coord num)
         (others : list (coord num)) (interior : list (ring num)) (depth : num)
         (water_rgba side_rgba edge_color : color num),
    let distinct := first :: others in
    let poly := mkPolygon (distinct ++ [first]) interior in
    let height := fadd base_z (fmul depth (lit 0.05)) in
    exists top bottom sides,
      extrusion poly depth water_rgba side_rgba edge_color
        = Ok [top; bottom; sides]
      /\ verts sides
         = map (fun e => wall height (fst e) (snd e))
               (combine distinct (others ++ [first]))
      /\ List.length (verts sides) = List.length distinct.
Proof.
  intros num F first others interior depth water_rgba side_rgba edge_color
         distinct poly height.
  destruct (@extrusion_is_ring_mesh num F poly depth water_rgba side_rgba edge_color)
    as [top [bottom [sides [Hrun Hmesh]]]]; [discriminate | ].
  exists top, bottom, sides. split; [exact Hrun | ].
  assert (Hsides : verts sides
            = map (fun e => wall height (fst e) (snd e))
                  (combine (distinct ++ [first]) (tl (distinct ++ [first])))).
  { unfold ring_mesh in Hmesh. now injection Hmesh. }
  rewrite Hsides.
  assert (Hpairs : combine (distinct ++ [first]) (tl (distinct ++ [first]))
            = combine distinct (others ++ [first])).
  { unfold distinct. cbn [app tl].
    change (first :: others ++ [first]) with ((first :: others) ++ [first]).
    apply combine_longer_left. rewrite length_app. cbn [List.length]. lia. }
  rewrite Hpairs. split; [reflexivity | ].
  rewrite length_map, length_combine, length_app. unfold distinct.
  cbn [List.length]. lia.
Qed.


(** ** How the renderer ends *)

Section RendererOutcome.

Context {num : Type} {F : PyFloat num}.
Variable geo : GeometryLib num.
Variable rng : Type.
Variable plt : PlotLib num rng.

Local Open Scope py_scope.

Lemma set_lim_error (low high : num) (e : exn) :
  set_lim low high = Raise e -> e = ValueError "Axis limits cannot be NaN or Inf".
Proof.
  unfold set_lim. destruct (isfinite low && isfinite high)%bool;
    [discriminate | now intros [= <-]].
Qed.

Lemma axis_limits_error (xs ys : list num) (max_depth : num) (e : exn) :
  axis_limits xs ys max_depth = Raise e ->
  e = ValueError "Axis limits cannot be NaN or Inf".
Proof.
  unfold axis_limits. destruct xs as [ | x0 xr]; [discriminate | ].
  destruct ys as [ | y0 yr]; [discriminate | ].
  cbv zeta.
  repeat match goal with
         | |- context [set_lim ?l ?h] =>
             let Hl := fresh "Hlim" in
             destruct (set_lim l h) eqn:Hl; cbn [bind];
             [ | apply set_lim_error in Hl; now intros [= <-]]
         end.
  discriminate.
Qed.

(** A [ValueError] of lines 113-120 comes from an empty array or from an
    array that is not numeric. *)
Lemma depth_statistics_value_error (a : array num) (msg : string) :
  depth_statistics a = Raise (ValueError msg) ->
  size a = 0%nat \/ numeric a = false.
Proof.
  intros Hraise. destruct (numeric a) eqn:Hnum; [ | now right]. left.
  destruct (Nat.eq_dec (size a) 0) as [Hzero | Hpos]; [exact Hzero | ].
  destruct (depth_statistics_returns a Hnum Hpos) as [d Hd]. congruence.
Qed.

End RendererOutcome.



(** ** The plotting script from archive to display *)

Lemma keep_length (A B : Type) (mask : list bool) (xs : list A) (ys : list B) :
  List.length xs = List.length ys ->
  List.length (keep mask xs) = List.length (keep mask ys).
Proof.
  revert xs ys. induction mask as [ | b m IH]; intros xs ys Hlen.
  - now destruct xs, ys.
  - destruct xs as [ | x xs'], ys as [ | y ys']; cbn in Hlen;
      try discriminate Hlen; [reflexivity | ].
    injection Hlen as Hlen. cbn [keep].
    destruct b; cbn [List.length]; now rewrite (IH xs' ys' Hlen).
Qed.

Lemma keep_array_size (num B : Type) (mask : list bool) (a : array num)
  (ys : list B) :
  size a = List.length ys ->
  size (keep_array mask a) = List.length (keep mask ys).
Proof.
  destruct a; cbn [size keep_array]; apply keep_length.
Qed.

Lemma select_well_formed (num : Type) (gdf : GeoDataFrame num)
  (mask : list bool) :
  well_formed gdf -> well_formed (select gdf mask).
Proof.
  unfold well_formed, select, len. cbn [columns geometry].
  intros Hwf. apply Forall_map. apply Forall_forall. intros c Hc.
  cbn [snd]. apply keep_array_size.
  rewrite Forall_forall in Hwf. now apply Hwf.
Qed.

Section PlotScript.

Context {num : Type} {F : PyFloat num} {A : PyAbs num}.
Variable drv : Drivers num.
Variable geo : GeometryLib num.
Variable rng : Type.
Variable plt : PlotLib num rng.
Variable P : Type.
Variable pathlib : PathLib P.

(** The frame [read_polygons] returns for the frame the reader gave. *)
Lemma read_polygons_frame (path : string) (gdf0 : GeoDataFrame num) :
  plot_parse drv path = Ok gdf0 -> well_formed gdf0 ->
  exists out,
    snd (read_polygons drv path) = Ok out
    /\ well_formed out
    /\ geometry out = filter polygonal (geometry gdf0).
Proof.
  intros Hparse Hwf.
  destruct (read_polygons_result drv path Hparse) as [out [Hout [Hgeom _]]].
  exists out. split; [exact Hout | ]. split; [ | exact Hgeom].
  revert Hout. unfold plot_parse in Hparse. unfold read_polygons.
  assert (Hshape : forall g : GeoDataFrame num, well_formed g ->
            well_formed
              (let g1 := select g (notnull g) in
               let g2 := select g1 (geom_type_isin g1 ["Polygon"; "MultiPolygon"]) in
               match crs g2 with
               | None => set_crs g2 EPSG_4326
               | Some _ => g2
               end)).
  { intros g Hg. cbn zeta.
    pose proof (select_well_formed
                  (geom_type_isin (select g (notnull g)) ["Polygon"; "MultiPolygon"])
                  (select_well_formed (notnull g) Hg)) as Hsel.
    destruct (crs _); [exact Hsel | exact Hsel]. }
  destruct (gpd_read_file drv path (Some "LIBKML")) as [g | e].
  - injection Hparse as ->. cbn [snd bind]. intros [= <-]. now apply Hshape.
  - rewrite Hparse. cbn [snd bind]. intros [= <-]. now apply Hshape.
Qed.

Lemma read_polygons_raises (path : string) (e : exn) :
  plot_parse drv path = Raise e -> snd (read_polygons drv path) = Raise e.
Proof.
  unfold plot_parse, read_polygons.
  destruct (gpd_read_file drv path (Some "LIBKML")) as [g | e'].
  - discriminate.
  - intros ->. reflexivity.
Qed.

Lemma filter_nonempty_iff_existsb (X : Type) (p : X -> bool) (xs : list X) :
  existsb p xs = match filter p xs with [] => false | _ :: _ => true end.
Proof.
  induction xs as [ | x t IH]; cbn; [reflexivity | ].
  destruct (p x); [reflexivity | exact IH].
Qed.

(** On a frame of polygons the renderer gives a figure or ends in
    [ValueError] or [TypeError]. *)
Lemma renderer_on_polygons (gdf : GeoDataFrame num) (show_depth_labels : bool)
  (depth_column : option string) (s : rng) :
  well_formed gdf ->
  Forall (fun g => polygonal g = true) (geometry gdf) ->
  (exists fig,
     snd (plot_extruded_3d geo plt (Some gdf) show_depth_labels depth_column s)
     = Ok fig)
  \/ (exists msg,
        snd (plot_extruded_3d geo plt (Some gdf) show_depth_labels depth_column s)
        = Raise (ValueError msg))
  \/ (exists msg,
        snd (plot_extruded_3d geo plt (Some gdf) show_depth_labels depth_column s)
        = Raise (TypeError msg)).
Proof.
  intros Hwf Hpoly.
  destruct (resolve_depths_size plt depth_column s Hwf)
    as [msgs [a [Hres Hsize]]].
  unfold plot_extruded_3d. rewrite Hres.
  destruct (depth_statistics_outcome a)
    as [[d Hstat] | [[msg Hstat] | [_ [msg Hstat]]]]; rewrite Hstat; cbn [snd];
    [ | right; left; now exists msg | right; right; now exists msg].
  destruct (depth_statistics_returned a Hstat) as [_ [_ [Hdl Hnl]]].
  destruct (plot_features_outcome geo plt show_depth_labels (geometry gdf)
              (depths d) (normalized_depths d) [] [] (mkAxes [] [] [] []))
    as [[_ [_ [ax Hloop]]] | [[Hex _] | [_ Hloop]]];
    try (unfold len in *; lia); try reflexivity.
  - cbn [List.length app] in Hloop. rewrite Hloop. cbn [bind].
    destruct (axis_limits (ax_xs ax) (ax_ys ax) (max_depth d)) as [lims | e]
      eqn:Hlims; cbn [bind].
    + left. now eexists.
    + right. left. rewrite (axis_limits_error _ _ _ Hlims). now eexists.
  - exfalso. apply Exists_exists in Hex. destruct Hex as [g [Hin Hg]].
    rewrite Forall_forall in Hpoly. specialize (Hpoly g Hin). congruence.
  - cbn [List.length app] in Hloop. rewrite Hloop. right. left. now eexists.
Qed.

Lemma set_axes_equal_error
  (lims : (num * num) * (num * num) * (num * num)) (e : exn) :
  _set_axes_equal lims = Raise e ->
  e = ValueError "Axis limits cannot be NaN or Inf".
Proof.
  destruct lims as [[xl yl] zl]. unfold _set_axes_equal. cbv zeta.
  repeat match goal with
         | |- context [set_lim ?l ?h] =>
             let Hl := fresh "Hlim" in
             destruct (set_lim l h) eqn:Hl; cbn [bind];
             [ | apply set_lim_error in Hl; now intros [= <-]]
         end.
  discriminate.
Qed.


(** X10.  Whatever the output path, a file handed to the animation writer has
    the suffix of the writer's format: [pillow] receives a path whose
    lowered suffix is [.gif], [ffmpeg] one whose lowered suffix is [.mp4],
    always at 20 frames per second and 100 dpi, given that [with_suffix]
    returns a path with the suffix it was asked for.  A path with any other
    suffix is therefore not the file that gets written. *)
Theorem animation_writer_matches_the_suffix (outpath : option string) (show animate : bool)
  (p : P) (writer : string) (fps dpi : nat) :
  (forall q q', with_suffix pathlib q ".mp4" = Ok q' ->
                path_suffix pathlib q' = ".mp4") ->
  In (AnimationSave p writer fps dpi)
     (fst (save_and_show pathlib outpath show animate)) ->
  animate = true /\ fps = 20%nat /\ dpi = 100%nat
  /\ ((writer = "pillow" /\ lower (path_suffix pathlib p) = ".gif")
      \/ (writer = "ffmpeg" /\ lower (path_suffix pathlib p) = ".mp4")).
Proof.
  intros Hsuffix. unfold save_and_show.
  destruct animate.
  - destruct outpath as [o | ].
    + destruct (truthy (Some o)).
      * destruct (String.eqb (lower (path_suffix pathlib (Path pathlib o))) ".gif")
          eqn:Hgif.
        -- apply String.eqb_eq in Hgif. cbn [fst]. intros Hin.
           apply in_app_or in Hin. destruct Hin as [Hin | Hin].
           ++ cbn in Hin.
              destruct Hin as [Hin | [Hin | [Hin | [Hin | [Hin | []]]]]];
                try discriminate Hin.
              injection Hin as <- <- <- <-. repeat split. now left.
           ++ destruct show; cbn in Hin;
                destruct Hin as [Hin | [Hin | []]]; discriminate Hin.
        -- destruct (String.eqb (lower (path_suffix pathlib (Path pathlib o))) ".mp4")
             eqn:Hmp4; cbn [negb].
           ++ apply String.eqb_eq in Hmp4. cbn [fst]. intros Hin.
              apply in_app_or in Hin. destruct Hin as [Hin | Hin].
              ** cbn in Hin.
                 destruct Hin as [Hin | [Hin | [Hin | [Hin | [Hin | []]]]]];
                   try discriminate Hin.
                 injection Hin as <- <- <- <-. repeat split. now right.
              ** destruct show; cbn in Hin;
                   destruct Hin as [Hin | [Hin | []]]; discriminate Hin.
           ++ destruct (with_suffix pathlib (Path pathlib o) ".mp4")
                as [q' | e] eqn:Hwith; cbn [fst]; intros Hin.
              ** apply in_app_or in Hin. destruct Hin as [Hin | Hin].
                 --- cbn in Hin.
                     destruct Hin as [Hin | [Hin | [Hin | [Hin | [Hin | []]]]]];
                       try discriminate Hin.
                     injection Hin as <- <- <- <-. repeat split. right.
                     split; [reflexivity | ].
                     now rewrite (Hsuffix _ _ Hwith).
                 --- destruct show; cbn in Hin;
                       destruct Hin as [Hin | [Hin | []]]; discriminate Hin.
              ** cbn in Hin. destruct Hin as [Hin | [Hin | []]]; discriminate Hin.
      * cbn [fst]. intros Hin. destruct show; cbn in Hin;
          destruct Hin as [Hin | [Hin | [Hin | []]]]; discriminate Hin.
    + cbn [fst]. intros Hin. destruct show; cbn in Hin;
        destruct Hin as [Hin | [Hin | [Hin | []]]]; discriminate Hin.
  - destruct outpath as [o | ].
    + destruct (truthy (Some o)); cbn [fst]; intros Hin.
      * apply in_app_or in Hin. destruct Hin as [Hin | Hin].
        -- cbn in Hin. destruct Hin as [Hin | [Hin | [Hin | [Hin | []]]]];
             discriminate Hin.
        -- destruct show; cbn in Hin;
             destruct Hin as [Hin | [Hin | []]]; discriminate Hin.
      * destruct show; cbn in Hin;
          destruct Hin as [Hin | [Hin | []]]; discriminate Hin.
    + cbn [fst]. intros Hin. destruct show; cbn in Hin;
        destruct Hin as [Hin | [Hin | []]]; discriminate Hin.
Qed.

End PlotScript.


Lemma animation_witness_png_becomes_mp4 :
  true = true /\ 20%nat = 20%nat /\ 100%nat = 100%nat
  /\ (("ffmpeg" = "pillow"
       /\ lower (path_suffix toy_pathlib ("out/flood", ".mp4")) = ".gif")
      \/ ("ffmpeg" = "ffmpeg"
          /\ lower (path_suffix toy_pathlib ("out/flood", ".mp4")) = ".mp4")).
Proof.
  apply (@animation_writer_matches_the_suffix (string * string)%type
           toy_pathlib (Some "out/flood.png") false true
           ("out/flood", ".mp4") "ffmpeg" 20 100).
  - intros q q'. cbn.
    destruct (_ || _); [discriminate | ]. now intros [= <-].
  - vm_compute. do 3 right. left. reflexivity.
Defined.

(** X11.  A call of the saving and display step that returns has made exactly
    one call that writes a file when an output path was given and none when
    it was [None] or empty, and it ends with its only display call:
    [plt.show] when [show] is set, [plt.close] otherwise.  When
    [with_suffix] raises, no writing call was made and the figure was
    neither shown nor closed. *)
Theorem save_and_show_writes_once_and_displays_last :
  forall (P : Type) (pathlib : PathLib P) (outpath : option string)
         (show animate : bool),
    match snd (save_and_show pathlib outpath show animate) with
    | Ok _ =>
        List.length (filter (@is_write P)
                       (fst (save_and_show pathlib outpath show animate)))
        = (if truthy outpath then 1%nat else 0%nat)
        /\ exists before,
             fst (save_and_show pathlib outpath show animate)
             = before ++ [if show then PltShow P else PltClose P]
             /\ filter (@is_display P) before = []
    | Raise _ =>
        filter (@is_write P)
          (fst (save_and_show pathlib outpath show animate)) = []
        /\ filter (@is_display P)
             (fst (save_and_show pathlib outpath show animate)) = []
    end.
Proof.
  intros P pathlib outpath show animate. unfold save_and_show.
  destruct animate, outpath as [o | ];
    try destruct (truthy (Some o)) eqn:Ho;
    try destruct (String.eqb (lower (path_suffix pathlib (Path pathlib o))) ".gif");
    try destruct (String.eqb (lower (path_suffix pathlib (Path pathlib o))) ".mp4");
    cbn [negb];
    try destruct (with_suffix pathlib (Path pathlib o) ".mp4");
    cbn [fst snd truthy]; try rewrite Ho.
    all: try (split; reflexivity).
    all: (split; [now destruct show | ]).
    all: destruct show; cbn [app].
    all: match goal with
         | |- exists before, ?l = _ /\ _ =>
             exists (removelast l); cbn; split; reflexivity
         end.
Qed.

(** ** What the converter writes *)

(** X14.  A run of the converter hands at most one frame to [to_file], and only
    after extraction and reading returned.  That frame goes to
    [OUT_GEOJSON], is in EPSG:4326, and holds only geometries that passed
    [is_valid] after the repair; when [to_file] returns, the one line
    printed carries that path and the number of records of that frame. *)
Theorem converter_exports_one_valid_frame_in_epsg_4326 :
  forall (num : Type) (F : PyFloat num) (drv : Drivers num)
         (geo : GeometryLib num)
         (to_file : GeoDataFrame num -> string -> string -> result unit)
         (archive : kmz_file) (td : string)
         (gdf : GeoDataFrame num) (out_path : string),
    In (gdf, out_path)
       (read_kmz_geopandas.exported
          (fst (read_kmz_geopandas.main drv geo to_file archive td))) ->
    read_kmz_geopandas.exported
      (fst (read_kmz_geopandas.main drv geo to_file archive td))
    = [(gdf, read_kmz_geopandas.OUT_GEOJSON)]
    /\ out_path = read_kmz_geopandas.OUT_GEOJSON
    /\ crs gdf = Some EPSG_4326
    /\ Forall (fun g => valid_record geo g = true) (geometry gdf)
    /\ (exists kml,
          read_kmz_geopandas.extract_kml_from_kmz read_kmz_geopandas.KMZ_PATH
            archive td = Ok kml
          /\ snd (read_kmz_geopandas.read_kml_to_gdf drv geo kml) = Ok gdf)
    /\ (snd (read_kmz_geopandas.main drv geo to_file archive td) = Ok tt ->
        read_kmz_geopandas.wrote_lines
          (fst (read_kmz_geopandas.main drv geo to_file archive td))
        = [read_kmz_geopandas.WroteGeoJSON read_kmz_geopandas.OUT_GEOJSON
             (len gdf)]).
Proof.
  intros num F drv geo to_file archive td gdf out_path.
  unfold read_kmz_geopandas.main.
  destruct (read_kmz_geopandas.extract_kml_from_kmz
              read_kmz_geopandas.KMZ_PATH archive td) as [kml | e] eqn:Hkml;
    [ | intros []].
  destruct (read_kmz_geopandas.read_kml_to_gdf drv geo kml)
    as [attempts [out | e]] eqn:Hread; [ | intros []].
  assert (Hout : snd (read_kmz_geopandas.read_kml_to_gdf drv geo kml) = Ok out)
    by now rewrite Hread.
  unfold read_kmz_geopandas.export_geojson.
  destruct (to_file out read_kmz_geopandas.OUT_GEOJSON "GeoJSON") as [[] | e];
    cbn [fst snd read_kmz_geopandas.exported read_kmz_geopandas.wrote_lines];
    intros [[= <- <-] | []].
  all: destruct (converter_parse drv kml) as [gdf0 | e'] eqn:Hparse.
  all: try (exfalso; unfold converter_parse in Hparse;
            unfold read_kmz_geopandas.read_kml_to_gdf in Hout;
            destruct (gpd_read_file drv kml (Some "LIBKML")) as [g | e1];
            [discriminate Hparse | ];
            cbn [snd] in Hout; rewrite Hparse in Hout; discriminate Hout).
  all: destruct (read_kml_to_gdf_result drv geo kml Hparse)
         as [out' [Hout' [Hgeom Hcrs]]];
       rewrite Hout in Hout'; injection Hout' as <-.
  all: repeat split; try reflexivity; try exact Hcrs;
       try (rewrite Hgeom; apply filter_satisfies);
       try (exists kml; split; [reflexivity | exact Hout]);
       try discriminate.
Qed.

Lemma converter_export_witness_bowtie_frame :
  read_kmz_geopandas.exported
    (fst (read_kmz_geopandas.main (constant_drivers frame_with_bowtie)
            plain_geometry_lib (fun _ _ _ => Ok tt)
            (Archive [Dir "files" [File "doc.kml"]]) "/tmp/td"))
  = [(mkGDF [] [Some (GPolygon unit_square)] (Some EPSG_4326),
      read_kmz_geopandas.OUT_GEOJSON)]
  /\ read_kmz_geopandas.OUT_GEOJSON = read_kmz_geopandas.OUT_GEOJSON
  /\ crs (mkGDF [] [Some (GPolygon unit_square)] (Some EPSG_4326))
     = Some EPSG_4326
  /\ Forall (fun g => valid_record plain_geometry_lib g = true)
            (geometry (mkGDF [] [Some (GPolygon unit_square)] (Some EPSG_4326)))
  /\ (exists kml,
        read_kmz_geopandas.extract_kml_from_kmz read_kmz_geopandas.KMZ_PATH
          (Archive [Dir "files" [File "doc.kml"]]) "/tmp/td" = Ok kml
        /\ snd (read_kmz_geopandas.read_kml_to_gdf
                  (constant_drivers frame_with_bowtie) plain_geometry_lib kml)
           = Ok (mkGDF [] [Some (GPolygon unit_square)] (Some EPSG_4326)))
  /\ (snd (read_kmz_geopandas.main (constant_drivers frame_with_bowtie)
             plain_geometry_lib (fun _ _ _ => Ok tt)
             (Archive [Dir "files" [File "doc.kml"]]) "/tmp/td") = Ok tt ->
      read_kmz_geopandas.wrote_lines
        (fst (read_kmz_geopandas.main (constant_drivers frame_with_bowtie)
                plain_geometry_lib (fun _ _ _ => Ok tt)
                (Archive [Dir "files" [File "doc.kml"]]) "/tmp/td"))
      = [read_kmz_geopandas.WroteGeoJSON read_kmz_geopandas.OUT_GEOJSON
           (len (mkGDF [] [Some (GPolygon unit_square)] (Some EPSG_4326)))]).
Proof.
  apply (@converter_exports_one_valid_frame_in_epsg_4326 Q ExactFloat
           (constant_drivers frame_with_bowtie) plain_geometry_lib
           (fun _ _ _ => Ok tt) (Archive [Dir "files" [File "doc.kml"]])
           "/tmp/td").
  vm_compute. left. reflexivity.
Defined.

(** ** Depth labels *)

(** X15.  On a frame with one value per record in each column, all of
    whose records are Polygons or MultiPolygons with a coordinate in every
    exterior ring, and for which lines 113-120 return and the limits of
    lines 216-219 are accepted, the renderer returns a figure that carries
    no label unless depth labels are asked for, and then one label for every
    polygon drawn, in drawing order: every part of a MultiPolygon gets its
    own label, each with the depth of the whole feature, at the part's
    centroid, 0.02 above its top face. *)
Theorem depth_labels_one_per_drawn_polygon :
  forall (num : Type) (F : PyFloat num) (geo : GeometryLib num) (rng : Type)
         (plt : PlotLib num rng) (gdf : GeoDataFrame num)
         (show_depth_labels : bool) (depth_column : option string) (s : rng)
         (a : array num) (d : @Depths num)
         (lims : option ((num * num) * (num * num) * (num * num))),
    well_formed gdf ->
    Forall (fun g => polygonal g = true) (geometry gdf) ->
    Forall (fun r => r <> []) (rings gdf) ->
    snd (resolve_depths plt gdf depth_column s) = Ok a ->
    depth_statistics a = Ok d ->
    axis_limits (collected_xs gdf) (collected_ys gdf) (max_depth d) = Ok lims ->
    exists log fig,
      plot_extruded_3d geo plt (Some gdf) show_depth_labels depth_column s
        = (log, Ok fig)
      /\ texts fig
         = if show_depth_labels
           then map (depth_label geo) (features (geometry gdf) (depths d))
           else [].
Proof.
  intros num F geo rng plt gdf show_depth_labels depth_column s a d lims
         Hwf Hpoly Hrings Hres Hstat Hlims.
  destruct (renderer_returns geo plt show_depth_labels depth_column s
              Hwf Hpoly Hrings Hres Hstat Hlims) as [log [fig [Hrun _]]].
  exists log, fig. split; [exact Hrun | ].
  destruct (renderer_returned _ _ _ _ _ _ Hrun)
    as [a' [d' [Hres' [Hstat' [_ [_ [_ [_ [Htexts _]]]]]]]]].
  rewrite Hres in Hres'. injection Hres' as <-.
  rewrite Hstat in Hstat'. injection Hstat' as <-.
  exact Htexts.
Qed.

Lemma depth_labels_witness_two_features :
  exists log fig,
    plot_extruded_3d plain_geometry_lib toy_plot_lib
      (Some two_features_with_depth) true None 0%nat = (log, Ok fig)
    /\ List.length (texts fig) = 3%nat.
Proof.
  edestruct (@depth_labels_one_per_drawn_polygon Q ExactFloat plain_geometry_lib
               nat toy_plot_lib two_features_with_depth true None 0%nat)
    as [log [fig [Hrun Htexts]]].
  - repeat constructor.
  - repeat constructor.
  - repeat constructor; discriminate.
  - reflexivity.
  - reflexivity.
  - reflexivity.
  - exists log, fig. split; [exact Hrun | ]. now rewrite Htexts.
Defined.
